(** * Border-checkpoint normalisation pipeline: a shallow embedding

    The scripts [extract-ru-borders.py], [transliterate_geojson.py] and
    [json_to_geojson.py] are embedded as Rocq functions over a small model of
    the Python values they handle: strings are lists of Unicode code points,
    JSON documents are a tree of [json] values whose objects keep insertion
    order, and a Python exception is the [Raise] branch of [result]. *)

From Stdlib Require Import String Ascii.
From Stdlib Require Import List NArith ZArith Bool Lia.
From Stdlib Require Import Floats.SpecFloat.
Import ListNotations.

(* ===================================================================== *)
(** * Python strings                                                      *)
(* ===================================================================== *)

(** A Python [str] is a sequence of code points. *)
Definition char := N.
Definition pystr := list char.

(** Source text is written as UTF-8 literals; [u] decodes one into code
    points, so that [u "Ye"] is the two-character string [Y], [e]. *)
Fixpoint utf8_decode (bs : list N) : pystr :=
  match bs with
  | [] => []
  | b :: r =>
    if (b <? 128)%N then b :: utf8_decode r
    else if (b <? 224)%N then
      match r with
      | b1 :: r1 => ((b - 192) * 64 + (b1 - 128))%N :: utf8_decode r1
      | _ => []
      end
    else if (b <? 240)%N then
      match r with
      | b1 :: b2 :: r2 =>
        ((b - 224) * 4096 + (b1 - 128) * 64 + (b2 - 128))%N :: utf8_decode r2
      | _ => []
      end
    else
      match r with
      | b1 :: b2 :: b3 :: r3 =>
        ((b - 240) * 262144 + (b1 - 128) * 4096 + (b2 - 128) * 64 + (b3 - 128))%N
          :: utf8_decode r3
      | _ => []
      end
  end.

Definition u (s : string) : pystr :=
  utf8_decode (map N_of_ascii (list_ascii_of_string s)).

(** The single character of a one-character literal. *)
Definition uc (s : string) : char := hd 0%N (u s).

Fixpoint str_eqb (a b : pystr) : bool :=
  match a, b with
  | [], [] => true
  | x :: a', y :: b' => (x =? y)%N && str_eqb a' b'
  | _, _ => false
  end.

(** [s.startswith(p)] *)
Fixpoint starts_with (p s : pystr) : bool :=
  match p, s with
  | [], _ => true
  | x :: p', y :: s' => (x =? y)%N && starts_with p' s'
  | _ :: _, [] => false
  end.

(** [p in s] for strings: [p] occurs as a substring of [s]. *)
Fixpoint contains (p s : pystr) : bool :=
  starts_with p s ||
  match s with
  | [] => false
  | _ :: s' => contains p s'
  end.

(** [c in s] for a single character [c]. *)
Definition has_char (c : char) (s : pystr) : bool :=
  existsb (N.eqb c) s.

(** [str.isspace] on one character, which is also what [\s] matches in a
    [str] pattern: the code points CPython's [_PyUnicode_IsWhitespace]
    accepts. *)
Definition is_space (c : char) : bool :=
  ((9 <=? c) && (c <=? 13) || (28 <=? c) && (c <=? 32) ||
   (c =? 133) || (c =? 160) || (c =? 5760) ||
   (8192 <=? c) && (c <=? 8202) || (c =? 8232) || (c =? 8233) ||
   (c =? 8239) || (c =? 8287) || (c =? 12288))%N.

(** [s.replace(c, '')] for a one-character [c]. *)
Definition remove_char (c : char) (s : pystr) : pystr :=
  filter (fun x => negb (x =? c)%N) s.

(** [s.lstrip()], [s.rstrip()] and [s.strip()]. *)
Fixpoint lstrip (s : pystr) : pystr :=
  match s with
  | [] => []
  | c :: s' => if is_space c then lstrip s' else s
  end.

Definition rstrip (s : pystr) : pystr := rev (lstrip (rev s)).

Definition strip (s : pystr) : pystr := rstrip (lstrip s).

(* ===================================================================== *)
(** * Transliteration engine ([extract-ru-borders.py], lines 6-36)        *)
(* ===================================================================== *)

(** [TRANS_MAP]: one entry per Cyrillic letter, in the source's order. *)
Definition TRANS_MAP : list (char * pystr) :=
  Eval vm_compute in
  map (fun kv => (uc (fst kv), u (snd kv)))
  [ ("а", "a"); ("б", "b"); ("в", "v"); ("г", "g"); ("д", "d"); ("е", "e");
    ("ё", "yo"); ("ж", "zh"); ("з", "z"); ("и", "i"); ("й", "y"); ("к", "k");
    ("л", "l"); ("м", "m"); ("н", "n"); ("о", "o"); ("п", "p"); ("р", "r");
    ("с", "s"); ("т", "t"); ("у", "u"); ("ф", "f"); ("х", "kh"); ("ц", "ts");
    ("ч", "ch"); ("ш", "sh"); ("щ", "shch"); ("ъ", ""); ("ы", "y"); ("ь", "");
    ("э", "e"); ("ю", "yu"); ("я", "ya");
    ("А", "A"); ("Б", "B"); ("В", "V"); ("Г", "G"); ("Д", "D"); ("Е", "E");
    ("Ё", "Yo"); ("Ж", "Zh"); ("З", "Z"); ("И", "I"); ("Й", "Y"); ("К", "K");
    ("Л", "L"); ("М", "M"); ("Н", "N"); ("О", "O"); ("П", "P"); ("Р", "R");
    ("С", "S"); ("Т", "T"); ("У", "U"); ("Ф", "F"); ("Х", "Kh"); ("Ц", "Ts");
    ("Ч", "Ch"); ("Ш", "Sh"); ("Щ", "Shch"); ("Ъ", ""); ("Ы", "Y"); ("Ь", "");
    ("Э", "E"); ("Ю", "Yu"); ("Я", "Ya") ]%string.

(** [table.get(c, default)] on a character table. *)
Fixpoint table_get (t : list (char * pystr)) (c : char) (default : pystr) : pystr :=
  match t with
  | [] => default
  | (k, v) :: t' => if (k =? c)%N then v else table_get t' c default
  end.

(** [c in table]. *)
Definition in_table (t : list (char * pystr)) (c : char) : bool :=
  existsb (fun kv => (fst kv =? c)%N) t.

(** The loop [for char in text: result.append(TRANS_MAP.get(char, char))]
    followed by ["".join(result)]. *)
Definition map_chars (t : list (char * pystr)) (text : pystr) : pystr :=
  flat_map (fun c => table_get t c [c]) text.

(** [re.sub(r'(^|\s)PAT', r'\1REP', s)] for a literal [PAT]: scanning left to
    right, an occurrence of [PAT] that begins the string or follows a
    whitespace character not consumed by the previous match is replaced by
    [REP]; matched text is not rescanned.  [skip] counts the characters of the
    current match still to be dropped, [boundary] tells whether a match may
    begin at the head of [s]. *)
Fixpoint re_sub_boundary (pat rep : pystr) (skip : nat) (boundary : bool)
    (s : pystr) : pystr :=
  match s with
  | [] => []
  | c :: s' =>
    match skip with
    | S k => re_sub_boundary pat rep k false s'
    | O =>
      if boundary && negb (Nat.eqb (length pat) 0) && starts_with pat s
      then rep ++ re_sub_boundary pat rep (length pat - 1) false s'
      else c :: re_sub_boundary pat rep 0 (is_space c) s'
    end
  end.

Definition re_sub_initial (pat rep s : pystr) : pystr :=
  re_sub_boundary pat rep 0 true s.

Definition HARD_UPPER : char := Eval vm_compute in uc "Ъ".
Definition SOFT_UPPER : char := Eval vm_compute in uc "Ь".
Definition HARD_LOWER : char := Eval vm_compute in uc "ъ".
Definition SOFT_LOWER : char := Eval vm_compute in uc "ь".

(** [text.replace('Ъ', '').replace('Ь', '').replace('ъ', '').replace('ь', '')] *)
Definition strip_signs (text : pystr) : pystr :=
  remove_char SOFT_LOWER (remove_char HARD_LOWER
    (remove_char SOFT_UPPER (remove_char HARD_UPPER text))).

Definition cyrillic_to_latin (text : pystr) : pystr :=
  let text := strip_signs text in
  let transliterated := map_chars TRANS_MAP text in
  let transliterated := re_sub_initial (u "E") (u "Ye") transliterated in
  let transliterated := re_sub_initial (u "e") (u "ye") transliterated in
  let transliterated := re_sub_initial (u "Yo") (u "Yo") transliterated in
  let transliterated := re_sub_initial (u "yo") (u "yo") transliterated in
  transliterated.

(** ** Vocabulary for the statements about the engine *)

Definition CYR_E_UPPER : char := Eval vm_compute in uc "Е".
Definition CYR_E_LOWER : char := Eval vm_compute in uc "е".
Definition LATIN_E_UPPER : char := Eval vm_compute in uc "E".
Definition LATIN_E_LOWER : char := Eval vm_compute in uc "e".

Definition is_sign (c : char) : bool :=
  ((c =? HARD_UPPER) || (c =? SOFT_UPPER) || (c =? HARD_LOWER) || (c =? SOFT_LOWER))%N.

(** Whether a match of [(^|\s)] may begin right after [s], when it may
    begin at the head of [s] exactly if [boundary]: [s] is empty and
    [boundary] holds, or [s] ends with whitespace. *)
Definition boundary_after (boundary : bool) (s : pystr) : bool :=
  fold_left (fun _ c => is_space c) s boundary.

(** The text [pre] leaves the next character at the start of a word: with
    the hard and soft signs dropped, [pre] is empty or ends with
    whitespace. *)
Definition word_start (pre : pystr) : bool :=
  boundary_after true (strip_signs pre).

(** The engine run on the tail of a text: the same passes as
    [cyrillic_to_latin], where the first character follows a whitespace
    character exactly if [boundary]. *)
Definition translit_from (boundary : bool) (text : pystr) : pystr :=
  let text := strip_signs text in
  let transliterated := map_chars TRANS_MAP text in
  let transliterated := re_sub_boundary (u "E") (u "Ye") 0 boundary transliterated in
  let transliterated := re_sub_boundary (u "e") (u "ye") 0 boundary transliterated in
  let transliterated := re_sub_boundary (u "Yo") (u "Yo") 0 boundary transliterated in
  let transliterated := re_sub_boundary (u "yo") (u "yo") 0 boundary transliterated in
  transliterated.

(* ===================================================================== *)
(** * Python values and exceptions                                        *)
(* ===================================================================== *)

(** The exception classes the scripts can raise; [SystemExit] is
    [sys.exit(1)]. *)
Inductive exn : Type :=
| KeyError | AttributeError | TypeError | ValueError | IndexError
| OverflowError | SystemExit.

Inductive result (A : Type) : Type :=
| Ok (a : A)
| Raise (e : exn).
Arguments Ok {A} a.
Arguments Raise {A} e.

Definition bind {A B : Type} (m : result A) (k : A -> result B) : result B :=
  match m with
  | Ok a => k a
  | Raise e => Raise e
  end.

Notation "x <- m ;; k" := (bind m (fun x => k))
  (at level 61, m at next level, right associativity).

(** A loop [for x in xs: acc = body(acc, x)] that stops at the first
    exception. *)
Fixpoint for_each {A S : Type} (xs : list A) (acc : S)
    (body : S -> A -> result S) : result S :=
  match xs with
  | [] => Ok acc
  | x :: xs' => acc' <- body acc x ;; for_each xs' acc' body
  end.

(** What [json.loads] builds: [None], [bool], [int], [float] (binary64, as
    a [spec_float]), [str], [list] and [dict] with string keys in insertion
    order. *)
#[warnings="-register-all"]
Inductive json : Type :=
| JNull
| JBool (b : bool)
| JInt (z : Z)
| JFloat (f : spec_float)
| JStr (s : pystr)
| JArr (l : list json)
| JObj (kvs : list (pystr * json)).

Definition dict := list (pystr * json).

(** [d[k]] as an [option]; [None] when [k not in d]. *)
Fixpoint dict_lookup (d : dict) (k : pystr) : option json :=
  match d with
  | [] => None
  | (k', v) :: d' => if str_eqb k' k then Some v else dict_lookup d' k
  end.

(** [d[k] = v]: an existing key keeps its place, a new one goes last. *)
Fixpoint dict_set (d : dict) (k : pystr) (v : json) : dict :=
  match d with
  | [] => [(k, v)]
  | (k', v') :: d' =>
    if str_eqb k' k then (k', v) :: d' else (k', v') :: dict_set d' k v
  end.

(** [d.get(k, default)] *)
Definition dict_get (d : dict) (k : pystr) (default : json) : json :=
  match dict_lookup d k with
  | Some v => v
  | None => default
  end.

(** [d[k]] where a missing key raises. *)
Definition dict_getitem (d : dict) (k : pystr) : result json :=
  match dict_lookup d k with
  | Some v => Ok v
  | None => Raise KeyError
  end.

(** [v.get(k, default)] on an arbitrary value: only a dict has [get]. *)
Definition py_get (v : json) (k : pystr) (default : json) : result json :=
  match v with
  | JObj d => Ok (dict_get d k default)
  | _ => Raise AttributeError
  end.

Definition binary64_of_Z (z : Z) : spec_float :=
  binary_normalize 53 1024 z 0 false.

Definition float_one : spec_float := Eval vm_compute in binary64_of_Z 1.

(** [float == int] compares the exact values. *)
Definition float_eq_Z (f : spec_float) (z : Z) : bool :=
  match f with
  | S754_zero _ => (z =? 0)%Z
  | S754_finite s m e =>
    let sm := cond_Zopp s (Zpos m) in
    if (0 <=? e)%Z then (z =? sm * 2 ^ e)%Z else (sm =? z * 2 ^ (- e))%Z
  | _ => false
  end.

(** The truth value of a Python object, as [if v:] tests it. *)
Definition py_truthy (v : json) : bool :=
  match v with
  | JNull => false
  | JBool b => b
  | JInt z => negb (z =? 0)%Z
  | JFloat f => negb (SFeqb f (S754_zero false))
  | JStr s => negb (Nat.eqb (length s) 0)
  | JArr l => negb (Nat.eqb (length l) 0)
  | JObj d => negb (Nat.eqb (length d) 0)
  end.

(** [v == s] for a string literal [s]. *)
Definition py_eq_str (v : json) (s : pystr) : bool :=
  match v with
  | JStr t => str_eqb t s
  | _ => false
  end.

(** [v == True]: [bool] is a subclass of [int], so [True] equals the numbers
    of value 1. *)
Definition py_eq_True (v : json) : bool :=
  match v with
  | JBool b => b
  | JInt z => (z =? 1)%Z
  | JFloat f => SFeqb f float_one
  | _ => false
  end.

(** [for x in v]: the sequence of values the loop visits. *)
Definition py_iter (v : json) : result (list json) :=
  match v with
  | JObj d => Ok (map (fun kv => JStr (fst kv)) d)
  | JArr l => Ok l
  | JStr s => Ok (map (fun c => JStr [c]) s)
  | _ => Raise TypeError
  end.

(** [l[i]] with Python's negative indexes. *)
Definition seq_index {A : Type} (l : list A) (i : Z) : result A :=
  let n := Z.of_nat (length l) in
  let j := if (i <? 0)%Z then (i + n)%Z else i in
  if ((0 <=? j) && (j <? n))%Z
  then match nth_error l (Z.to_nat j) with
       | Some x => Ok x
       | None => Raise IndexError
       end
  else Raise IndexError.

(** [v[k]] *)
Definition py_getitem (v k : json) : result json :=
  match v with
  | JObj d =>
    match k with
    | JStr s => dict_getitem d s
    | JArr _ | JObj _ => Raise TypeError
    | _ => Raise KeyError
    end
  | JArr l =>
    match k with
    | JInt i => seq_index l i
    | JBool b => seq_index l (if b then 1 else 0)%Z
    | _ => Raise TypeError
    end
  | JStr s =>
    match k with
    | JInt i => c <- seq_index s i ;; Ok (JStr [c])
    | JBool b => c <- seq_index s (if b then 1 else 0)%Z ;; Ok (JStr [c])
    | _ => Raise TypeError
    end
  | _ => Raise TypeError
  end.

(** [cyrillic_to_latin(v)] on an arbitrary value: line 24 calls
    [text.replace], which only a [str] has. *)
Definition call_cyrillic_to_latin (v : json) : result pystr :=
  match v with
  | JStr s => Ok (cyrillic_to_latin s)
  | _ => Raise AttributeError
  end.

(* ===================================================================== *)
(** * Parenthetical stripping (line 65)                                   *)
(* ===================================================================== *)

Definition LPAREN : char := Eval vm_compute in uc "(".
Definition RPAREN : char := Eval vm_compute in uc ")".
Definition NEWLINE : char := 10%N.

(** Number of characters before the first [)] of [s], provided no line
    break comes first: the lazy [.*?] followed by [\)]. *)
Fixpoint lazy_to_rparen (s : pystr) : option nat :=
  match s with
  | [] => None
  | c :: s' =>
    if (c =? RPAREN)%N then Some O
    else if (c =? NEWLINE)%N then None
    else option_map S (lazy_to_rparen s')
  end.

(** Length of the leading whitespace run: the greedy [\s*]. *)
Fixpoint space_run (s : pystr) : nat :=
  match s with
  | [] => O
  | c :: s' => if is_space c then S (space_run s') else O
  end.

(** Length of the match of [\s*\(.*?\)\s*] at the head of [s], if any. *)
Definition paren_match (s : pystr) : option nat :=
  let k := space_run s in
  match skipn k s with
  | c :: inner =>
    if (c =? LPAREN)%N then
      match lazy_to_rparen inner with
      | Some n => Some (k + 1 + n + 1 + space_run (skipn (S n) inner))%nat
      | None => None
      end
    else None
  | [] => None
  end.

(** [re.sub(r'\s*\(.*?\)\s*', '', s)]: every match, leftmost first, is
    deleted.  [skip] counts the characters of the current match still to be
    dropped. *)
Fixpoint re_sub_parens (skip : nat) (s : pystr) : pystr :=
  match s with
  | [] => []
  | c :: s' =>
    match skip with
    | S k => re_sub_parens k s'
    | O =>
      match paren_match s with
      | Some n => re_sub_parens (n - 1) s'
      | None => c :: re_sub_parens 0 s'
      end
    end
  end.

(** Lines 64-67. *)
Definition compute_name_en (full_name : pystr) : pystr :=
  if has_char LPAREN full_name
  then strip (re_sub_parens 0 full_name)
  else full_name.

(* ===================================================================== *)
(** * Status classifier                                                   *)
(* ===================================================================== *)

(** Lines 74-78 of [extract-ru-borders.py]. *)
Definition classify_status (status_en : json) : json :=
  if py_eq_str status_en (u "Bilateral") then JInt 1
  else if py_eq_str status_en (u "Multilateral") then JInt 2
  else JNull.

(** The markers of [extract_status] ([transliterate_geojson.py], 38-61). *)
Definition STATUS_MARKER : pystr := Eval vm_compute in u "Статус:".
Definition BILATERAL_CAP : pystr := Eval vm_compute in u "Двухсторонний".
Definition BILATERAL_LOW : pystr := Eval vm_compute in u "двухсторонний".
Definition MULTILATERAL_CAP : pystr := Eval vm_compute in u "Многосторонний".
Definition MULTILATERAL_LOW : pystr := Eval vm_compute in u "многосторонний".
Definition LESS_THAN : char := Eval vm_compute in uc "<".

(** A character [[^\n<]] accepts. *)
Definition capturable (c : char) : bool :=
  negb (c =? NEWLINE)%N && negb (c =? LESS_THAN)%N.

(** The longest prefix of [s] made of capturable characters: the greedy
    [[^\n<]+] once it has a first character. *)
Fixpoint capture_run (s : pystr) : pystr :=
  match s with
  | [] => []
  | c :: s' => if capturable c then c :: capture_run s' else []
  end.

(** [\s*([^\n<]+)] after the marker: the whitespace run is taken whole
    first ([j] characters) and given back one character at a time until the
    group can take at least one character. *)
Fixpoint backtrack_capture (rest : pystr) (j : nat) : option pystr :=
  match capture_run (skipn j rest) with
  | c :: g => Some (c :: g)
  | [] =>
    match j with
    | O => None
    | S j' => backtrack_capture rest j'
    end
  end.

(** The pattern [Статус:\s*([^\n<]+)] tried at the head of [s]; the
    result is group 1. *)
Definition status_match_here (s : pystr) : option pystr :=
  if starts_with STATUS_MARKER s
  then let rest := skipn (length STATUS_MARKER) s in
       backtrack_capture rest (space_run rest)
  else None.

(** [re.search]: the leftmost position where the pattern matches. *)
Fixpoint status_search (s : pystr) : option pystr :=
  match status_match_here s with
  | Some g => Some g
  | None =>
    match s with
    | [] => None
    | _ :: s' => status_search s'
    end
  end.

(** Lines 54-59, on the stripped group. *)
Definition status_of_text (status_text : pystr) : json :=
  if contains BILATERAL_CAP status_text || contains BILATERAL_LOW status_text
  then JInt 1
  else if contains MULTILATERAL_CAP status_text
          || contains MULTILATERAL_LOW status_text
  then JInt 2
  else JNull.

Definition extract_status (description : json) : json :=
  match description with
  | JStr d =>
    match status_search d with
    | Some g => status_of_text (strip g)
    | None => JNull
    end
  | _ => JNull
  end.

(* ===================================================================== *)
(** * Record normaliser ([extract-ru-borders.py], lines 42-96)            *)
(* ===================================================================== *)

Definition AUTOMOBILE : pystr := Eval vm_compute in u "Automobile checkpoint".
Definition SEPARATOR : pystr := Eval vm_compute in u " / ".

Definition k_name_ru : pystr := Eval vm_compute in u "name_ru".
Definition k_full_name : pystr := Eval vm_compute in u "full_name".
Definition k_name_en : pystr := Eval vm_compute in u "name_en".
Definition k_name : pystr := Eval vm_compute in u "name".
Definition k_status : pystr := Eval vm_compute in u "status".
Definition k_id : pystr := Eval vm_compute in u "id".
Definition k_country : pystr := Eval vm_compute in u "country".
Definition k_latitude : pystr := Eval vm_compute in u "latitude".
Definition k_longitude : pystr := Eval vm_compute in u "longitude".
Definition k_foreign_checkpoint_ru : pystr :=
  Eval vm_compute in u "foreign_checkpoint_ru".
Definition k_foreign_name : pystr := Eval vm_compute in u "foreign_name".
Definition k_checkpoint_type : pystr := Eval vm_compute in u "checkpoint_type".
Definition k_title : pystr := Eval vm_compute in u "title".
Definition k_en : pystr := Eval vm_compute in u "en".
Definition k_ru : pystr := Eval vm_compute in u "ru".
Definition k_foreign_country : pystr := Eval vm_compute in u "foreign_country".
Definition k_iso_code : pystr := Eval vm_compute in u "iso_code".
Definition k_foreign_checkpoint : pystr :=
  Eval vm_compute in u "foreign_checkpoint".
Definition k_condition : pystr := Eval vm_compute in u "condition".
Definition k_federal_districts : pystr :=
  Eval vm_compute in u "federal_districts".
Definition k_checkpoints : pystr := Eval vm_compute in u "checkpoints".
Definition UNKNOWN : pystr := Eval vm_compute in u "unknown".

(** The text an f-string puts for a [str] field; the two fields
    interpolated on line 93 are always strings. *)
Definition fstr (v : json) : pystr :=
  match v with
  | JStr s => s
  | _ => []
  end.

(** Lines 61-70: the name fields. *)
Definition set_names (new_checkpoint : dict) (title_ru : json) : result dict :=
  if py_truthy title_ru then
    let new_checkpoint := dict_set new_checkpoint k_name_ru title_ru in
    full_name <- call_cyrillic_to_latin title_ru ;;
    let new_checkpoint := dict_set new_checkpoint k_full_name (JStr full_name) in
    full_name <- dict_getitem new_checkpoint k_full_name ;;
    let new_checkpoint :=
      dict_set new_checkpoint k_name_en (JStr (compute_name_en (fstr full_name))) in
    name_en <- dict_getitem new_checkpoint k_name_en ;;
    Ok (dict_set new_checkpoint k_name name_en)
  else
    Ok (dict_set new_checkpoint k_name JNull).

(** Lines 84-86: the country code. *)
Definition set_country (new_checkpoint : dict) (checkpoint : json) : result dict :=
  other_country <- py_get checkpoint k_foreign_country JNull ;;
  if py_truthy other_country then
    iso_code <- py_get other_country k_iso_code JNull ;;
    Ok (dict_set new_checkpoint k_country iso_code)
  else Ok new_checkpoint.

(** Lines 89-93: the foreign name and the bilingual composite. *)
Definition set_foreign (new_checkpoint : dict) (checkpoint : json) : result dict :=
  foreign_checkpoint <- py_get checkpoint k_foreign_checkpoint (JObj []) ;;
  foreign_checkpoint_ru <- py_get foreign_checkpoint k_ru JNull ;;
  let new_checkpoint :=
    dict_set new_checkpoint k_foreign_checkpoint_ru foreign_checkpoint_ru in
  foreign_checkpoint_ru <- dict_getitem new_checkpoint k_foreign_checkpoint_ru ;;
  if py_truthy foreign_checkpoint_ru then
    foreign_name <- call_cyrillic_to_latin foreign_checkpoint_ru ;;
    let new_checkpoint := dict_set new_checkpoint k_foreign_name (JStr foreign_name) in
    name_en <- dict_getitem new_checkpoint k_name_en ;;
    if py_truthy name_en then
      foreign_name <- dict_getitem new_checkpoint k_foreign_name ;;
      if py_truthy foreign_name then
        Ok (dict_set new_checkpoint k_name
              (JStr (fstr name_en ++ SEPARATOR ++ fstr foreign_name)))
      else Ok new_checkpoint
    else Ok new_checkpoint
  else Ok new_checkpoint.

(** Line 52: the label the filter of line 57 tests. *)
Definition checkpoint_type_en (checkpoint : json) : result json :=
  t <- py_get checkpoint k_checkpoint_type (JObj []) ;;
  t <- py_get t k_title (JObj []) ;;
  py_get t k_en JNull.

(** Line 53. *)
Definition status_en (checkpoint : json) : result json :=
  s <- py_get checkpoint k_status (JObj []) ;;
  s <- py_get s k_title (JObj []) ;;
  py_get s k_en JNull.

(** Line 54. *)
Definition title_ru (checkpoint : json) : result json :=
  t <- py_get checkpoint k_title (JObj []) ;;
  py_get t k_ru JNull.

(** The body of the innermost loop, lines 52-96: [Some r] when [r] is
    appended to [processed_checkpoints], [None] when nothing is. *)
Definition normalize (checkpoint : json) : result (option dict) :=
  checkpoint_type_en <- checkpoint_type_en checkpoint ;;
  status_en <- status_en checkpoint ;;
  title_ru <- title_ru checkpoint ;;
  if py_eq_str checkpoint_type_en AUTOMOBILE then
    let new_checkpoint : dict := [] in
    new_checkpoint <- set_names new_checkpoint title_ru ;;
    let new_status := classify_status status_en in
    let new_checkpoint := dict_set new_checkpoint k_status new_status in
    id <- py_get checkpoint k_id JNull ;;
    let new_checkpoint := dict_set new_checkpoint k_id id in
    new_checkpoint <- set_country new_checkpoint checkpoint ;;
    latitude <- py_get checkpoint k_latitude JNull ;;
    let new_checkpoint := dict_set new_checkpoint k_latitude latitude in
    longitude <- py_get checkpoint k_longitude JNull ;;
    let new_checkpoint := dict_set new_checkpoint k_longitude longitude in
    new_checkpoint <- set_foreign new_checkpoint checkpoint ;;
    condition <- py_get checkpoint k_condition JNull ;;
    if py_eq_True condition then Ok (Some new_checkpoint) else Ok None
  else Ok None.

(** One pass of the innermost loop over [processed_checkpoints]. *)
Definition checkpoint_step (processed : list dict) (checkpoint : json)
    : result (list dict) :=
  r <- normalize checkpoint ;;
  match r with
  | Some new_checkpoint => Ok (processed ++ [new_checkpoint])
  | None => Ok processed
  end.

Definition region_step (processed : list dict) (region : json)
    : result (list dict) :=
  checkpoints <- py_get region k_checkpoints (JArr []) ;;
  checkpoints <- py_iter checkpoints ;;
  for_each checkpoints processed checkpoint_step.

Definition district_step (data : json) (processed : list dict)
    (district_id : json) : result (list dict) :=
  federal_districts <- py_getitem data (JStr k_federal_districts) ;;
  regions <- py_getitem federal_districts district_id ;;
  regions <- py_iter regions ;;
  for_each regions processed region_step.

(** Lines 42-96: [processed_checkpoints] after the three nested loops. *)
Definition process_checkpoints (data : json) : result (list dict) :=
  federal_districts <- py_get data k_federal_districts (JObj []) ;;
  district_ids <- py_iter federal_districts ;;
  for_each district_ids [] (district_step data).

(* ===================================================================== *)
(** * Grouping (lines 99-104)                                             *)
(* ===================================================================== *)

Definition is_nan (f : spec_float) : bool :=
  match f with
  | S754_nan => true
  | _ => false
  end.

(** Whether two dict keys are the same key: the same object, or equal
    hashes and [==].  Numbers compare by value across [bool], [int] and
    [float].  A NaN equals nothing, but [json.loads] gives every [NaN] of
    a document the one NaN object of the [json] module, which a dict
    finds again by identity. *)
Definition key_eqb (a b : json) : bool :=
  match a, b with
  | JNull, JNull => true
  | JStr s, JStr t => str_eqb s t
  | JBool x, JBool y => Bool.eqb x y
  | JBool x, JInt z | JInt z, JBool x => (z =? (if x then 1 else 0))%Z
  | JInt x, JInt y => (x =? y)%Z
  | JBool x, JFloat f | JFloat f, JBool x => float_eq_Z f (if x then 1 else 0)
  | JInt z, JFloat f | JFloat f, JInt z => float_eq_Z f z
  | JFloat f, JFloat g => SFeqb f g || (is_nan f && is_nan g)
  | _, _ => false
  end.

(** Lists and dicts cannot be dict keys. *)
Definition hashable (v : json) : bool :=
  match v with
  | JArr _ | JObj _ => false
  | _ => true
  end.

(** [region_map]: buckets in the order their keys were first seen. *)
Definition region_map := list (json * list dict).

(** Lines 102-104 for a hashable [region_id]. *)
Fixpoint bucket_append (m : region_map) (region_id : json) (cp : dict)
    : region_map :=
  match m with
  | [] => [(region_id, [cp])]
  | (k, l) :: m' =>
    if key_eqb k region_id then (k, l ++ [cp]) :: m'
    else (k, l) :: bucket_append m' region_id cp
  end.

(** Line 101. *)
Definition region_key (cp : dict) : json := dict_get cp k_country (JStr UNKNOWN).

Definition group_step (m : region_map) (cp : dict) : result region_map :=
  let region_id := region_key cp in
  if hashable region_id then Ok (bucket_append m region_id cp)
  else Raise TypeError.

Definition group_by_region (processed : list dict) : result region_map :=
  for_each processed [] group_step.

(** The whole script: the buckets written one file each, and the flat list
    that is printed. *)
Definition extract_ru_borders (data : json) : result (region_map * list dict) :=
  processed <- process_checkpoints data ;;
  m <- group_by_region processed ;;
  Ok (m, processed).

(* ===================================================================== *)
(** * Geo-emission ([json_to_geojson.py], lines 42-82)                    *)
(* ===================================================================== *)

Definition k_type : pystr := Eval vm_compute in u "type".
Definition k_features : pystr := Eval vm_compute in u "features".
Definition k_geometry : pystr := Eval vm_compute in u "geometry".
Definition k_coordinates : pystr := Eval vm_compute in u "coordinates".
Definition k_properties : pystr := Eval vm_compute in u "properties".
Definition s_FeatureCollection : pystr := Eval vm_compute in u "FeatureCollection".
Definition s_Feature : pystr := Eval vm_compute in u "Feature".
Definition s_Point : pystr := Eval vm_compute in u "Point".

(** The clause [except (ValueError, TypeError)]. *)
Definition caught (e : exn) : bool :=
  match e with
  | ValueError | TypeError => true
  | _ => false
  end.

(** Lines 67-70: every field but the two coordinates, in the item's
    order. *)
Definition build_properties (item : dict) : dict :=
  fold_left
    (fun properties kv =>
       if str_eqb (fst kv) k_latitude || str_eqb (fst kv) k_longitude
       then properties
       else dict_set properties (fst kv) (snd kv))
    item [].

(** Lines 73-80. *)
Definition make_feature (lon lat : spec_float) (properties : dict) : json :=
  JObj [ (k_type, JStr s_Feature);
         (k_geometry, JObj [ (k_type, JStr s_Point);
                             (k_coordinates, JArr [JFloat lon; JFloat lat]) ]);
         (k_properties, JObj properties) ].

(** [item.items()]: only a dict has it. *)
Definition py_items (v : json) : result dict :=
  match v with
  | JObj d => Ok d
  | _ => Raise AttributeError
  end.

Section GeoEmission.

(** The builtin [float] on a [str]: [None] when it raises [ValueError]. *)
Variable float_of_str : pystr -> option spec_float.

(** The builtin [float]: a float is returned as it is, an [int] is
    rounded to the nearest binary64 and raises [OverflowError] when that
    is out of range, a [str] is parsed, anything else is a
    [TypeError]. *)
Definition py_float (v : json) : result spec_float :=
  match v with
  | JFloat f => Ok f
  | JInt z =>
    match binary64_of_Z z with
    | S754_infinity _ => Raise OverflowError
    | f => Ok f
    end
  | JBool b => Ok (if b then float_one else S754_zero false)
  | JStr s =>
    match float_of_str s with
    | Some f => Ok f
    | None => Raise ValueError
    end
  | _ => Raise TypeError
  end.

(** Lines 59-60, the body of the [try]. *)
Definition read_coordinates (item : json) : result (spec_float * spec_float) :=
  v <- py_get item k_latitude (JInt 0) ;;
  lat <- py_float v ;;
  v <- py_get item k_longitude (JInt 0) ;;
  lon <- py_float v ;;
  Ok (lat, lon).

(** One pass of the loop of lines 56-82 over the pair of
    [geojson["features"]] and [skipped]. *)
Definition emit_item (state : list json * nat) (item : json)
    : result (list json * nat) :=
  let (features, skipped) := state in
  match read_coordinates item with
  | Raise e =>
    if caught e then Ok (features, S skipped) else Raise e
  | Ok (lat, lon) =>
    fields <- py_items item ;;
    let properties := build_properties fields in
    Ok (features ++ [make_feature lon lat properties], skipped)
  end.

(** [json_to_geojson] on the parsed input: the document that is written
    and the count of skipped items. *)
Definition json_to_geojson (data : json) : result (json * nat) :=
  match data with
  | JArr items =>
    r <- for_each items ([], O) emit_item ;;
    Ok (JObj [ (k_type, JStr s_FeatureCollection);
               (k_features, JArr (fst r)) ], snd r)
  | _ => Raise SystemExit
  end.

End GeoEmission.

(** ** Decimal literals

    The [float] builtin of CPython 3.11 on a [str]: the digits and the
    whitespace outside ASCII are made ASCII, the C whitespace at the two
    ends is dropped, underscores between digits are dropped, and what is
    left is a sign, digits with an optional fraction and exponent, or
    [inf], [infinity] or [nan]. *)

Definition is_digit (c : char) : bool := ((48 <=? c) && (c <=? 57))%N.

Definition lower (c : char) : char :=
  if ((65 <=? c) && (c <=? 90))%N then (c + 32)%N else c.

(** Reads a run of digits: its value on top of [acc], how many there were,
    and what follows. *)
Fixpoint read_digits (s : pystr) (acc : Z) (n : nat) : Z * nat * pystr :=
  match s with
  | c :: s' =>
    if is_digit c then read_digits s' (acc * 10 + Z.of_N (c - 48))%Z (S n)
    else (acc, n, s)
  | [] => (acc, n, s)
  end.

(** The binary64 nearest to [m * 10 ^ e10], ties to even. *)
Definition binary64_of_decimal (neg : bool) (m e10 : Z) : spec_float :=
  match m with
  | Zpos p =>
    if (0 <=? e10)%Z
    then binary_normalize 53 1024 (cond_Zopp neg (m * 10 ^ e10)) 0 false
    else SFdiv 53 1024 (S754_finite neg p 0)
                       (S754_finite false (Z.to_pos (10 ^ (- e10))) 0)
  | _ => S754_zero neg
  end.

Definition read_sign (s : pystr) : bool * pystr :=
  match s with
  | c :: s' =>
    if (c =? 45)%N then (true, s')
    else if (c =? 43)%N then (false, s')
    else (false, s)
  | [] => (false, s)
  end.

(** The optional exponent part; [None] when what follows the number is
    neither empty nor a well-formed exponent. *)
Definition read_exponent (s : pystr) : option Z :=
  match s with
  | [] => Some 0%Z
  | c :: s' =>
    if (lower c =? 101)%N then
      let (neg, s'') := read_sign s' in
      match read_digits s'' 0 0 with
      | (e, S _, []) => Some (cond_Zopp neg e)
      | _ => None
      end
    else None
  end.

(** The zeros of the decimal digits outside ASCII (Unicode 14.0); the
    nine digits that follow each are the digits 1 to 9. *)
Definition DECIMAL_ZEROS : list char :=
  [ 1632; 1776; 1984; 2406; 2534; 2662; 2790; 2918; 3046; 3174; 3302; 3430;
    3558; 3664; 3792; 3872; 4160; 4240; 6112; 6160; 6470; 6608; 6784; 6800;
    6992; 7088; 7232; 7248; 42528; 43216; 43264; 43472; 43504; 43600; 44016;
    65296; 66720; 68912; 69734; 69872; 69942; 70096; 70384; 70736; 70864;
    71248; 71360; 71472; 71904; 72016; 72784; 73040; 73120; 92768; 92864;
    93008; 120782; 120792; 120802; 120812; 120822; 123200; 123632; 125264;
    130032 ]%N.

(** [Py_UNICODE_TODECIMAL] outside ASCII. *)
Fixpoint to_decimal (zeros : list char) (c : char) : option N :=
  match zeros with
  | [] => None
  | z :: zeros' =>
    if ((z <=? c) && (c <? z + 10))%N then Some (c - z)%N
    else to_decimal zeros' c
  end.

(** [_PyUnicode_TransformDecimalAndSpaceToASCII]: outside ASCII a
    whitespace becomes a space and a decimal digit its ASCII digit; at any
    other character the text is cut and ended with a [?]. *)
Fixpoint transform_decimal_and_space (s : pystr) : pystr :=
  match s with
  | [] => []
  | c :: s' =>
    if (c <? 128)%N then c :: transform_decimal_and_space s'
    else if is_space c then 32%N :: transform_decimal_and_space s'
    else match to_decimal DECIMAL_ZEROS c with
         | Some d => (48 + d)%N :: transform_decimal_and_space s'
         | None => [63%N]
         end
  end.

(** [Py_ISSPACE]: the whitespace of the C locale. *)
Definition is_c_space (c : char) : bool :=
  ((9 <=? c) && (c <=? 13) || (c =? 32))%N.

Fixpoint c_lstrip (s : pystr) : pystr :=
  match s with
  | [] => []
  | c :: s' => if is_c_space c then c_lstrip s' else s
  end.

Definition c_strip (s : pystr) : pystr := rev (c_lstrip (rev (c_lstrip s))).

(** The loop of [_Py_string_to_number_with_underscores]: an underscore is
    dropped when it stands between two digits and is an error anywhere
    else.  [prev] is the character before [s]. *)
Fixpoint drop_underscores (prev : char) (s : pystr) : option pystr :=
  match s with
  | [] => if (prev =? 95)%N then None else Some []
  | c :: s' =>
    if (c =? 95)%N
    then if is_digit prev then drop_underscores c s' else None
    else if (prev =? 95)%N && negb (is_digit c) then None
    else option_map (cons c) (drop_underscores c s')
  end.

(** [PyOS_string_to_double] on the whole of [s]. *)
Definition string_to_double (s0 : pystr) : option spec_float :=
  let (neg, s) := read_sign s0 in
  let low := map lower s in
  if str_eqb low (u "inf") || str_eqb low (u "infinity")
  then Some (S754_infinity neg)
  else if str_eqb low (u "nan") then Some S754_nan
  else
    let '(ip, ni, s1) := read_digits s 0 0 in
    let '(m, nf, s2) :=
      match s1 with
      | c :: s1' => if (c =? 46)%N then read_digits s1' ip 0 else (ip, O, s1)
      | [] => (ip, O, s1)
      end in
    match (ni + nf)%nat with
    | O => None
    | S _ =>
      match read_exponent s2 with
      | Some e => Some (binary64_of_decimal neg m (e - Z.of_nat nf))
      | None => None
      end
    end.

(** [float(text)] for a [str]; [None] stands for [ValueError]. *)
Definition decimal_float_of_str (text : pystr) : option spec_float :=
  match drop_underscores 0%N (c_strip (transform_decimal_and_space text)) with
  | Some s => string_to_double s
  | None => None
  end.
(* ===================================================================== *)
(** * Sample documents                                                    *)
(* ===================================================================== *)

(** The input document with one district, one region and the given
    checkpoints. *)
Definition document (checkpoints : list json) : json :=
  JObj [ (k_federal_districts,
          JObj [ (u "1", JArr [ JObj [ (k_checkpoints, JArr checkpoints) ] ]) ]) ].

(** The [checkpoint_type] field of an automobile checkpoint. *)
Definition automobile_type : json :=
  JObj [ (k_title, JObj [ (k_en, JStr AUTOMOBILE) ]) ].

(** The checkpoint of the end-to-end scenario. *)
Definition zabaykalsk : json :=
  JObj [ (k_id, JInt 7);
         (k_title, JObj [ (k_ru, JStr (u "Забайкальск (авто)")) ]);
         (k_checkpoint_type, automobile_type);
         (k_status, JObj [ (k_title, JObj [ (k_en, JStr (u "Bilateral")) ]) ]);
         (k_foreign_country, JObj [ (k_iso_code, JStr (u "CN")) ]);
         (k_foreign_checkpoint, JObj [ (k_ru, JStr (u "Маньчжурия")) ]);
         (k_latitude, JStr (u "49.65"));
         (k_longitude, JStr (u "117.33"));
         (k_condition, JBool true) ].

(** An automobile checkpoint with no title but a foreign checkpoint
    name. *)
Definition untitled_with_foreign_name : json :=
  JObj [ (k_id, JInt 8);
         (k_checkpoint_type, automobile_type);
         (k_foreign_checkpoint, JObj [ (k_ru, JStr (u "Маньчжурия")) ]);
         (k_condition, JBool true) ].

(** An automobile checkpoint with no title and no foreign name. *)
Definition untitled : json :=
  JObj [ (k_id, JInt 9);
         (k_checkpoint_type, automobile_type);
         (k_condition, JBool true) ].

(** An automobile checkpoint whose foreign country has a null ISO code. *)
Definition null_iso_code : json :=
  JObj [ (k_id, JInt 10);
         (k_title, JObj [ (k_ru, JStr (u "Чита")) ]);
         (k_checkpoint_type, automobile_type);
         (k_foreign_country, JObj [ (k_iso_code, JNull) ]);
         (k_condition, JBool true) ].

(** An automobile checkpoint with no foreign country. *)
Definition no_foreign_country : json :=
  JObj [ (k_id, JInt 11);
         (k_title, JObj [ (k_ru, JStr (u "Чита")) ]);
         (k_checkpoint_type, automobile_type);
         (k_condition, JBool true) ].

(** An automobile checkpoint whose [condition] is the number 1. *)
Definition condition_one : json :=
  JObj [ (k_id, JInt 12);
         (k_title, JObj [ (k_ru, JStr (u "Чита")) ]);
         (k_checkpoint_type, automobile_type);
         (k_condition, JInt 1) ].

(** A railway checkpoint, and an automobile one that is closed. *)
Definition railway : json :=
  JObj [ (k_id, JInt 13);
         (k_title, JObj [ (k_ru, JStr (u "Чита")) ]);
         (k_checkpoint_type,
          JObj [ (k_title, JObj [ (k_en, JStr (u "Railway checkpoint")) ]) ]);
         (k_condition, JBool true) ].

Definition closed : json :=
  JObj [ (k_id, JInt 14);
         (k_title, JObj [ (k_ru, JStr (u "Чита")) ]);
         (k_checkpoint_type, automobile_type);
         (k_condition, JBool false) ].

(* ===================================================================== *)
(** * Vocabulary for the statements about the pipeline                    *)
(* ===================================================================== *)

(** [cp] is one of the checkpoints the loops of lines 45-51 reach in
    [data]: a member of the [checkpoints] of a region of a district. *)
Definition visited (data cp : json) : Prop :=
  exists fd ids district_id fd' regions rs region cpsv cps,
    py_get data k_federal_districts (JObj []) = Ok fd /\
    py_iter fd = Ok ids /\ In district_id ids /\
    py_getitem data (JStr k_federal_districts) = Ok fd' /\
    py_getitem fd' district_id = Ok regions /\
    py_iter regions = Ok rs /\ In region rs /\
    py_get region k_checkpoints (JArr []) = Ok cpsv /\
    py_iter cpsv = Ok cps /\ In cp cps.

(** [cp] passes both filters: its type label is the string "Automobile
    checkpoint" and its [condition] equals [True], which the boolean true
    and the numbers of value 1 do. *)
Definition admitted (cp : json) : Prop :=
  exists c,
    checkpoint_type_en cp = Ok (JStr AUTOMOBILE) /\
    py_get cp k_condition JNull = Ok c /\
    (c = JBool true \/ c = JInt 1 \/
     exists f, c = JFloat f /\ SFeqb f float_one = true).

(** The records the sample checkpoints are normalised to. *)
Definition record_of (cp : json) : dict :=
  match normalize cp with
  | Ok (Some r) => r
  | _ => []
  end.

Definition zabaykalsk_record : dict := Eval vm_compute in record_of zabaykalsk.
Definition condition_one_record : dict := Eval vm_compute in record_of condition_one.
Definition null_iso_code_record : dict := Eval vm_compute in record_of null_iso_code.
Definition no_foreign_country_record : dict :=
  Eval vm_compute in record_of no_foreign_country.
Definition untitled_record : dict := Eval vm_compute in record_of untitled.

(** Line 89: the foreign checkpoint's local-language name. *)
Definition foreign_checkpoint_ru (checkpoint : json) : result json :=
  foreign_checkpoint <- py_get checkpoint k_foreign_checkpoint (JObj []) ;;
  py_get foreign_checkpoint k_ru JNull.

(** ** Vocabulary for the statements about [extract_status] *)

(** The group [[^\n<]+] cannot go on into [rest]: the text ends there, or a
    line break or a [<] comes next. *)
Definition ends_capture (rest : pystr) : bool :=
  match rest with
  | [] => true
  | c :: _ => negb (capturable c)
  end.

(** [text] begins with a character that is not a whitespace. *)
Definition starts_with_text (text : pystr) : bool :=
  match text with
  | [] => false
  | c :: _ => negb (is_space c)
  end.

(** The lowercase of a Russian capital letter; other characters are left as
    they are. *)
Definition cyr_lower (c : char) : char :=
  if ((1040 <=? c) && (c <=? 1071))%N then (c + 32)%N else c.

(** ** Vocabulary for the statements about the parenthetical strip *)

(** [s] is empty or begins with a character that is not a whitespace. *)
Definition no_leading_space (s : pystr) : bool :=
  match s with
  | [] => true
  | c :: _ => negb (is_space c)
  end.

(** [s] is empty or ends with a character that is not a whitespace. *)
Definition no_trailing_space (s : pystr) : bool := no_leading_space (rev s).

(** A checkpoint whose title has two parenthetical groups. *)
Definition two_groups : json :=
  JObj [ (k_id, JInt 15);
         (k_title, JObj [ (k_ru, JStr (u "Пост (авто) Южный (грузовой)")) ]);
         (k_checkpoint_type, automobile_type);
         (k_condition, JBool true) ].

Definition two_groups_record : dict := Eval vm_compute in record_of two_groups.

(** ** Vocabulary for the statements about the grouping *)

(** A key that is a string or [None], as an ISO code is. *)
Definition plain_key (v : json) : bool :=
  match v with
  | JStr _ | JNull => true
  | _ => false
  end.

(** The records of [processed] whose key is [k], in their order. *)
Definition records_of_key (k : json) (processed : list dict) : list dict :=
  filter (fun r => key_eqb k (region_key r)) processed.

(** ** Vocabulary for the statements about the geo-emission *)

(** The field [kv] is not a coordinate. *)
Definition is_property (kv : pystr * json) : bool :=
  negb (str_eqb (fst kv) k_latitude || str_eqb (fst kv) k_longitude).

(** ** Vocabulary for the rules of the name and of the status *)

(** [m] is [s] without the whitespace at its two ends. *)
Definition trimmed (s m : pystr) : Prop :=
  exists a b,
    s = a ++ m ++ b /\ forallb is_space a = true /\ forallb is_space b = true /\
    no_leading_space m = true /\ no_trailing_space m = true.

(** A parenthetical group begins at the head of [s]: whitespace, a [(],
    and a [)] after it with no line break in between. *)
Definition group_at (s : pystr) : Prop :=
  exists ws inner tail,
    s = ws ++ LPAREN :: inner ++ RPAREN :: tail /\
    forallb is_space ws = true /\ has_char NEWLINE inner = false.

(** [kept] is [s] read from left to right with every parenthetical group
    left out: a group goes from the whitespace before a [(] to the
    whitespace after the first [)] that follows it on the same line, and
    a character at which no group begins is kept. *)
Inductive groups_deleted : pystr -> pystr -> Prop :=
| gd_end : groups_deleted [] []
| gd_group (ws1 inner ws2 rest kept : pystr) :
    forallb is_space ws1 = true ->
    has_char RPAREN inner = false -> has_char NEWLINE inner = false ->
    forallb is_space ws2 = true -> no_leading_space rest = true ->
    groups_deleted rest kept ->
    groups_deleted (ws1 ++ LPAREN :: inner ++ RPAREN :: ws2 ++ rest) kept
| gd_keep (c : char) (s kept : pystr) :
    ~ group_at (c :: s) ->
    groups_deleted s kept ->
    groups_deleted (c :: s) (c :: kept).

(** The text after a marker has nothing to capture: line breaks only, and
    then the end of the description or a [<]. *)
Fixpoint dead_end (r : pystr) : bool :=
  match r with
  | [] => true
  | c :: r' => if (c =? NEWLINE)%N then dead_end r' else (c =? LESS_THAN)%N
  end.

(** Every occurrence of the marker that begins at one of the first [n]
    positions of [d] is followed by a dead end. *)
Fixpoint dead_before (n : nat) (d : pystr) : bool :=
  match n, d with
  | S n', _ :: d' =>
    (if starts_with STATUS_MARKER d
     then dead_end (skipn (length STATUS_MARKER) d) else true)
    && dead_before n' d'
  | _, _ => true
  end.
(** Sample items of the flat list given to [json_to_geojson]. *)
Definition item_zabaykalsk : json :=
  JObj [ (k_name, JStr (u "Zabaykalsk")); (k_status, JInt 1);
         (k_latitude, JStr (u "51.5")); (k_longitude, JStr (u "113.0")) ].

(** An item whose latitude is the integer 10^400. *)
Definition item_huge_latitude : json :=
  JObj [ (k_name, JStr (u "Zabaykalsk"));
         (k_latitude, JInt (10 ^ 400)); (k_longitude, JStr (u "113.0")) ].

(** An item with no latitude and a null longitude. *)
Definition item_null_longitude : json :=
  JObj [ (k_name, JStr (u "Zabaykalsk")); (k_longitude, JNull) ].

(** An item with no latitude. *)
Definition item_no_latitude : json :=
  JObj [ (k_name, JStr (u "Zabaykalsk")); (k_longitude, JStr (u "113.0")) ].

(** The floats 51.5 and 113.0. *)
Definition float_51_5 : spec_float := S754_finite false 7247980650299392 (-47).
Definition float_113 : spec_float := Eval vm_compute in binary64_of_Z 113.

(* ===================================================================== *)
(** * Further vocabulary for the transliteration engine                   *)
(* ===================================================================== *)

(** No occurrence of [p] in [s] is at the start of a word, where the first
    character of [s] is at a word start exactly if [boundary]: no
    substitution [(^|\s)p] applies to [s]. *)
Fixpoint initial_free (p : char) (boundary : bool) (s : pystr) : bool :=
  match s with
  | [] => true
  | c :: s' => negb (boundary && (p =? c)%N) && initial_free p (is_space c) s'
  end.

(** The letters [A]-[Z] and [a]-[z]. *)
Definition is_ascii_letter (c : char) : bool :=
  ((65 <=? c) && (c <=? 90) || (97 <=? c) && (c <=? 122))%N.

(* ===================================================================== *)
(** * The checkpoints of a document of the expected shape                 *)
(* ===================================================================== *)

(** The checkpoints of a region: an object whose [checkpoints], when it
    has any, is an array. *)
Definition region_checkpoints (region : json) : option (list json) :=
  match region with
  | JObj rg =>
    match dict_lookup rg k_checkpoints with
    | Some (JArr cps) => Some cps
    | None => Some []
    | _ => None
    end
  | _ => None
  end.

Fixpoint regions_checkpoints (regions : list json) : option (list json) :=
  match regions with
  | [] => Some []
  | region :: rest =>
    match region_checkpoints region, regions_checkpoints rest with
    | Some a, Some b => Some (a ++ b)
    | _, _ => None
    end
  end.

(** The checkpoints of the districts: each district is an array of
    regions. *)
Fixpoint districts_checkpoints (fd : dict) : option (list json) :=
  match fd with
  | [] => Some []
  | (_, JArr regions) :: rest =>
    match regions_checkpoints regions, districts_checkpoints rest with
    | Some a, Some b => Some (a ++ b)
    | _, _ => None
    end
  | _ => None
  end.

(** No key occurs twice, as in every dict. *)
Fixpoint unique_keys (d : dict) : bool :=
  match d with
  | [] => true
  | (k, _) :: d' => negb (existsb (fun kv => str_eqb (fst kv) k) d') && unique_keys d'
  end.

(** The checkpoints of a document in document order, when the document is
    an object whose [federal_districts], if present, is an object of
    districts of the shape above. *)
Definition document_checkpoints (data : json) : option (list json) :=
  match data with
  | JObj d =>
    match dict_lookup d k_federal_districts with
    | Some (JObj fd) => if unique_keys fd then districts_checkpoints fd else None
    | None => Some []
    | _ => None
    end
  | _ => None
  end.

(** What one checkpoint adds to the flat list. *)
Definition emitted (checkpoint : json) : list dict :=
  match normalize checkpoint with
  | Ok (Some r) => [r]
  | _ => []
  end.

(** [normalize] raises nothing on [checkpoint]. *)
Definition normalizes (checkpoint : json) : bool :=
  match normalize checkpoint with
  | Ok _ => true
  | Raise _ => false
  end.

(** [g] occurs in [s] as a run of consecutive characters. *)
Definition infix (g s : pystr) : Prop := exists a b, s = a ++ g ++ b.

(* ===================================================================== *)
(** * The second engine ([transliterate_geojson.py], lines 9-36)          *)
(* ===================================================================== *)

(** [mapping]: the Russian letters and the Kazakh ones, in the source's
    order. *)
Definition mapping : list (char * pystr) :=
  Eval vm_compute in
  map (fun kv => (uc (fst kv), u (snd kv)))
  [ ("А", "A"); ("Б", "B"); ("В", "V"); ("Г", "G"); ("Д", "D"); ("Е", "E");
    ("Ё", "Yo"); ("Ж", "Zh"); ("З", "Z"); ("И", "I"); ("Й", "Y"); ("К", "K");
    ("Л", "L"); ("М", "M"); ("Н", "N"); ("О", "O"); ("П", "P"); ("Р", "R");
    ("С", "S"); ("Т", "T"); ("У", "U"); ("Ф", "F"); ("Х", "Kh"); ("Ц", "Ts");
    ("Ч", "Ch"); ("Ш", "Sh"); ("Щ", "Shch"); ("Ъ", ""); ("Ы", "Y"); ("Ь", "");
    ("Э", "E"); ("Ю", "Yu"); ("Я", "Ya");
    ("а", "a"); ("б", "b"); ("в", "v"); ("г", "g"); ("д", "d"); ("е", "e");
    ("ё", "yo"); ("ж", "zh"); ("з", "z"); ("и", "i"); ("й", "y"); ("к", "k");
    ("л", "l"); ("м", "m"); ("н", "n"); ("о", "o"); ("п", "p"); ("р", "r");
    ("с", "s"); ("т", "t"); ("у", "u"); ("ф", "f"); ("х", "kh"); ("ц", "ts");
    ("ч", "ch"); ("ш", "sh"); ("щ", "shch"); ("ъ", ""); ("ы", "y"); ("ь", "");
    ("э", "e"); ("ю", "yu"); ("я", "ya");
    ("Ә", "A"); ("ә", "a"); ("Ө", "O"); ("ө", "o"); ("Ұ", "U"); ("ұ", "u");
    ("Ү", "U"); ("ү", "u"); ("Қ", "Q"); ("қ", "q"); ("Ғ", "Gh"); ("ғ", "gh");
    ("Ң", "Ng"); ("ң", "ng"); ("Һ", "H"); ("һ", "h"); ("І", "I"); ("і", "i") ]%string.

(** The quote characters of line 25, in the source's order: the curly
    double quotes, the guillemets, the straight double and single quotes,
    the curly single quotes and the backtick. *)
Definition QUOTES : list char :=
  [8220; 8221; 171; 187; 34; 39; 8217; 8216; 96]%N.

(** Lines 25-26: [for ch in [...]: text = text.replace(ch, '')]. *)
Definition remove_quotes (text : pystr) : pystr :=
  fold_left (fun t ch => remove_char ch t) QUOTES text.

(** [re.sub(r'\s+', ' ', s)]: every run of whitespace becomes one space.
    [in_run] tells whether the previous character was a whitespace. *)
Fixpoint collapse_spaces (in_run : bool) (s : pystr) : pystr :=
  match s with
  | [] => []
  | c :: s' =>
    if is_space c
    then if in_run then collapse_spaces true s' else 32%N :: collapse_spaces true s'
    else c :: collapse_spaces false s'
  end.

Definition ascii_upper (c : char) : char :=
  if ((97 <=? c) && (c <=? 122))%N then (c - 32)%N else c.

Definition is_ascii (c : char) : bool := (c <? 128)%N.

Section Transliterate.

(** The case tables of the Unicode database that [str.title] reads: whether
    a character is cased, its titlecase mapping, and the lowercase mapping
    of the character at a position of a text (which looks at the
    neighbours of a capital sigma). *)
Variable is_cased : char -> bool.
Variable to_title : char -> pystr.
Variable lower_at : pystr -> nat -> char -> pystr.

(** [str.title]: a character that follows a cased one is lowercased, any
    other is titlecased. *)
Fixpoint do_title (text : pystr) (i : nat) (previous_is_cased : bool)
    (s : pystr) : pystr :=
  match s with
  | [] => []
  | c :: s' =>
    (if previous_is_cased then lower_at text i c else to_title c)
      ++ do_title text (S i) (is_cased c) s'
  end.

Definition title (text : pystr) : pystr := do_title text 0 false text.

(** Lines 24-36 on a [str]. *)
Definition transliterate_str (text : pystr) : pystr :=
  let text := remove_quotes text in
  let result := map_chars mapping text in
  let result := strip (collapse_spaces false result) in
  let result := title result in
  result.

(** [transliterate]: a value that is not a [str] is returned as it is. *)
Definition transliterate (text : json) : json :=
  match text with
  | JStr s => JStr (transliterate_str s)
  | _ => text
  end.

End Transliterate.

(** The case tables restricted to ASCII, where only the letters are cased;
    every other character is taken as uncased and its own mapping. *)
Definition ascii_is_cased (c : char) : bool := is_ascii_letter c.
Definition ascii_to_title (c : char) : pystr := [ascii_upper c].
Definition ascii_lower_at (text : pystr) (i : nat) (c : char) : pystr := [lower c].

(** A text is in title case: a letter after a letter is a small one, a
    letter after anything else a capital. *)
Fixpoint title_cased (previous_is_letter : bool) (s : pystr) : bool :=
  match s with
  | [] => true
  | c :: s' =>
    (if previous_is_letter then (lower c =? c)%N else (ascii_upper c =? c)%N)
    && title_cased (is_ascii_letter c) s'
  end.

(** Every whitespace is a plain space and no two are adjacent;
    [after_space] tells whether a space precedes the text. *)
Fixpoint collapsed (after_space : bool) (s : pystr) : bool :=
  match s with
  | [] => true
  | c :: s' =>
    (if is_space c then (c =? 32)%N && negb after_space else true)
    && collapsed (is_space c) s'
  end.

Definition is_quote (c : char) : bool := existsb (N.eqb c) QUOTES.

(** A character the second engine turns into ASCII or drops: a quote, a
    letter of [mapping], a whitespace or an ASCII character. *)
Definition plain_input (c : char) : bool :=
  is_quote c || in_table mapping c || is_space c || is_ascii c.

(** The case tables agree with the Unicode database on ASCII, where the
    cased characters are the letters. *)
Definition ascii_tables (is_cased : char -> bool) (to_title : char -> pystr)
    (lower_at : pystr -> nat -> char -> pystr) : Prop :=
  forall c : char, is_ascii c = true ->
    and (is_cased c = is_ascii_letter c)
      (and (to_title c = [ascii_upper c])
           (forall (text : pystr) (i : nat), lower_at text i c = [lower c])).

(** [str.title] as the ASCII tables make it, one character for each. *)
Fixpoint ascii_title (previous_is_letter : bool) (s : pystr) : pystr :=
  match s with
  | [] => []
  | c :: s' =>
    (if previous_is_letter then lower c else ascii_upper c)
      :: ascii_title (is_ascii_letter c) s'
  end.

(** An ASCII character that is not one of the quotes. *)
Definition clean (c : char) : bool := is_ascii c && negb (is_quote c).

(** What the case mappings keep of an ASCII character. *)
Definition case_facts (c : char) : bool :=
  Bool.eqb (is_space (lower c)) (is_space c)
  && Bool.eqb (is_space (ascii_upper c)) (is_space c)
  && Bool.eqb (lower c =? 32)%N (c =? 32)%N
  && Bool.eqb (ascii_upper c =? 32)%N (c =? 32)%N
  && Bool.eqb (clean (lower c)) (clean c)
  && Bool.eqb (clean (ascii_upper c)) (clean c)
  && Bool.eqb (is_ascii_letter (lower c)) (is_ascii_letter c)
  && Bool.eqb (is_ascii_letter (ascii_upper c)) (is_ascii_letter c)
  && (lower (lower c) =? lower c)%N
  && (ascii_upper (ascii_upper c) =? ascii_upper c)%N.

(** The shape of a transliterated name. *)
Definition normal_form (s : pystr) : Prop :=
  forallb clean s = true /\ collapsed false s = true /\
  no_leading_space s = true /\ no_trailing_space s = true /\
  title_cased false s = true.
(* ===================================================================== *)
(** * More of Python's object protocol                                    *)
(* ===================================================================== *)

(** [k in d] for a dict. *)
Definition dict_has (d : dict) (k : pystr) : bool :=
  match dict_lookup d k with
  | Some _ => true
  | None => false
  end.

(** [k in v] for a string [k]: a key of a dict, an element of a list, a
    substring of a string; the other values are not containers. *)
Definition py_contains (k : pystr) (v : json) : result bool :=
  match v with
  | JObj d => Ok (dict_has d k)
  | JArr l => Ok (existsb (fun x => py_eq_str x k) l)
  | JStr s => Ok (contains k s)
  | _ => Raise TypeError
  end.

(** [v[k] = x] for a string [k]: only a dict takes it. *)
Definition py_setitem (v : json) (k : pystr) (x : json) : result json :=
  match v with
  | JObj d => Ok (JObj (dict_set d k x))
  | _ => Raise TypeError
  end.

(** [len(v)] *)
Definition py_len (v : json) : result nat :=
  match v with
  | JStr s => Ok (length s)
  | JArr l => Ok (length l)
  | JObj d => Ok (length d)
  | _ => Raise TypeError
  end.

(** [a or b] *)
Definition py_or (a b : json) : json := if py_truthy a then a else b.
(* ===================================================================== *)
(** * The feature loop ([transliterate_geojson.py], lines 71-101)         *)
(* ===================================================================== *)

Definition k_Name : pystr := Eval vm_compute in u "Name".
Definition k_NAME : pystr := Eval vm_compute in u "NAME".
Definition k_label : pystr := Eval vm_compute in u "label".
Definition k_description : pystr := Eval vm_compute in u "description".
Definition k_desc : pystr := Eval vm_compute in u "desc".

Definition name_keys : list pystr := [k_name; k_Name; k_NAME; k_title; k_label].
Definition fallback_keys : list pystr := [k_description; k_desc].

(** The test of lines 80 and 88:
    [k in props and isinstance(props[k], str) and props[k].strip()]. *)
Definition holds_text (props : json) (k : pystr) : result bool :=
  has <- py_contains k props ;;
  if has
  then v <- py_getitem props (JStr k) ;;
       match v with
       | JStr s => Ok (py_truthy (JStr (strip s)))
       | _ => Ok false
       end
  else Ok false.

Section FeatureLoop.

Variable is_cased : char -> bool.
Variable to_title : char -> pystr.
Variable lower_at : pystr -> nat -> char -> pystr.

Definition translit (v : json) : json :=
  transliterate is_cased to_title lower_at v.

(** Lines 79-84: one name key, over [props], [modified] and [applied]. *)
Definition name_step (state : json * Z * bool) (nk : pystr)
    : result (json * Z * bool) :=
  let '(props, modified, applied) := state in
  c <- holds_text props nk ;;
  if c
  then old <- py_getitem props (JStr nk) ;;
       props' <- py_setitem props nk (translit old) ;;
       Ok (props', (modified + 1)%Z, true)
  else Ok (props, modified, applied).

(** Lines 87-91: the first of the keys that holds a text gives the name,
    and the loop ends there. *)
Fixpoint fallback (props : json) (modified : Z) (fks : list pystr)
    : result (json * Z) :=
  match fks with
  | [] => Ok (props, modified)
  | fk :: fks' =>
    c <- holds_text props fk ;;
    if c
    then v <- py_getitem props (JStr fk) ;;
         props' <- py_setitem props k_name (translit v) ;;
         Ok (props', (modified + 1)%Z)
    else fallback props modified fks'
  end.

(** Lines 94-99. *)
Definition status_step (props : json) (status_extracted : Z)
    : result (json * Z) :=
  d <- py_get props k_description (JStr []) ;;
  description <- (if py_truthy d then Ok d else py_get props k_desc (JStr [])) ;;
  if py_truthy description
  then match extract_status description with
       | JNull => Ok (props, status_extracted)
       | status_value =>
         props' <- py_setitem props k_status status_value ;;
         Ok (props', (status_extracted + 1)%Z)
       end
  else Ok (props, status_extracted).

(** Lines 77-101 for one feature: the feature as the loop leaves it and
    the two counters. *)
Definition feature_step (state : list json * Z * Z) (feat : json)
    : result (list json * Z * Z) :=
  let '(features, modified, status_extracted) := state in
  p <- py_get feat k_properties (JObj []) ;;
  let props := py_or p (JObj []) in
  r <- for_each name_keys (props, modified, false) name_step ;;
  let '(props, modified, applied) := r in
  r <- (if applied then Ok (props, modified)
        else fallback props modified fallback_keys) ;;
  let '(props, modified) := r in
  r <- status_step props status_extracted ;;
  let '(props, status_extracted) := r in
  feat' <- py_setitem feat k_properties props ;;
  Ok (features ++ [feat'], modified, status_extracted).

(** Lines 71-101 on the parsed document: the document that is written,
    [modified] and [status_extracted].  The features are changed in place,
    so the document holds the new ones when it has a list of them; the
    default of [geo.get] is not stored. *)
Definition main (geo : json) : result (json * Z * Z) :=
  features <- py_get geo k_features (JArr []) ;;
  feats <- py_iter features ;;
  r <- for_each feats ([], 0%Z, 0%Z) feature_step ;;
  let '(feats', modified, status_extracted) := r in
  let geo' :=
    match geo, features with
    | JObj g, JArr _ =>
      if dict_has g k_features then JObj (dict_set g k_features (JArr feats'))
      else geo
    | _, _ => geo
    end in
  Ok (geo', modified, status_extracted).

End FeatureLoop.
(* ===================================================================== *)
(** * The validator ([validate-geojson.py], lines 21-92)                  *)
(* ===================================================================== *)

Definition GEOJSON_TYPES : list pystr :=
  Eval vm_compute in
  map u [ "FeatureCollection"; "Feature"; "GeometryCollection"; "Point";
          "LineString"; "Polygon"; "MultiPoint"; "MultiLineString";
          "MultiPolygon" ]%string.

(** The messages of [errors], with the values they quote. *)
Inductive verror : Type :=
| MissingType
| InvalidType (t : json)
| MissingFeatures
| FeatureMissingType (i : nat)
| FeatureInvalidType (i : nat) (t : json)
| FeatureMissingGeometry (i : nat)
| GeometryMissingType (i : nat)
| GeometryMissingCoordinates (i : nat)
| CoordinatesNotArray (i : nat)
| FeatureMissingProperties (i : nat)
| MissingGeometry
| MissingProperties
| ErrorReading (e : exn).

(** A stretch of the [try] block: from the errors so far to the errors
    after it, and the exception if one ended it. *)
Definition checker : Type := list verror -> list verror * option exn.

Definition done : checker := fun errors => (errors, None).

(** [errors.append(e)] *)
Definition report (e : verror) : checker := fun errors => (errors ++ [e], None).

Definition and_then (a b : checker) : checker :=
  fun errors =>
    match a errors with
    | (errors', None) => b errors'
    | stopped => stopped
    end.

(** Evaluates an expression that may raise. *)
Definition evaluate {A : Type} (m : result A) (k : A -> checker) : checker :=
  fun errors =>
    match m with
    | Ok a => k a errors
    | Raise e => (errors, Some e)
    end.

Notation "a >> b" := (and_then a b) (at level 62, right associativity).

(** Lines 32-40. *)
Definition check_type (data : json) : checker :=
  evaluate (py_contains k_type data) (fun has =>
  if negb has then report MissingType
  else evaluate (py_getitem data (JStr k_type)) (fun t =>
       if negb (existsb (py_eq_str t) GEOJSON_TYPES)
       then report (InvalidType t) else done)).

(** Lines 52-55. *)
Definition check_feature_type (i : nat) (feature : json) : checker :=
  evaluate (py_contains k_type feature) (fun has =>
  if negb has then report (FeatureMissingType i)
  else evaluate (py_getitem feature (JStr k_type)) (fun t =>
       if negb (py_eq_str t s_Feature)
       then report (FeatureInvalidType i t) else done)).

(** Lines 57-70. *)
Definition check_geometry (i : nat) (feature : json) : checker :=
  evaluate (py_contains k_geometry feature) (fun has =>
  if negb has then report (FeatureMissingGeometry i)
  else evaluate (py_getitem feature (JStr k_geometry)) (fun geometry =>
       match geometry with
       | JNull => done
       | _ =>
         evaluate (py_contains k_type geometry) (fun has_type =>
         if negb has_type then report (GeometryMissingType i)
         else evaluate (py_contains k_coordinates geometry) (fun has_coordinates =>
              if negb has_coordinates then report (GeometryMissingCoordinates i)
              else evaluate (py_getitem geometry (JStr k_coordinates)) (fun c =>
                   match c with
                   | JArr _ => done
                   | _ => report (CoordinatesNotArray i)
                   end)))
       end)).

(** Lines 72-73. *)
Definition check_properties (i : nat) (feature : json) : checker :=
  evaluate (py_contains k_properties feature) (fun has =>
  if negb has then report (FeatureMissingProperties i) else done).

Definition check_feature (i : nat) (feature : json) : checker :=
  check_feature_type i feature >> check_geometry i feature
  >> check_properties i feature.

(** The loop of line 51, from index [i] on. *)
Fixpoint check_features (i : nat) (features : list json) : checker :=
  match features with
  | [] => done
  | feature :: features' =>
    check_feature i feature >> check_features (S i) features'
  end.

(** Lines 44-76; line 48 takes [len(features)] before the loop. *)
Definition check_collection (data : json) : checker :=
  evaluate (py_contains k_features data) (fun has =>
  if negb has then report MissingFeatures
  else evaluate (py_getitem data (JStr k_features)) (fun features =>
       evaluate (py_len features) (fun _ =>
       evaluate (py_iter features) (fun fs => check_features 0 fs)))).

(** Lines 80-83. *)
Definition check_single (data : json) : checker :=
  evaluate (py_contains k_geometry data) (fun has =>
    if negb has then report MissingGeometry else done)
  >> evaluate (py_contains k_properties data) (fun has =>
    if negb has then report MissingProperties else done).

(** The [try] block from line 32 on. *)
Definition checks (data : json) : checker :=
  check_type data
  >> evaluate (py_get data k_type JNull) (fun t =>
     if py_eq_str t s_FeatureCollection then check_collection data
     else evaluate (py_get data k_type JNull) (fun t' =>
          if py_eq_str t' s_Feature then check_single data else done)).

(** [validate_geojson] on the parsed content of the file: the flag and the
    errors.  [except Exception] adds its message to the errors gathered
    before the exception. *)
Definition validate_geojson (data : json) : bool * list verror :=
  match checks data [] with
  | (errors, None) => (Nat.eqb (length errors) 0, errors)
  | (errors, Some e) => (false, errors ++ [ErrorReading e])
  end.
(* ===================================================================== *)
(** * The command line ([json_to_geojson.py], lines 94-110)               *)
(* ===================================================================== *)

Definition SLASH : char := Eval vm_compute in uc "/".
Definition DOT : char := Eval vm_compute in uc ".".
Definition GEOJSON_EXT : pystr := Eval vm_compute in u ".geojson".

(** [s.rfind(c)] for a one-character [c]: the last index of [c] in [s],
    or -1.  [i] is the index of the head of [s], [found] the last index
    seen before it. *)
Fixpoint rfind_from (c : char) (s : pystr) (i found : Z) : Z :=
  match s with
  | [] => found
  | x :: s' => rfind_from c s' (i + 1)%Z (if (x =? c)%N then i else found)
  end.

Definition rfind (c : char) (s : pystr) : Z := rfind_from c s 0%Z (-1)%Z.

(** [os.path.basename] of [posixpath]: [p[p.rfind('/') + 1:]]. *)
Definition basename (p : pystr) : pystr :=
  skipn (Z.to_nat (rfind SLASH p + 1)) p.

(** The loop of [genericpath._splitext] that skips the leading dots of the
    file name: [steps] is what is left of [dotIndex - filenameIndex]. *)
Fixpoint skip_leading_dots (p : pystr) (filenameIndex steps dotIndex : nat)
    : pystr * pystr :=
  match steps with
  | O => (p, [])
  | S steps' =>
    if negb (str_eqb (firstn 1 (skipn filenameIndex p)) [DOT])
    then (firstn dotIndex p, skipn dotIndex p)
    else skip_leading_dots p (S filenameIndex) steps' dotIndex
  end.

(** [os.path.splitext] of [posixpath]. *)
Definition splitext (p : pystr) : pystr * pystr :=
  let sepIndex := rfind SLASH p in
  let dotIndex := rfind DOT p in
  if (sepIndex <? dotIndex)%Z
  then let filenameIndex := Z.to_nat (sepIndex + 1) in
       skip_leading_dots p filenameIndex (Z.to_nat dotIndex - filenameIndex)
         (Z.to_nat dotIndex)
  else (p, []).

(** [main] of [json_to_geojson.py] up to the call of line 110: the two
    paths it passes on, for the arguments [sys.argv]. *)
Definition json_to_geojson_main (argv : list pystr) : result (pystr * pystr) :=
  if (length argv <? 2)%nat then Raise SystemExit
  else
    let input_path := nth 1 argv [] in
    let output_path :=
      if (3 <=? length argv)%nat then nth 2 argv []
      else let base := fst (splitext (basename input_path)) in
           base ++ GEOJSON_EXT in
    Ok (input_path, output_path).
(* ===================================================================== *)
(** * Vocabulary for the statements about the feature loop               *)
(* ===================================================================== *)

(** A value that is a [str] with something else than whitespace in it. *)
Definition is_text (v : option json) : bool :=
  match v with
  | Some (JStr s) => py_truthy (JStr (strip s))
  | _ => false
  end.

Definition text_at (d : dict) (k : pystr) : bool := is_text (dict_lookup d k).

(** How many of the keys hold a text. *)
Definition count_texts (d : dict) (keys : list pystr) : Z :=
  Z.of_nat (length (filter (text_at d) keys)).

(** [feat.get('properties', {}) or {}] *)
Definition properties_of (f : dict) : json :=
  py_or (dict_get f k_properties (JObj [])) (JObj []).

(** [props.get('description', '') or props.get('desc', '')] *)
Definition description_of (d : dict) : json :=
  py_or (dict_get d k_description (JStr [])) (dict_get d k_desc (JStr [])).

(** A feature the loop can handle: an object whose properties are an
    object, or missing, or a value that counts as false. *)
Definition well_formed (feat : json) : bool :=
  match feat with
  | JObj f => match properties_of f with JObj _ => true | _ => false end
  | _ => false
  end.

(** [feat'] is [feat] with the properties [d']. *)
Definition with_properties (feat : json) (d' : dict) (feat' : json) : Prop :=
  exists f, feat = JObj f /\ feat' = JObj (dict_set f k_properties (JObj d')).

(** A list or a string in the place of the properties: the loops over the
    keys leave it as it is, or stop at it. *)
Definition is_sequence (p : json) : Prop :=
  (exists l, p = JArr l) \/ (exists t, p = JStr t).
(* ===================================================================== *)
(** * Vocabulary for the statements about the validator                  *)
(* ===================================================================== *)

(** A geometry the validator accepts: [null], or an object with a [type]
    and a list of [coordinates]. *)
Definition good_geometry (geometry : json) : bool :=
  match geometry with
  | JNull => true
  | JObj g =>
    dict_has g k_type
    && match dict_lookup g k_coordinates with
       | Some (JArr _) => true
       | _ => false
       end
  | _ => false
  end.

(** A feature the validator accepts: an object of type [Feature] with an
    accepted geometry and a [properties] member. *)
Definition good_feature (feature : json) : bool :=
  match feature with
  | JObj f =>
    match dict_lookup f k_type with
    | Some t => py_eq_str t s_Feature
    | None => false
    end
    && match dict_lookup f k_geometry with
       | Some geometry => good_geometry geometry
       | None => false
       end
    && dict_has f k_properties
  | _ => false
  end.

(** A stretch of checks that found something: it added an error or ended
    in an exception. *)
Definition flagged (errors : list verror) (r : list verror * option exn) : Prop :=
  length errors <= length (fst r) /\
  (length errors < length (fst r) \/ snd r <> None).

(** A stretch of checks that found nothing. *)
Definition passed (errors : list verror) (r : list verror * option exn) : Prop :=
  r = (errors, None).

(** The bare geometry types of line 37. *)
Definition GEOMETRY_TYPES : list pystr :=
  Eval vm_compute in
  map u [ "GeometryCollection"; "Point"; "LineString"; "Polygon";
          "MultiPoint"; "MultiLineString"; "MultiPolygon" ]%string.

(** A collection the validator accepts. *)
Definition valid_collection (d : dict) : Prop :=
  exists features fs,
    dict_lookup d k_features = Some features /\
    py_iter features = Ok fs /\
    forallb good_feature fs = true.

(** Every check only adds to the errors. *)
Definition grows (c : checker) : Prop :=
  forall errors, length errors <= length (fst (c errors)).
(** ** Features for the statements about the loop *)

(** A feature with two name fields, one of them blank, and a status line
    in its description. *)
Definition named_properties : dict :=
  [ (k_Name, JStr (u "«Достык»"));
    (k_title, JStr (u "  "));
    (k_description, JStr (u "Статус: Двухсторонний<br>Режим: круглосуточно"));
    (u "fid", JInt 7) ].

Definition named_feature : dict :=
  [ (k_type, JStr s_Feature);
    (k_geometry, JNull);
    (k_properties, JObj named_properties) ].

(** A feature without a name, described in [desc]. *)
Definition described_properties : dict :=
  [ (k_name, JStr []);
    (k_desc, JStr (u "пункт пропуска Кордай"));
    (k_status, JInt 2) ].

Definition described_feature : dict :=
  [ (k_type, JStr s_Feature);
    (k_properties, JObj described_properties);
    (k_geometry, JNull) ].

(** A feature whose properties are a list. *)
Definition listed_feature : json :=
  JObj [ (k_type, JStr s_Feature); (k_properties, JArr [JStr k_name]) ].

(** A collection of the two features. *)
Definition two_features : dict :=
  [ (k_type, JStr s_FeatureCollection);
    (k_features, JArr [JObj named_feature; JObj described_feature]) ].

(** What the run makes of the two features. *)
Definition transliterated_sample : json :=
  Eval vm_compute in
  match main ascii_is_cased ascii_to_title ascii_lower_at (JObj two_features) with
  | Ok r => fst (fst r)
  | Raise _ => JNull
  end.

(** What [json_to_geojson] makes of two items, one of them without a
    usable longitude. *)
Definition emitted_sample : json :=
  Eval vm_compute in
  match json_to_geojson decimal_float_of_str
          (JArr [item_zabaykalsk; item_null_longitude]) with
  | Ok r => fst r
  | Raise _ => JNull
  end.
(* ===================================================================== *)
(** * Properties                                                          *)
(* ===================================================================== *)

(** ** Sample runs *)

Example cyrillic_to_latin_zabaykalsk :
  cyrillic_to_latin (u "Забайкальск (авто)") = u "Zabaykalsk (avto)".
Proof. vm_compute. reflexivity. Qed.

Example cyrillic_to_latin_manchzhuriya :
  cyrillic_to_latin (u "Маньчжурия") = u "Manchzhuriya".
Proof. vm_compute. reflexivity. Qed.

Example compute_name_en_zabaykalsk :
  compute_name_en (u "Zabaykalsk (avto)") = u "Zabaykalsk".
Proof. vm_compute. reflexivity. Qed.

Example decimal_float_tenth :
  decimal_float_of_str (u "0.1") = Some (S754_finite false 7205759403792794 (-56)).
Proof. vm_compute. reflexivity. Qed.

Example decimal_float_signed_exponent :
  decimal_float_of_str (u " -1e3 ") = Some (binary64_of_Z (-1000)).
Proof. vm_compute. reflexivity. Qed.

Example decimal_float_rejects_words :
  decimal_float_of_str (u "abc") = None.
Proof. vm_compute. reflexivity. Qed.

(** Underscores between digits and digits of other scripts are read; the
    separators U+001C to U+001F are whitespace for [str.strip] but not
    for [float]. *)
Example decimal_float_underscores_and_scripts :
  decimal_float_of_str (u "1_0") = Some (binary64_of_Z 10)
  /\ decimal_float_of_str (u "١٢") = Some (binary64_of_Z 12)
  /\ decimal_float_of_str (u "1_") = None
  /\ decimal_float_of_str [28; 49]%N = None
  /\ strip [28; 49]%N = [49]%N.
Proof. repeat split; vm_compute; reflexivity. Qed.

(** ** The error monad and the loops *)

Lemma bind_Ok_inv {A B : Type} (m : result A) (k : A -> result B) (b : B) :
  bind m k = Ok b -> exists a, m = Ok a /\ k a = Ok b.
Proof.
  destruct m as [a|e]; simpl; intros H.
  - exists a. split; [reflexivity | exact H].
  - discriminate H.
Qed.

(** An invariant kept by every successful pass holds after the loop. *)
Lemma for_each_invariant {A S : Type} (Inv : S -> Prop)
    (body : S -> A -> result S) (xs : list A) :
  (forall acc x acc', In x xs -> Inv acc -> body acc x = Ok acc' -> Inv acc') ->
  forall acc acc', Inv acc -> for_each xs acc body = Ok acc' -> Inv acc'.
Proof.
  induction xs as [|x xs IH]; simpl; intros Hstep acc acc' Hacc Hrun.
  - inversion Hrun; subst; exact Hacc.
  - apply bind_Ok_inv in Hrun. destruct Hrun as [mid [Hx Hrest]].
    apply (IH (fun acc0 y acc1 Hin => Hstep acc0 y acc1 (or_intror Hin)) mid acc').
    + apply (Hstep acc x mid); [left; reflexivity | exact Hacc | exact Hx].
    + exact Hrest.
Qed.

(** ** The transliteration engine *)

Lemma cyrillic_to_latin_from_start text :
  cyrillic_to_latin text = translit_from true text.
Proof. reflexivity. Qed.

Lemma boundary_after_app b s1 s2 :
  boundary_after b (s1 ++ s2) = boundary_after (boundary_after b s1) s2.
Proof. unfold boundary_after. apply fold_left_app. Qed.

Lemma boundary_after_cons b c s :
  boundary_after b (c :: s) = boundary_after (is_space c) s.
Proof. reflexivity. Qed.

Section SingleCharPass.

(** A pass [re.sub(r'(^|\s)P', r'\1REP', _)] whose pattern is one
    character [p], not a whitespace, and whose replacement ends with a
    character that is not a whitespace either. *)
Variable p : char.
Variable rep : pystr.
Hypothesis p_not_space : is_space p = false.
Hypothesis rep_closed : forall b, boundary_after b rep = false.

Lemma pass_cons b c s :
  re_sub_boundary [p] rep 0 b (c :: s) =
  if b && (p =? c)%N
  then rep ++ re_sub_boundary [p] rep 0 false s
  else c :: re_sub_boundary [p] rep 0 (is_space c) s.
Proof.
  simpl. rewrite andb_true_r. destruct (p =? c)%N; reflexivity.
Qed.

Lemma pass_app b s1 s2 :
  re_sub_boundary [p] rep 0 b (s1 ++ s2) =
  re_sub_boundary [p] rep 0 b s1 ++
  re_sub_boundary [p] rep 0 (boundary_after b s1) s2.
Proof.
  revert b. induction s1 as [|c s1 IH]; intros b.
  - reflexivity.
  - rewrite <- app_comm_cons, !pass_cons, boundary_after_cons.
    destruct (b && (p =? c)%N) eqn:Hm.
    + apply andb_prop in Hm. destruct Hm as [_ Hpc].
      apply N.eqb_eq in Hpc. subst c.
      rewrite p_not_space, IH, app_assoc. reflexivity.
    + rewrite IH. reflexivity.
Qed.

Lemma pass_boundary b b' s :
  boundary_after b (re_sub_boundary [p] rep 0 b' s) = boundary_after b s.
Proof.
  revert b b'. induction s as [|c s IH]; intros b b'.
  - reflexivity.
  - rewrite pass_cons. destruct (b' && (p =? c)%N) eqn:Hm.
    + apply andb_prop in Hm. destruct Hm as [_ Hpc].
      apply N.eqb_eq in Hpc. subst c.
      rewrite boundary_after_app, rep_closed, IH, boundary_after_cons, p_not_space.
      reflexivity.
    + rewrite !boundary_after_cons. apply IH.
Qed.

End SingleCharPass.

(** The two passes that put [Yo] for [Yo] and [yo] for [yo] change
    nothing. *)
Lemma two_char_pass_identity a c n :
  forall s b, length s <= n -> re_sub_boundary [a; c] [a; c] 0 b s = s.
Proof.
  induction n as [|n IH]; intros s b Hn.
  - destruct s; [reflexivity | simpl in Hn; lia].
  - destruct s as [|x s]; [reflexivity|].
    cbn [re_sub_boundary length Nat.eqb negb Nat.sub andb].
    destruct (b && true && starts_with [a; c] (x :: s)) eqn:Hm.
    + apply andb_prop in Hm. destruct Hm as [_ Hs].
      cbn [starts_with] in Hs.
      apply andb_prop in Hs. destruct Hs as [Hax Hs].
      apply N.eqb_eq in Hax. subst x.
      destruct s as [|y s]; [discriminate Hs|].
      apply andb_prop in Hs. destruct Hs as [Hcy _].
      apply N.eqb_eq in Hcy. subst y.
      cbn [re_sub_boundary app]. rewrite IH; [reflexivity | simpl in Hn; lia].
    + rewrite IH; [reflexivity | simpl in Hn; lia].
Qed.

Lemma translit_from_two_passes b text :
  translit_from b text =
  re_sub_boundary [LATIN_E_LOWER] (u "ye") 0 b
    (re_sub_boundary [LATIN_E_UPPER] (u "Ye") 0 b
       (map_chars TRANS_MAP (strip_signs text))).
Proof.
  unfold translit_from.
  change (u "Yo") with [89; 111]%N. change (u "yo") with [121; 111]%N.
  rewrite !(two_char_pass_identity _ _ _ _ _ (le_n _)).
  reflexivity.
Qed.

Lemma strip_signs_filter s :
  strip_signs s = filter (fun c => negb (is_sign c)) s.
Proof.
  unfold strip_signs, remove_char, is_sign.
  induction s as [|c s IH]; [reflexivity|].
  cbn [filter].
  destruct (c =? HARD_UPPER)%N; cbn [negb orb filter]; [exact IH|].
  destruct (c =? SOFT_UPPER)%N; cbn [negb orb filter]; [exact IH|].
  destruct (c =? HARD_LOWER)%N; cbn [negb orb filter]; [exact IH|].
  destruct (c =? SOFT_LOWER)%N; cbn [negb orb filter]; [exact IH|].
  rewrite IH. reflexivity.
Qed.

Lemma strip_signs_app s1 s2 :
  strip_signs (s1 ++ s2) = strip_signs s1 ++ strip_signs s2.
Proof. rewrite !strip_signs_filter. apply filter_app. Qed.

Lemma strip_signs_cons c s :
  strip_signs (c :: s) = if is_sign c then strip_signs s else c :: strip_signs s.
Proof. rewrite !strip_signs_filter. cbn [filter]. destruct (is_sign c); reflexivity. Qed.

Lemma map_chars_app t s1 s2 :
  map_chars t (s1 ++ s2) = map_chars t s1 ++ map_chars t s2.
Proof. unfold map_chars. apply flat_map_app. Qed.

Lemma table_get_cases t c d :
  (in_table t c = false /\ table_get t c d = d) \/ In (c, table_get t c d) t.
Proof.
  induction t as [|[k v] t IH]; [left; split; reflexivity|].
  unfold in_table in *. cbn [table_get existsb fst].
  destruct (k =? c)%N eqn:Hk.
  - right. left. apply N.eqb_eq in Hk. subst k. reflexivity.
  - destruct IH as [[Hn Hg] | Hin].
    + left. split; assumption.
    + right. right. exact Hin.
Qed.

(** Every letter of the table other than the four signs is not a whitespace
    and is rendered by a non-empty text that ends with a letter. *)
Lemma TRANS_MAP_entries :
  forallb (fun kv => is_sign (fst kv) ||
                     (negb (is_space (fst kv)) &&
                      negb (boundary_after true (snd kv)) &&
                      negb (boundary_after false (snd kv)))) TRANS_MAP = true.
Proof. vm_compute. reflexivity. Qed.

Lemma sign_in_table c : is_sign c = true -> in_table TRANS_MAP c = true.
Proof.
  unfold is_sign. intros H.
  repeat (apply orb_prop in H; destruct H as [H|H]);
    apply N.eqb_eq in H; subst c; vm_compute; reflexivity.
Qed.

Lemma unmapped_not_sign c : in_table TRANS_MAP c = false -> is_sign c = false.
Proof.
  intros Hc. destruct (is_sign c) eqn:E; [|reflexivity].
  apply sign_in_table in E. congruence.
Qed.

Lemma table_get_boundary b c :
  is_sign c = false ->
  boundary_after b (table_get TRANS_MAP c [c]) = is_space c.
Proof.
  intros Hs.
  destruct (table_get_cases TRANS_MAP c [c]) as [[_ Hg] | Hin].
  - rewrite Hg. reflexivity.
  - pose proof TRANS_MAP_entries as Hall.
    rewrite forallb_forall in Hall. specialize (Hall _ Hin).
    cbn [fst snd] in Hall. rewrite Hs in Hall. cbn [orb] in Hall.
    apply andb_prop in Hall. destruct Hall as [Hall Hf].
    apply andb_prop in Hall. destruct Hall as [Hsp Ht].
    apply negb_true_iff in Hsp, Ht, Hf. rewrite Hsp.
    destruct b; assumption.
Qed.

Lemma map_chars_boundary b t :
  forallb (fun c => negb (is_sign c)) t = true ->
  boundary_after b (map_chars TRANS_MAP t) = boundary_after b t.
Proof.
  revert b. induction t as [|c t IH]; intros b Hall; [reflexivity|].
  cbn [forallb] in Hall. apply andb_prop in Hall. destruct Hall as [Hc Ht].
  apply negb_true_iff in Hc.
  change (map_chars TRANS_MAP (c :: t))
    with (table_get TRANS_MAP c [c] ++ map_chars TRANS_MAP t).
  rewrite boundary_after_app, table_get_boundary by exact Hc.
  rewrite boundary_after_cons. apply IH. exact Ht.
Qed.

Lemma strip_signs_clean s :
  forallb (fun c => negb (is_sign c)) (strip_signs s) = true.
Proof.
  rewrite strip_signs_filter. apply forallb_forall. intros c Hc.
  apply filter_In in Hc. apply Hc.
Qed.

(** The engine works through a text from left to right: what it puts for a
    tail depends on the head only through whether the head leaves it at the
    start of a word. *)
Lemma translit_from_app b s1 s2 :
  translit_from b (s1 ++ s2) =
  translit_from b s1 ++ translit_from (boundary_after b (strip_signs s1)) s2.
Proof.
  rewrite !translit_from_two_passes, strip_signs_app, map_chars_app.
  rewrite (@pass_app LATIN_E_UPPER (u "Ye") eq_refl).
  rewrite (@pass_app LATIN_E_LOWER (u "ye") eq_refl).
  rewrite (@pass_boundary LATIN_E_UPPER (u "Ye") eq_refl (fun _ => eq_refl)).
  rewrite map_chars_boundary by apply strip_signs_clean.
  reflexivity.
Qed.

Lemma translit_from_E_upper b :
  translit_from b [CYR_E_UPPER] = if b then u "Ye" else u "E".
Proof. destruct b; vm_compute; reflexivity. Qed.

Lemma translit_from_E_lower b :
  translit_from b [CYR_E_LOWER] = if b then u "ye" else u "e".
Proof. destruct b; vm_compute; reflexivity. Qed.

Lemma translit_from_unmapped b c :
  in_table TRANS_MAP c = false ->
  translit_from b [c] =
  if b && (c =? LATIN_E_UPPER)%N then u "Ye"
  else if b && (c =? LATIN_E_LOWER)%N then u "ye"
  else [c].
Proof.
  intros Hc.
  pose proof (unmapped_not_sign c Hc) as Hs.
  rewrite translit_from_two_passes, strip_signs_cons, Hs.
  change (strip_signs []) with (@nil char).
  unfold map_chars. cbn [flat_map].
  destruct (table_get_cases TRANS_MAP c [c]) as [[_ Hg] | Hin].
  2:{ assert (in_table TRANS_MAP c = true); [|congruence].
      unfold in_table. apply existsb_exists.
      eexists. split; [exact Hin | apply N.eqb_refl]. }
  rewrite Hg. cbn [app].
  rewrite (pass_cons LATIN_E_UPPER).
  rewrite (N.eqb_sym LATIN_E_UPPER c).
  destruct (b && (c =? LATIN_E_UPPER)%N) eqn:HE.
  - apply andb_prop in HE. destruct HE as [Hb HE].
    apply N.eqb_eq in HE. subst b c. vm_compute. reflexivity.
  - change (re_sub_boundary [LATIN_E_UPPER] (u "Ye") 0 (is_space c) [])
      with (@nil char).
    rewrite (pass_cons LATIN_E_LOWER).
    rewrite (N.eqb_sym LATIN_E_LOWER c).
    destruct (b && (c =? LATIN_E_LOWER)%N); reflexivity.
Qed.

Lemma word_start_nil : word_start [] = true.
Proof. reflexivity. Qed.

Lemma sign_not_space c : is_sign c = true -> is_space c = false.
Proof.
  unfold is_sign. intros H.
  repeat (apply orb_prop in H; destruct H as [H|H]);
    apply N.eqb_eq in H; subst c; reflexivity.
Qed.

Lemma word_start_snoc pre c :
  word_start (pre ++ [c]) = is_space c || (is_sign c && word_start pre).
Proof.
  unfold word_start.
  rewrite strip_signs_app, boundary_after_app, strip_signs_cons.
  destruct (is_sign c) eqn:Hs.
  - rewrite (sign_not_space c Hs). reflexivity.
  - cbn [andb]. rewrite orb_false_r. reflexivity.
Qed.

(** What the engine puts for one character [c] found after [pre], in
    terms of what it puts for [c] alone. *)
Lemma cyrillic_to_latin_split pre c post :
  is_sign c = false ->
  cyrillic_to_latin (pre ++ c :: post) =
  cyrillic_to_latin pre ++ translit_from (word_start pre) [c]
    ++ translit_from (is_space c) post.
Proof.
  intros Hs. rewrite !cyrillic_to_latin_from_start.
  change (c :: post) with ([c] ++ post).
  rewrite translit_from_app, translit_from_app.
  rewrite strip_signs_cons, Hs. reflexivity.
Qed.

(** C2, as amended: a Cyrillic Е (е) is rendered [Ye] ([ye]) when the text
    before it leaves it at the start of a word, and [E] ([e]) otherwise,
    between the rendering of what precedes and of what follows.  The start
    of a word is judged once the hard and soft signs are removed: the next
    letter is at a word start after the empty text and after a text ending
    with whitespace, it is not after a text ending with any other character
    but a sign, and a sign at the end of the text changes nothing.  The
    three sample names come out as the specification says. *)
Theorem cyrillic_E_rule (pre post : pystr) :
  cyrillic_to_latin (pre ++ CYR_E_UPPER :: post) =
    cyrillic_to_latin pre ++ (if word_start pre then u "Ye" else u "E")
      ++ translit_from false post
  /\ cyrillic_to_latin (pre ++ CYR_E_LOWER :: post) =
    cyrillic_to_latin pre ++ (if word_start pre then u "ye" else u "e")
      ++ translit_from false post
  /\ word_start [] = true
  /\ (forall c, word_start (pre ++ [c]) =
                is_space c || (is_sign c && word_start pre))
  /\ starts_with (u "Ye") (cyrillic_to_latin (u "Екатеринбург")) = true
  /\ cyrillic_to_latin (u "собственная Елка") = u "sobstvennaya Yelka"
  /\ cyrillic_to_latin (u "Нефтекамск") = u "Neftekamsk".
Proof.
  split; [|split; [|split; [|split; [|split; [|split]]]]].
  - rewrite cyrillic_to_latin_split by reflexivity.
    rewrite translit_from_E_upper. reflexivity.
  - rewrite cyrillic_to_latin_split by reflexivity.
    rewrite translit_from_E_lower. reflexivity.
  - apply word_start_nil.
  - intros c. apply word_start_snoc.
  - vm_compute. reflexivity.
  - vm_compute. reflexivity.
  - vm_compute. reflexivity.
Qed.

(** C2 as stated fails: in "ьЕ" the letter Е is the second character and
    the character before it is not a whitespace, yet it is rendered [Ye],
    because the soft sign is removed before the word-start rule runs. *)
Lemma E_after_sign_counterexample :
  u "ьЕ" = [SOFT_LOWER; CYR_E_UPPER]
  /\ is_space SOFT_LOWER = false
  /\ cyrillic_to_latin (u "ьЕ") = u "Ye"
  /\ cyrillic_to_latin (u "ьЕ") <> cyrillic_to_latin (u "ь") ++ u "E".
Proof.
  repeat split; try (vm_compute; reflexivity).
  vm_compute. discriminate.
Qed.

(** C8, as amended: a character outside the table is emitted as it is,
    between the rendering of what precedes and of what follows, except a
    Latin [E] or [e] at the start of a word, which is emitted as [Ye] or
    [ye]. *)
Theorem unmapped_char_verbatim (pre post : pystr) (c : char) :
  in_table TRANS_MAP c = false ->
  cyrillic_to_latin (pre ++ c :: post) =
    cyrillic_to_latin pre ++
    (if word_start pre && (c =? LATIN_E_UPPER)%N then u "Ye"
     else if word_start pre && (c =? LATIN_E_LOWER)%N then u "ye"
     else [c]) ++
    translit_from (is_space c) post.
Proof.
  intros Hc.
  rewrite cyrillic_to_latin_split by (apply unmapped_not_sign; exact Hc).
  rewrite translit_from_unmapped by exact Hc. reflexivity.
Qed.

Lemma unmapped_char_verbatim_witness :
  cyrillic_to_latin (u "Чита" ++ uc "-" :: u "2") =
    cyrillic_to_latin (u "Чита") ++
    (if word_start (u "Чита") && (uc "-" =? LATIN_E_UPPER)%N then u "Ye"
     else if word_start (u "Чита") && (uc "-" =? LATIN_E_LOWER)%N then u "ye"
     else [uc "-"]) ++
    translit_from (is_space (uc "-")) (u "2").
Proof.
  apply (@unmapped_char_verbatim (u "Чита") (u "2") (uc "-")).
  vm_compute. reflexivity.
Defined.

(** C8 as stated fails: the Latin letter [E] is outside the table, and
    "E" comes out as "Ye", in which no [E] is left. *)
Lemma latin_E_counterexample :
  in_table TRANS_MAP LATIN_E_UPPER = false
  /\ cyrillic_to_latin (u "E") = u "Ye"
  /\ has_char LATIN_E_UPPER (cyrillic_to_latin (u "E")) = false
  /\ cyrillic_to_latin (u "Estonia") = u "Yestonia".
Proof. repeat split; vm_compute; reflexivity. Qed.

(** ** No hard or soft sign is left *)

Lemma TRANS_MAP_outputs_clean :
  forallb (fun kv => forallb (fun c => negb (is_sign c)) (snd kv)) TRANS_MAP = true.
Proof. vm_compute. reflexivity. Qed.

Lemma map_chars_clean t :
  forallb (fun c => negb (is_sign c)) t = true ->
  forallb (fun c => negb (is_sign c)) (map_chars TRANS_MAP t) = true.
Proof.
  induction t as [|c t IH]; intros Hall; [reflexivity|].
  cbn [forallb] in Hall. apply andb_prop in Hall. destruct Hall as [Hc Ht].
  change (map_chars TRANS_MAP (c :: t))
    with (table_get TRANS_MAP c [c] ++ map_chars TRANS_MAP t).
  rewrite forallb_app, (IH Ht), andb_true_r.
  destruct (table_get_cases TRANS_MAP c [c]) as [[_ Hg] | Hin].
  - rewrite Hg. cbn [forallb]. rewrite Hc. reflexivity.
  - pose proof TRANS_MAP_outputs_clean as Hall.
    rewrite forallb_forall in Hall. apply (Hall _ Hin).
Qed.

Lemma pass_clean p rep b s :
  forallb (fun c => negb (is_sign c)) rep = true ->
  forallb (fun c => negb (is_sign c)) s = true ->
  forallb (fun c => negb (is_sign c)) (re_sub_boundary [p] rep 0 b s) = true.
Proof.
  intros Hrep. revert b. induction s as [|c s IH]; intros b Hall; [reflexivity|].
  cbn [forallb] in Hall. apply andb_prop in Hall. destruct Hall as [Hc Hs].
  rewrite pass_cons. destruct (b && (p =? c)%N).
  - rewrite forallb_app, Hrep. apply IH. exact Hs.
  - cbn [forallb]. rewrite Hc. apply IH. exact Hs.
Qed.

(** Whatever the input, the transliterated text holds none of the four
    hard and soft signs. *)
Lemma cyrillic_to_latin_no_sign text :
  forallb (fun c => negb (is_sign c)) (cyrillic_to_latin text) = true.
Proof.
  rewrite cyrillic_to_latin_from_start, translit_from_two_passes.
  apply pass_clean; [reflexivity|].
  apply pass_clean; [reflexivity|].
  apply map_chars_clean. apply strip_signs_clean.
Qed.

Example utf8_samples :
  u "Ye" = [89; 101]%N /\ u "Е" = [1045]%N /\ u "ь" = [1100]%N /\ u " " = [32]%N.
Proof. repeat split; reflexivity. Qed.

(** The engine reads a text from left to right: the output for a text
    followed by another is the output for the first followed by the output
    for the second, taken from the word-start state the first leaves. *)
Lemma transliteration_left_to_right s1 s2 :
  cyrillic_to_latin (s1 ++ s2) =
  cyrillic_to_latin s1 ++ translit_from (word_start s1) s2.
Proof. rewrite !cyrillic_to_latin_from_start. apply translit_from_app. Qed.

(** ** Strings and dicts *)

Lemma str_eqb_eq a b : str_eqb a b = true <-> a = b.
Proof.
  revert b. induction a as [|x a IH]; intros [|y b]; simpl;
    try (split; [discriminate | discriminate]); [tauto|].
  rewrite andb_true_iff, N.eqb_eq, IH.
  split; [intros [-> ->]; reflexivity | intros H; inversion H; auto].
Qed.

Lemma str_eqb_refl a : str_eqb a a = true.
Proof. apply str_eqb_eq. reflexivity. Qed.

Lemma py_eq_str_true v s : py_eq_str v s = true <-> v = JStr s.
Proof.
  destruct v; simpl; try (split; [discriminate | discriminate]).
  rewrite str_eqb_eq. split; [intros ->; reflexivity | intros H; inversion H; auto].
Qed.

Lemma dict_lookup_set d k v k' :
  dict_lookup (dict_set d k v) k' =
  if str_eqb k k' then Some v else dict_lookup d k'.
Proof.
  induction d as [|[k0 v0] d IH]; simpl.
  - reflexivity.
  - destruct (str_eqb k0 k) eqn:E0; simpl.
    + apply str_eqb_eq in E0. subst k0.
      destruct (str_eqb k k'); reflexivity.
    + rewrite IH. destruct (str_eqb k0 k') eqn:E1; [|reflexivity].
      apply str_eqb_eq in E1. subst k0.
      destruct (str_eqb k k') eqn:E2; [|reflexivity].
      apply str_eqb_eq in E2. subst k'. rewrite str_eqb_refl in E0.
      discriminate E0.
Qed.

(** ** The status classifier *)

(** C6: the classifier is a function from any value to a status code or
    null, with no exception branch; it gives 1 exactly for the string
    "Bilateral" and 2 exactly for "Multilateral", null for every other
    value, a differently cased label included; a value that is not a string
    is null for the free-text classifier too. *)
Theorem classify_status_total (v : json) :
  (classify_status v = JInt 1 <-> v = JStr (u "Bilateral"))
  /\ (classify_status v = JInt 2 <-> v = JStr (u "Multilateral"))
  /\ (classify_status v = JNull <->
      v <> JStr (u "Bilateral") /\ v <> JStr (u "Multilateral"))
  /\ match v with
     | JStr _ => True
     | _ => classify_status v = JNull /\ extract_status v = JNull
     end
  /\ classify_status JNull = JNull
  /\ extract_status JNull = JNull
  /\ classify_status (JStr (u "Bilateral")) = JInt 1
  /\ classify_status (JStr (u "Multilateral")) = JInt 2
  /\ classify_status (JStr (u "random text")) = JNull
  /\ classify_status (JStr (u "bilateral")) = JNull.
Proof.
  assert (Hne : JStr (u "Bilateral") <> JStr (u "Multilateral"))
    by (vm_compute; discriminate).
  unfold classify_status.
  destruct (py_eq_str v (u "Bilateral")) eqn:E1.
  - apply py_eq_str_true in E1. subst v.
    repeat split; try reflexivity; try discriminate; try tauto;
      try (intros H; exfalso; apply Hne; exact H);
      try (intros [H _]; exfalso; apply H; reflexivity).
  - assert (N1 : v <> JStr (u "Bilateral")).
    { intros H. apply py_eq_str_true in H. congruence. }
    destruct (py_eq_str v (u "Multilateral")) eqn:E2.
    + apply py_eq_str_true in E2. subst v.
      repeat split; try reflexivity; try discriminate; try tauto;
        try (intros [_ H]; exfalso; apply H; reflexivity).
    + assert (N2 : v <> JStr (u "Multilateral")).
      { intros H. apply py_eq_str_true in H. congruence. }
      repeat split; try reflexivity; try discriminate; try tauto.
      destruct v; repeat split; reflexivity.
Qed.

(** ** The record normaliser *)

Ltac bind_inv H :=
  let x := fresh "x" in
  let Hx := fresh "Hx" in
  apply bind_Ok_inv in H; destruct H as [x [Hx H]].

(** A record is emitted only for a checkpoint that passes the test of
    line 57 and the test of line 95. *)
Lemma normalize_admits cp r :
  normalize cp = Ok (Some r) ->
  exists ty c,
    checkpoint_type_en cp = Ok ty /\ py_eq_str ty AUTOMOBILE = true /\
    py_get cp k_condition JNull = Ok c /\ py_eq_True c = true.
Proof.
  unfold normalize. intros H.
  bind_inv H. bind_inv H. bind_inv H.
  destruct (py_eq_str x AUTOMOBILE) eqn:Hty; [|discriminate H].
  bind_inv H. bind_inv H. bind_inv H. bind_inv H. bind_inv H. bind_inv H.
  bind_inv H.
  destruct (py_eq_True x8) eqn:Hc; [|discriminate H].
  exists x, x8. repeat split; assumption.
Qed.

Lemma py_eq_True_cases c :
  py_eq_True c = true <->
  c = JBool true \/ c = JInt 1 \/ exists f, c = JFloat f /\ SFeqb f float_one = true.
Proof.
  destruct c; simpl; split; intros H;
    try discriminate;
    try (destruct H as [H | [H | [f [H _]]]]; discriminate H).
  - subst b. left. reflexivity.
  - destruct H as [H | [H | [f0 [H _]]]]; try discriminate H.
    inversion H. reflexivity.
  - apply Z.eqb_eq in H. subst z. right. left. reflexivity.
  - destruct H as [H | [H | [f0 [H _]]]]; try discriminate H.
    inversion H. reflexivity.
  - right. right. exists f. split; [reflexivity | exact H].
  - destruct H as [H | [H | [f0 [H E]]]]; try discriminate H.
    inversion H. subst f0. exact E.
Qed.

(** ** Admission *)

Lemma normalize_admitted cp r : normalize cp = Ok (Some r) -> admitted cp.
Proof.
  intros H. apply normalize_admits in H.
  destruct H as [ty [c [Hty [Heq [Hc Hcond]]]]].
  apply py_eq_str_true in Heq. subst ty.
  exists c. repeat split; try assumption.
  apply py_eq_True_cases. exact Hcond.
Qed.

Lemma checkpoint_step_origin data processed cp processed' :
  visited data cp ->
  (forall r, In r processed ->
     exists cp0, visited data cp0 /\ normalize cp0 = Ok (Some r)) ->
  checkpoint_step processed cp = Ok processed' ->
  forall r, In r processed' ->
    exists cp0, visited data cp0 /\ normalize cp0 = Ok (Some r).
Proof.
  unfold checkpoint_step. intros Hv Hacc H r Hr.
  bind_inv H. destruct x as [nc|]; inversion H; subst processed'.
  - apply in_app_or in Hr. destruct Hr as [Hr | [Hr | []]].
    + apply Hacc. exact Hr.
    + subst r. exists cp. split; assumption.
  - apply Hacc. exact Hr.
Qed.

(** Every record of [processed_checkpoints] is what [normalize] returns for
    a checkpoint of the document. *)
Lemma process_checkpoints_origin data processed :
  process_checkpoints data = Ok processed ->
  forall r, In r processed ->
    exists cp, visited data cp /\ normalize cp = Ok (Some r).
Proof.
  unfold process_checkpoints. intros H.
  bind_inv H. rename x into fd, Hx into Hfd.
  bind_inv H. rename x into ids, Hx into Hids.
  revert H.
  apply (for_each_invariant
           (fun acc => forall r, In r acc ->
              exists cp, visited data cp /\ normalize cp = Ok (Some r)));
    [| intros r []].
  intros acc district_id acc' Hd Hacc Hstep.
  unfold district_step in Hstep.
  bind_inv Hstep. rename x into fd', Hx into Hfd'.
  bind_inv Hstep. rename x into regions, Hx into Hregions.
  bind_inv Hstep. rename x into rs, Hx into Hrs.
  revert Hstep.
  apply (for_each_invariant
           (fun acc => forall r, In r acc ->
              exists cp, visited data cp /\ normalize cp = Ok (Some r)));
    [| exact Hacc].
  intros acc1 region acc1' Hr Hacc1 Hstep.
  unfold region_step in Hstep.
  bind_inv Hstep. rename x into cpsv, Hx into Hcpsv.
  bind_inv Hstep. rename x into cps, Hx into Hcps.
  revert Hstep.
  apply (for_each_invariant
           (fun acc => forall r, In r acc ->
              exists cp, visited data cp /\ normalize cp = Ok (Some r)));
    [| exact Hacc1].
  intros acc2 cp acc2' Hcp Hacc2 Hstep.
  eapply checkpoint_step_origin; [| exact Hacc2 | exact Hstep].
  exists fd, ids, district_id, fd', regions, rs, region, cpsv, cps.
  repeat split; assumption.
Qed.

Lemma bucket_append_In m key cp k l r :
  In (k, l) (bucket_append m key cp) -> In r l ->
  r = cp \/ exists l', In (k, l') m /\ In r l'.
Proof.
  induction m as [|[k0 l0] m IH]; simpl; intros Hin Hr.
  - destruct Hin as [Hin | []]. inversion Hin; subst.
    destruct Hr as [Hr | []]. left. symmetry. exact Hr.
  - destruct (key_eqb k0 key).
    + destruct Hin as [Hin | Hin].
      * inversion Hin; subst. apply in_app_or in Hr.
        destruct Hr as [Hr | [Hr | []]].
        -- right. exists l0. split; [left; reflexivity | exact Hr].
        -- left. symmetry. exact Hr.
      * right. exists l. split; [right; exact Hin | exact Hr].
    + destruct Hin as [Hin | Hin].
      * inversion Hin; subst. right. exists l. split; [left; reflexivity | exact Hr].
      * destruct (IH Hin Hr) as [-> | [l' [Hl' Hr']]]; [left; reflexivity|].
        right. exists l'. split; [right; exact Hl' | exact Hr'].
Qed.

(** A bucket holds only records of the flat list. *)
Lemma group_by_region_sound processed m :
  group_by_region processed = Ok m ->
  forall k l r, In (k, l) m -> In r l -> In r processed.
Proof.
  unfold group_by_region.
  apply (for_each_invariant
           (fun m => forall k l r, In (k, l) m -> In r l -> In r processed)).
  - intros acc cp acc' Hcp Hacc Hstep k l r Hkl Hr.
    unfold group_step in Hstep.
    destruct (hashable (region_key cp)); [|discriminate Hstep].
    inversion Hstep; subst acc'.
    destruct (@bucket_append_In _ _ _ _ _ _ Hkl Hr) as [-> | [l' [Hl' Hr']]].
    + exact Hcp.
    + apply (Hacc k l' r Hl' Hr').
  - intros k l r [].
Qed.

(** C1, as amended: when the script runs to its end, every record of the
    flat list is what the normaliser returns for a checkpoint of the
    document that passes both filters, every record of a bucket is a record
    of the flat list, and a checkpoint that fails a filter yields no record.
    Passing the filters means: the type label is the string "Automobile
    checkpoint", and [condition] equals [True] in Python's sense, which the
    boolean true does and so do the numbers 1 and 1.0. *)
Theorem outputs_come_from_admitted data m processed :
  extract_ru_borders data = Ok (m, processed) ->
  (forall r, In r processed ->
     exists cp, visited data cp /\ admitted cp /\ normalize cp = Ok (Some r))
  /\ (forall k l r, In (k, l) m -> In r l -> In r processed)
  /\ (forall cp r, normalize cp = Ok (Some r) -> admitted cp).
Proof.
  unfold extract_ru_borders. intros H.
  bind_inv H. rename x into p, Hx into Hp.
  bind_inv H. rename x into m0, Hx into Hm.
  inversion H; subst m0 p. clear H.
  split; [|split].
  - intros r Hr.
    destruct (@process_checkpoints_origin _ _ Hp r Hr) as [cp [Hv Hn]].
    exists cp. repeat split; try assumption.
    apply (@normalize_admitted _ _ Hn).
  - apply group_by_region_sound. exact Hm.
  - apply normalize_admitted.
Qed.

Lemma outputs_come_from_admitted_witness :
  (forall r, In r [zabaykalsk_record] ->
     exists cp, visited (document [railway; zabaykalsk; closed]) cp /\
                admitted cp /\ normalize cp = Ok (Some r))
  /\ (forall k l r, In (k, l) [(JStr (u "CN"), [zabaykalsk_record])] ->
        In r l -> In r [zabaykalsk_record])
  /\ (forall cp r, normalize cp = Ok (Some r) -> admitted cp).
Proof.
  apply (@outputs_come_from_admitted (document [railway; zabaykalsk; closed])
           [(JStr (u "CN"), [zabaykalsk_record])] [zabaykalsk_record]).
  vm_compute. reflexivity.
Defined.

(** C1 as stated fails: a checkpoint whose [condition] is the number 1, not
    the boolean true, passes the test [== True] and its record reaches the
    flat list and a bucket. *)
Lemma condition_one_counterexample :
  py_get condition_one k_condition JNull = Ok (JInt 1)
  /\ JInt 1 <> JBool true
  /\ normalize condition_one = Ok (Some condition_one_record)
  /\ extract_ru_borders (document [condition_one]) =
     Ok ([(JStr UNKNOWN, [condition_one_record])], [condition_one_record]).
Proof.
  repeat split; try (vm_compute; reflexivity). discriminate.
Qed.

(** ** The fields of a normalised record *)

(** Evaluates the key comparisons between the literal field names. *)
Ltac eval_keys :=
  repeat match goal with
  | |- context [str_eqb ?a ?b] =>
    let v := eval vm_compute in (str_eqb a b) in
    progress change (str_eqb a b) with v
  end; cbv iota.

Ltac lookup_set := repeat (rewrite dict_lookup_set; eval_keys).

Lemma call_cyrillic_to_latin_Ok v s :
  call_cyrillic_to_latin v = Ok s -> exists t, v = JStr t /\ s = cyrillic_to_latin t.
Proof.
  destruct v; simpl; intros H; try discriminate H.
  inversion H. eexists. split; reflexivity.
Qed.

Lemma set_names_cases nc t nc' :
  set_names nc t = Ok nc' ->
  (py_truthy t = false /\ nc' = dict_set nc k_name JNull) \/
  (exists s, t = JStr s /\ s <> [] /\
     let full_name := cyrillic_to_latin s in
     let name_en := JStr (compute_name_en full_name) in
     nc' = dict_set (dict_set (dict_set (dict_set nc k_name_ru (JStr s))
                       k_full_name (JStr full_name)) k_name_en name_en)
                    k_name name_en).
Proof.
  unfold set_names. destruct (py_truthy t) eqn:Ht.
  - intros H. right. bind_inv H.
    apply call_cyrillic_to_latin_Ok in Hx. destruct Hx as [s [-> ->]].
    revert H. unfold dict_getitem. lookup_set. cbn [bind fstr].
    lookup_set. cbn [bind].
    intros H. inversion H. exists s. repeat split.
    intros ->. discriminate Ht.
  - intros H. inversion H. left. split; reflexivity.
Qed.

Lemma set_country_cases nc cp nc' :
  set_country nc cp = Ok nc' ->
  exists oc, py_get cp k_foreign_country JNull = Ok oc /\
    ((py_truthy oc = false /\ nc' = nc) \/
     (py_truthy oc = true /\ exists o, oc = JObj o /\
        nc' = dict_set nc k_country (dict_get o k_iso_code JNull))).
Proof.
  unfold set_country. intros H. bind_inv H. exists x. split; [exact Hx|].
  destruct (py_truthy x) eqn:Ht.
  - right. split; [reflexivity|]. bind_inv H.
    destruct x; simpl in Hx0; try discriminate Hx0.
    inversion Hx0. inversion H. subst. eexists. split; reflexivity.
  - left. inversion H. split; reflexivity.
Qed.

Lemma set_foreign_cases nc cp nc' :
  set_foreign nc cp = Ok nc' ->
  exists f, foreign_checkpoint_ru cp = Ok f /\
    ((py_truthy f = false /\ nc' = dict_set nc k_foreign_checkpoint_ru f) \/
     (exists fs name_en, f = JStr fs /\ fs <> [] /\
        dict_lookup nc k_name_en = Some name_en /\
        let foreign_name := cyrillic_to_latin fs in
        let nc1 := dict_set (dict_set nc k_foreign_checkpoint_ru f)
                     k_foreign_name (JStr foreign_name) in
        nc' = if py_truthy name_en && negb (Nat.eqb (length foreign_name) 0)
              then dict_set nc1 k_name
                     (JStr (fstr name_en ++ SEPARATOR ++ foreign_name))
              else nc1)).
Proof.
  unfold set_foreign, foreign_checkpoint_ru. intros H.
  bind_inv H. rename x into fc, Hx into Hfc.
  bind_inv H. rename x into f, Hx into Hf.
  exists f. split; [rewrite Hfc; exact Hf|].
  revert H. unfold dict_getitem at 1. lookup_set. cbn [bind].
  destruct (py_truthy f) eqn:Ht.
  - intros H. right. bind_inv H.
    apply call_cyrillic_to_latin_Ok in Hx. destruct Hx as [fs [-> ->]].
    revert H. unfold dict_getitem. lookup_set.
    destruct (dict_lookup nc k_name_en) as [name_en|] eqn:Hne;
      [|intros H; discriminate H].
    cbn [bind]. intros H. exists fs, name_en.
    split; [reflexivity|]. split; [intros ->; discriminate Ht|].
    split; [reflexivity|]. cbv zeta.
    destruct (py_truthy name_en); cbn [andb].
    + cbn [bind py_truthy fstr] in H.
      destruct (negb (Nat.eqb (length (cyrillic_to_latin fs)) 0));
        inversion H; reflexivity.
    + inversion H. reflexivity.
  - intros H. inversion H. left. split; reflexivity.
Qed.

(** The steps of a run of [normalize] that passes the type filter and
    raises nothing. *)
Lemma normalize_run cp o :
  normalize cp = Ok o ->
  checkpoint_type_en cp = Ok (JStr AUTOMOBILE) ->
  exists st t id lat lon nc0 nc1 nc2 c,
    status_en cp = Ok st /\ title_ru cp = Ok t /\
    py_get cp k_id JNull = Ok id /\
    py_get cp k_latitude JNull = Ok lat /\
    py_get cp k_longitude JNull = Ok lon /\
    set_names [] t = Ok nc0 /\
    set_country (dict_set (dict_set nc0 k_status (classify_status st)) k_id id) cp
      = Ok nc1 /\
    set_foreign (dict_set (dict_set nc1 k_latitude lat) k_longitude lon) cp
      = Ok nc2 /\
    py_get cp k_condition JNull = Ok c /\
    o = (if py_eq_True c then Some nc2 else None).
Proof.
  unfold normalize. intros H Hty. rewrite Hty in H. cbn [bind] in H.
  bind_inv H. rename x into st, Hx into Hst.
  bind_inv H. rename x into t, Hx into Ht.
  change (py_eq_str (JStr AUTOMOBILE) AUTOMOBILE) with true in H. cbv iota in H.
  bind_inv H. rename x into nc0, Hx into Hnc0.
  bind_inv H. rename x into id, Hx into Hid.
  bind_inv H. rename x into nc1, Hx into Hnc1.
  bind_inv H. rename x into lat, Hx into Hlat.
  bind_inv H. rename x into lon, Hx into Hlon.
  bind_inv H. rename x into nc2, Hx into Hnc2.
  bind_inv H. rename x into c, Hx into Hc.
  exists st, t, id, lat, lon, nc0, nc1, nc2, c.
  repeat split; try assumption.
  destruct (py_eq_True c); inversion H; reflexivity.
Qed.

Lemma normalize_record cp r :
  normalize cp = Ok (Some r) ->
  exists st t id lat lon nc0 nc1,
    status_en cp = Ok st /\ title_ru cp = Ok t /\
    py_get cp k_id JNull = Ok id /\
    py_get cp k_latitude JNull = Ok lat /\
    py_get cp k_longitude JNull = Ok lon /\
    set_names [] t = Ok nc0 /\
    set_country (dict_set (dict_set nc0 k_status (classify_status st)) k_id id) cp
      = Ok nc1 /\
    set_foreign (dict_set (dict_set nc1 k_latitude lat) k_longitude lon) cp = Ok r.
Proof.
  intros H. pose proof (normalize_admitted _ _ H) as [c [Hty _]].
  destruct (normalize_run _ _ H Hty)
    as (st & t & id & lat & lon & nc0 & nc1 & nc2 & c' & H1 & H2 & H3 & H4 & H5
        & H6 & H7 & H8 & H9 & H10).
  destruct (py_eq_True c'); inversion H10; subst nc2.
  exists st, t, id, lat, lon, nc0, nc1. repeat split; assumption.
Qed.

(** The country step leaves every other field as it was. *)
Lemma set_country_other nc cp nc' k :
  set_country nc cp = Ok nc' -> str_eqb k_country k = false ->
  dict_lookup nc' k = dict_lookup nc k.
Proof.
  intros H Hk. apply set_country_cases in H.
  destruct H as [oc [_ [[_ ->] | [_ [o [_ ->]]]]]]; [reflexivity|].
  rewrite dict_lookup_set, Hk. reflexivity.
Qed.

(** C3: a checkpoint that passes the type filter, has no local-language
    title and carries a foreign checkpoint name is not normalised: the run
    of [normalize] on it raises an exception, whatever its [condition]; on
    the sample checkpoint the exception is the [KeyError] of the read of
    [new_checkpoint['name_en']] on line 92, and it ends the whole script. *)
Theorem untitled_with_foreign_name_raises cp t f :
  checkpoint_type_en cp = Ok (JStr AUTOMOBILE) ->
  title_ru cp = Ok t -> py_truthy t = false ->
  foreign_checkpoint_ru cp = Ok f -> py_truthy f = true ->
  (exists e, normalize cp = Raise e)
  /\ normalize untitled_with_foreign_name = Raise KeyError
  /\ extract_ru_borders (document [untitled_with_foreign_name]) = Raise KeyError.
Proof.
  intros Hty Ht Hfalsy Hf Htruthy.
  split; [|split; vm_compute; reflexivity].
  destruct (normalize cp) as [o|e] eqn:Hn; [|exists e; reflexivity].
  exfalso.
  destruct (normalize_run _ _ Hn Hty)
    as (st & t' & id & lat & lon & nc0 & nc1 & nc2 & c & H1 & H2 & H3 & H4 & H5
        & H6 & H7 & H8 & _).
  rewrite Ht in H2. inversion H2; subst t'. clear H2.
  apply set_names_cases in H6.
  destruct H6 as [[_ ->] | [s [-> [Hs _]]]].
  2:{ destruct s; [apply Hs; reflexivity | discriminate Hfalsy]. }
  apply set_foreign_cases in H8. destruct H8 as [f' [Hf' H8]].
  rewrite Hf in Hf'. inversion Hf'; subst f'. clear Hf'.
  destruct H8 as [[Hff _] | (fs & name_en & _ & _ & Hlook & _)]; [congruence|].
  revert Hlook. lookup_set.
  rewrite (set_country_other _ _ _ _ H7) by reflexivity.
  lookup_set. cbn [dict_lookup]. discriminate.
Qed.

Lemma untitled_with_foreign_name_raises_witness :
  (exists e, normalize untitled_with_foreign_name = Raise e)
  /\ normalize untitled_with_foreign_name = Raise KeyError
  /\ extract_ru_borders (document [untitled_with_foreign_name]) = Raise KeyError.
Proof.
  apply (@untitled_with_foreign_name_raises untitled_with_foreign_name
           JNull (JStr (u "Маньчжурия")));
    vm_compute; reflexivity.
Defined.

(** Without a foreign name such a checkpoint is kept, with a null
    [name]. *)
Lemma untitled_retained cp t r :
  normalize cp = Ok (Some r) ->
  title_ru cp = Ok t -> py_truthy t = false ->
  dict_lookup r k_name = Some JNull /\ dict_lookup r k_name_en = None.
Proof.
  intros Hn Ht Hfalsy.
  destruct (normalize_record _ _ Hn)
    as (st & t' & id & lat & lon & nc0 & nc1 & H1 & H2 & H3 & H4 & H5
        & H6 & H7 & H8).
  rewrite Ht in H2. inversion H2; subst t'. clear H2.
  apply set_names_cases in H6.
  destruct H6 as [[_ ->] | [s [-> [Hs _]]]].
  2:{ destruct s; [exfalso; apply Hs; reflexivity | discriminate Hfalsy]. }
  apply set_foreign_cases in H8. destruct H8 as [f' [Hf' H8]].
  destruct H8 as [[Hff ->] | (fs & name_en & _ & _ & Hlook & _)].
  - lookup_set. rewrite !(set_country_other _ _ _ _ H7) by reflexivity.
    lookup_set. cbn [dict_lookup]. split; reflexivity.
  - exfalso. revert Hlook. lookup_set.
    rewrite (set_country_other _ _ _ _ H7) by reflexivity.
    lookup_set. cbn [dict_lookup]. discriminate.
Qed.

Lemma untitled_retained_sample :
  dict_lookup untitled_record k_name = Some JNull
  /\ dict_lookup untitled_record k_name_en = None.
Proof.
  apply (untitled_retained untitled JNull untitled_record);
    vm_compute; reflexivity.
Defined.

(** ** The grouping key *)

Lemma record_country cp r :
  normalize cp = Ok (Some r) ->
  exists oc, py_get cp k_foreign_country JNull = Ok oc /\
    ((py_truthy oc = false /\ dict_lookup r k_country = None) \/
     (py_truthy oc = true /\ exists o, oc = JObj o /\
        dict_lookup r k_country = Some (dict_get o k_iso_code JNull))).
Proof.
  intros Hn.
  destruct (normalize_record _ _ Hn)
    as (st & t & id & lat & lon & nc0 & nc1 & H1 & H2 & H3 & H4 & H5
        & H6 & H7 & H8).
  assert (Hr : dict_lookup r k_country = dict_lookup nc1 k_country).
  { apply set_foreign_cases in H8. destruct H8 as [f [_ H8]].
    destruct H8 as [[_ ->] | (fs & name_en & _ & _ & _ & ->)].
    - lookup_set. reflexivity.
    - cbv zeta.
      destruct (py_truthy name_en &&
                negb (Nat.eqb (length (cyrillic_to_latin fs)) 0));
        lookup_set; reflexivity. }
  assert (H0 : dict_lookup nc0 k_country = None).
  { apply set_names_cases in H6.
    destruct H6 as [[_ ->] | [s [_ [_ ->]]]]; cbv zeta; lookup_set;
      reflexivity. }
  apply set_country_cases in H7. destruct H7 as [oc [Hoc H7]].
  exists oc. split; [exact Hoc|].
  destruct H7 as [[Hf ->] | [Ht [o [-> ->]]]].
  - left. split; [exact Hf|]. rewrite Hr. lookup_set. exact H0.
  - right. split; [exact Ht|]. exists o. split; [reflexivity|].
    rewrite Hr. lookup_set. reflexivity.
Qed.

(** C7: the record of a checkpoint whose foreign country is given without
    an ISO code (null or missing in a non-empty object) has the key [None],
    not the string "unknown", which is the key only when the foreign
    country itself is absent or empty; on the sample document the two
    records end in two different buckets. *)
Theorem null_iso_code_key cp r o :
  normalize cp = Ok (Some r) ->
  py_get cp k_foreign_country JNull = Ok (JObj o) ->
  o <> [] -> dict_get o k_iso_code JNull = JNull ->
  region_key r = JNull
  /\ key_eqb (JStr UNKNOWN) JNull = false
  /\ region_key no_foreign_country_record = JStr UNKNOWN
  /\ extract_ru_borders (document [null_iso_code; no_foreign_country]) =
     Ok ([ (JNull, [null_iso_code_record]);
           (JStr UNKNOWN, [no_foreign_country_record]) ],
         [null_iso_code_record; no_foreign_country_record]).
Proof.
  intros Hn Hoc Ho Hiso.
  split; [|repeat split; vm_compute; reflexivity].
  destruct (record_country _ _ Hn) as [oc [Hoc' H]].
  rewrite Hoc in Hoc'. inversion Hoc'; subst oc. clear Hoc'.
  unfold region_key, dict_get at 1.
  destruct H as [[Hf _] | [_ [o' [Ho' ->]]]].
  - destruct o; [exfalso; apply Ho; reflexivity | discriminate Hf].
  - inversion Ho'; subst o'. exact Hiso.
Qed.

Lemma null_iso_code_key_witness :
  region_key null_iso_code_record = JNull
  /\ key_eqb (JStr UNKNOWN) JNull = false
  /\ region_key no_foreign_country_record = JStr UNKNOWN
  /\ extract_ru_borders (document [null_iso_code; no_foreign_country]) =
     Ok ([ (JNull, [null_iso_code_record]);
           (JStr UNKNOWN, [no_foreign_country_record]) ],
         [null_iso_code_record; no_foreign_country_record]).
Proof.
  apply (null_iso_code_key null_iso_code null_iso_code_record [(k_iso_code, JNull)]).
  - vm_compute. reflexivity.
  - vm_compute. reflexivity.
  - discriminate.
  - vm_compute. reflexivity.
Defined.

(** A record has a [country] field exactly when the checkpoint's foreign
    country is a non-empty object, and the field is then its [iso_code],
    null when there is none. *)
Lemma country_field_rule cp r :
  normalize cp = Ok (Some r) ->
  exists oc, py_get cp k_foreign_country JNull = Ok oc /\
    ((py_truthy oc = false /\ dict_lookup r k_country = None) \/
     (py_truthy oc = true /\ exists o, oc = JObj o /\
        dict_lookup r k_country = Some (dict_get o k_iso_code JNull))).
Proof. apply record_country. Qed.

Lemma country_field_rule_sample :
  exists oc, py_get zabaykalsk k_foreign_country JNull = Ok oc /\
    ((py_truthy oc = false /\ dict_lookup zabaykalsk_record k_country = None) \/
     (py_truthy oc = true /\ exists o, oc = JObj o /\
        dict_lookup zabaykalsk_record k_country =
        Some (dict_get o k_iso_code JNull))).
Proof.
  apply (country_field_rule zabaykalsk zabaykalsk_record).
  vm_compute. reflexivity.
Defined.

(** ** Geo-emission *)

Section GeoEmissionFacts.

Variable float_of_str : pystr -> option spec_float.

(** An item whose two coordinates convert is emitted as one feature, and
    the count of skipped items stays. *)
Lemma emit_item_feature features skipped d lat lon :
  read_coordinates float_of_str (JObj d) = Ok (lat, lon) ->
  emit_item float_of_str (features, skipped) (JObj d) =
  Ok (features ++ [make_feature lon lat (build_properties d)], skipped).
Proof. unfold emit_item. intros ->. reflexivity. Qed.

(** An item whose conversion raises [ValueError] or [TypeError] is
    skipped and counted. *)
Lemma emit_item_skip features skipped item e :
  read_coordinates float_of_str item = Raise e -> caught e = true ->
  emit_item float_of_str (features, skipped) item = Ok (features, S skipped).
Proof. unfold emit_item. intros -> ->. reflexivity. Qed.

Lemma read_coordinates_dict d :
  read_coordinates float_of_str (JObj d) =
  (lat <- py_float float_of_str (dict_get d k_latitude (JInt 0)) ;;
   lon <- py_float float_of_str (dict_get d k_longitude (JInt 0)) ;;
   Ok (lat, lon)).
Proof. reflexivity. Qed.

End GeoEmissionFacts.

(** C9: an item whose latitude is an integer too large for a binary64 is
    neither emitted nor skipped: [float] raises [OverflowError], which the
    clause [except (ValueError, TypeError)] does not catch, and the
    conversion of the whole array ends there. *)
Theorem huge_coordinate_is_fatal float_of_str state d z s :
  dict_lookup d k_latitude = Some (JInt z) ->
  binary64_of_Z z = S754_infinity s ->
  emit_item float_of_str state (JObj d) = Raise OverflowError
  /\ json_to_geojson float_of_str (JArr [JObj d]) = Raise OverflowError.
Proof.
  intros Hlat Hz.
  assert (H : read_coordinates float_of_str (JObj d) = Raise OverflowError).
  { rewrite read_coordinates_dict. unfold dict_get. rewrite Hlat.
    unfold py_float at 1. rewrite Hz. reflexivity. }
  assert (He : forall st, emit_item float_of_str st (JObj d) = Raise OverflowError).
  { intros [features skipped]. unfold emit_item. rewrite H. reflexivity. }
  split; [apply He|].
  unfold json_to_geojson. cbn [for_each]. rewrite He. reflexivity.
Qed.

Lemma huge_coordinate_is_fatal_witness :
  emit_item decimal_float_of_str ([], O) item_huge_latitude = Raise OverflowError
  /\ json_to_geojson decimal_float_of_str (JArr [item_huge_latitude])
     = Raise OverflowError.
Proof.
  apply (huge_coordinate_is_fatal decimal_float_of_str ([], O) _ (10 ^ 400) false).
  - vm_compute. reflexivity.
  - vm_compute. reflexivity.
Defined.

(** C10, as amended: an item that lacks one coordinate key is emitted with
    0.0 on that axis provided the other coordinate, taken as 0 when it is
    absent too, converts to a float. *)
Theorem missing_coordinate_defaults float_of_str features skipped d
    (latitude_missing : bool) v :
  dict_lookup d (if latitude_missing then k_latitude else k_longitude) = None ->
  py_float float_of_str
    (dict_get d (if latitude_missing then k_longitude else k_latitude) (JInt 0))
    = Ok v ->
  emit_item float_of_str (features, skipped) (JObj d) =
  Ok (features ++
        [make_feature (if latitude_missing then v else S754_zero false)
                      (if latitude_missing then S754_zero false else v)
                      (build_properties d)],
      skipped).
Proof.
  intros Hmiss Hother.
  apply emit_item_feature. rewrite read_coordinates_dict.
  destruct latitude_missing.
  - unfold dict_get at 1. rewrite Hmiss, Hother. reflexivity.
  - rewrite Hother. unfold dict_get. rewrite Hmiss. reflexivity.
Qed.

Lemma missing_coordinate_defaults_witness :
  emit_item decimal_float_of_str ([], O) item_no_latitude =
  Ok ([] ++ [make_feature float_113 (S754_zero false)
               (build_properties [ (k_name, JStr (u "Zabaykalsk"));
                                   (k_longitude, JStr (u "113.0")) ])],
      O).
Proof.
  apply (missing_coordinate_defaults decimal_float_of_str [] O
           [ (k_name, JStr (u "Zabaykalsk")); (k_longitude, JStr (u "113.0")) ]
           true float_113).
  - vm_compute. reflexivity.
  - vm_compute. reflexivity.
Defined.

(** C10 as stated fails: an item with no latitude key is skipped all the
    same when its longitude does not convert. *)
Lemma missing_latitude_counterexample :
  match item_null_longitude with
     | JObj d => dict_lookup d k_latitude
     | _ => Some JNull
     end = None
  /\ emit_item decimal_float_of_str ([], O) item_null_longitude = Ok ([], 1)
  /\ json_to_geojson decimal_float_of_str (JArr [item_null_longitude]) =
     Ok (JObj [ (k_type, JStr s_FeatureCollection); (k_features, JArr []) ], 1).
Proof. repeat split; vm_compute; reflexivity. Qed.

(** The round trip of the specification: longitude first, as floats. *)
Example geo_emission_round_trip :
  json_to_geojson decimal_float_of_str (JArr [item_zabaykalsk]) =
  Ok (JObj [ (k_type, JStr s_FeatureCollection);
             (k_features,
              JArr [ make_feature float_113 float_51_5
                       [ (k_name, JStr (u "Zabaykalsk")); (k_status, JInt 1) ] ]) ],
      O)
  /\ float_eq_Z float_113 113 = true
  /\ SFeqb (SFmul 53 1024 float_51_5 (binary64_of_Z 2)) (binary64_of_Z 103) = true.
Proof. repeat split; vm_compute; reflexivity. Qed.

(** ** The properties bag and the counts *)

Lemma dict_set_fresh d k v :
  ~ In k (map fst d) -> dict_set d k v = d ++ [(k, v)].
Proof.
  induction d as [|[k0 v0] d IH]; intros Hk; [reflexivity|].
  cbn [dict_set]. destruct (str_eqb k0 k) eqn:E.
  - apply str_eqb_eq in E. subst k0. exfalso. apply Hk. left. reflexivity.
  - rewrite IH; [reflexivity|]. intros H. apply Hk. right. exact H.
Qed.

Lemma build_properties_from acc d :
  NoDup (map fst acc ++ map fst d) ->
  fold_left
    (fun properties kv =>
       if str_eqb (fst kv) k_latitude || str_eqb (fst kv) k_longitude
       then properties
       else dict_set properties (fst kv) (snd kv))
    d acc
  = acc ++ filter is_property d.
Proof.
  revert acc. induction d as [|[k v] d IH]; intros acc Hnd.
  - cbn. rewrite app_nil_r. reflexivity.
  - cbn [fold_left filter fst snd]. unfold is_property at 1. cbn [fst].
    cbn [map fst] in Hnd.
    destruct (str_eqb k k_latitude || str_eqb k k_longitude); cbn [negb].
    + apply IH. apply NoDup_remove_1 in Hnd. exact Hnd.
    + pose proof (NoDup_remove_2 _ _ _ Hnd) as Hk.
      rewrite dict_set_fresh.
      2:{ intros H. apply Hk. apply in_or_app. left. exact H. }
      rewrite IH.
      * rewrite <- app_assoc. reflexivity.
      * rewrite map_app. cbn [map fst]. rewrite <- app_assoc. exact Hnd.
Qed.

(** The properties of a feature are the fields of the item other than the
    two coordinates, in the item's order. *)
Lemma build_properties_filter d :
  NoDup (map fst d) -> build_properties d = filter is_property d.
Proof. intros Hnd. apply (build_properties_from [] d). exact Hnd. Qed.

(** Each item of the array ends as one feature or as one more skipped
    item. *)
Lemma emit_items_count float_of_str items :
  forall features skipped features' skipped',
    for_each items (features, skipped) (emit_item float_of_str)
      = Ok (features', skipped') ->
    length features' + skipped' = length features + skipped + length items.
Proof.
  induction items as [|item items IH]; intros fs n fs' n' H.
  - inversion H. cbn [length]. lia.
  - cbn [for_each] in H. apply bind_Ok_inv in H.
    destruct H as [[fs1 n1] [Hstep Hrest]].
    apply IH in Hrest. rewrite Hrest. cbn [length].
    unfold emit_item in Hstep.
    destruct (read_coordinates float_of_str item) as [[lat lon]|e].
    + apply bind_Ok_inv in Hstep. destruct Hstep as [fields [_ Hstep]].
      inversion Hstep. rewrite length_app. cbn [length]. lia.
    + destruct (caught e); [|discriminate Hstep].
      inversion Hstep. lia.
Qed.

(** What [json_to_geojson] does with an array of objects whose
    coordinates convert or raise [ValueError] or [TypeError]: the result is
    a feature collection; an item whose coordinates convert gives one
    [Point] feature with the longitude first and the item's other fields as
    properties, any other item is counted as skipped, and the features and
    the skipped items add up to the items. *)
Lemma json_to_geojson_rule float_of_str :
  (forall features skipped d lat lon,
     NoDup (map fst d) ->
     py_float float_of_str (dict_get d k_latitude (JInt 0)) = Ok lat ->
     py_float float_of_str (dict_get d k_longitude (JInt 0)) = Ok lon ->
     emit_item float_of_str (features, skipped) (JObj d) =
     Ok (features ++
           [JObj [ (k_type, JStr s_Feature);
                   (k_geometry,
                    JObj [ (k_type, JStr s_Point);
                           (k_coordinates, JArr [JFloat lon; JFloat lat]) ]);
                   (k_properties, JObj (filter is_property d)) ]],
         skipped))
  /\ (forall features skipped item e,
        read_coordinates float_of_str item = Raise e -> caught e = true ->
        emit_item float_of_str (features, skipped) item = Ok (features, S skipped))
  /\ (forall items doc skipped,
        json_to_geojson float_of_str (JArr items) = Ok (doc, skipped) ->
        exists features,
          doc = JObj [ (k_type, JStr s_FeatureCollection);
                       (k_features, JArr features) ]
          /\ length features + skipped = length items).
Proof.
  split; [|split].
  - intros features skipped d lat lon Hnd Hlat Hlon.
    rewrite (emit_item_feature float_of_str features skipped d lat lon).
    + unfold make_feature. rewrite build_properties_filter by exact Hnd.
      reflexivity.
    + rewrite read_coordinates_dict, Hlat, Hlon. reflexivity.
  - intros features skipped item e. apply emit_item_skip.
  - intros items doc skipped H. unfold json_to_geojson in H.
    apply bind_Ok_inv in H. destruct H as [[fs n] [Hrun H]].
    inversion H; subst. exists fs. split; [reflexivity|].
    apply emit_items_count in Hrun. cbn [fst snd length] in *. lia.
Qed.

(** ** Free-text status extraction *)

Lemma starts_with_app p s : starts_with p (p ++ s) = true.
Proof.
  induction p as [|c p IH]; [reflexivity|].
  simpl. rewrite N.eqb_refl. exact IH.
Qed.

(** The marker does not overlap itself: it cannot begin inside a shorter
    text that is followed by the marker. *)
Lemma marker_no_overlap p tail :
  p <> [] -> starts_with STATUS_MARKER p = false ->
  starts_with STATUS_MARKER (p ++ STATUS_MARKER ++ tail) = false.
Proof.
  intros Hp Hs.
  destruct (starts_with STATUS_MARKER (p ++ STATUS_MARKER ++ tail)) eqn:H;
    [|reflexivity].
  exfalso. unfold STATUS_MARKER in *.
  destruct p as [|c1 p]; [apply Hp; reflexivity|].
  cbn [app starts_with] in H, Hs.
  apply andb_prop in H. destruct H as [H1 H]. rewrite H1 in Hs. cbn [andb] in Hs.
  destruct p as [|c2 p]; [cbn in H; discriminate H|].
  cbn [app starts_with] in H, Hs.
  apply andb_prop in H. destruct H as [H2 H]. rewrite H2 in Hs. cbn [andb] in Hs.
  destruct p as [|c3 p]; [cbn in H; discriminate H|].
  cbn [app starts_with] in H, Hs.
  apply andb_prop in H. destruct H as [H3 H]. rewrite H3 in Hs. cbn [andb] in Hs.
  destruct p as [|c4 p]; [cbn in H; discriminate H|].
  cbn [app starts_with] in H, Hs.
  apply andb_prop in H. destruct H as [H4 H]. rewrite H4 in Hs. cbn [andb] in Hs.
  destruct p as [|c5 p]; [cbn in H; discriminate H|].
  cbn [app starts_with] in H, Hs.
  apply andb_prop in H. destruct H as [H5 H]. rewrite H5 in Hs. cbn [andb] in Hs.
  destruct p as [|c6 p]; [cbn in H; discriminate H|].
  cbn [app starts_with] in H, Hs.
  apply andb_prop in H. destruct H as [H6 H]. rewrite H6 in Hs. cbn [andb] in Hs.
  destruct p as [|c7 p]; [cbn in H; discriminate H|].
  cbn [app starts_with] in H, Hs.
  apply andb_prop in H. destruct H as [H7 H]. rewrite H7 in Hs.
  discriminate Hs.
Qed.

Lemma status_search_skip pre tail :
  contains STATUS_MARKER pre = false ->
  status_search (pre ++ STATUS_MARKER ++ tail) =
  status_search (STATUS_MARKER ++ tail).
Proof.
  induction pre as [|c pre IH]; intros Hc; [reflexivity|].
  cbn [contains] in Hc. apply orb_false_elim in Hc. destruct Hc as [Hs Hc].
  rewrite <- (IH Hc).
  change ((c :: pre) ++ STATUS_MARKER ++ tail)
    with (c :: (pre ++ STATUS_MARKER ++ tail)).
  cbn [status_search]. unfold status_match_here at 1.
  change (c :: (pre ++ STATUS_MARKER ++ tail))
    with ((c :: pre) ++ STATUS_MARKER ++ tail).
  rewrite marker_no_overlap by (discriminate || exact Hs).
  reflexivity.
Qed.

Lemma status_search_absent d :
  contains STATUS_MARKER d = false -> status_search d = None.
Proof.
  induction d as [|c d IH]; intros Hc.
  - reflexivity.
  - cbn [contains] in Hc. apply orb_false_elim in Hc. destruct Hc as [Hs Hc].
    cbn [status_search]. unfold status_match_here. rewrite Hs.
    apply IH. exact Hc.
Qed.

Lemma space_run_app ws s :
  forallb is_space ws = true -> starts_with_text s = true ->
  space_run (ws ++ s) = length ws.
Proof.
  intros Hws Hs. induction ws as [|c ws IH].
  - destruct s as [|x s]; [discriminate Hs|].
    simpl in *. apply negb_true_iff in Hs. rewrite Hs. reflexivity.
  - cbn [forallb] in Hws. apply andb_prop in Hws. destruct Hws as [Hc Hws].
    simpl. rewrite Hc, (IH Hws). reflexivity.
Qed.

Lemma skipn_length_app {A : Type} (a b : list A) : skipn (length a) (a ++ b) = b.
Proof. induction a as [|x a IH]; [reflexivity | exact IH]. Qed.

Lemma capture_run_app text rest :
  forallb capturable text = true -> ends_capture rest = true ->
  capture_run (text ++ rest) = text.
Proof.
  intros Ht Hr. induction text as [|c text IH].
  - destruct rest as [|x rest]; [reflexivity|].
    simpl in *. apply negb_true_iff in Hr. rewrite Hr. reflexivity.
  - cbn [forallb] in Ht. apply andb_prop in Ht. destruct Ht as [Hc Ht].
    simpl. rewrite Hc, (IH Ht). reflexivity.
Qed.

(** At the marker the pattern takes the whitespace that follows, then the
    text up to the line break or the [<]. *)
Lemma status_match_at_marker ws text rest :
  forallb is_space ws = true ->
  starts_with_text text = true ->
  forallb capturable text = true ->
  ends_capture rest = true ->
  status_match_here (STATUS_MARKER ++ ws ++ text ++ rest) = Some text.
Proof.
  intros Hws Hst Hcap Hend.
  unfold status_match_here. rewrite starts_with_app, skipn_length_app.
  rewrite space_run_app; [| exact Hws |].
  2:{ destruct text; [discriminate Hst | exact Hst]. }
  destruct ws as [|w ws]; cbn [length backtrack_capture].
  - cbn [skipn app]. rewrite capture_run_app by assumption.
    destruct text; [discriminate Hst | reflexivity].
  - rewrite (skipn_length_app (w :: ws)).
    rewrite capture_run_app by assumption.
    destruct text; [discriminate Hst | reflexivity].
Qed.

Example extract_status_samples :
  extract_status (JStr (u "Статус: Двухсторонний<br>Режим работы")) = JInt 1
  /\ extract_status (JStr (u "Адрес<br>Статус: многосторонний")) = JInt 2
  /\ extract_status (JStr (u "Статус: закрыт")) = JNull
  /\ extract_status (JStr (u "Режим работы: круглосуточно")) = JNull.
Proof. repeat split; vm_compute; reflexivity. Qed.

(** C5 as stated fails: the test is not case-insensitive.  The captured
    text "ДВУХСТОРОННИЙ" is the bilateral term in capitals, and the result
    is null. *)
Lemma upper_case_status_counterexample :
  status_search (u "Статус: ДВУХСТОРОННИЙ<br>") = Some (u "ДВУХСТОРОННИЙ")
  /\ map cyr_lower (u "ДВУХСТОРОННИЙ") = BILATERAL_LOW
  /\ extract_status (JStr (u "Статус: ДВУХСТОРОННИЙ<br>")) = JNull.
Proof. repeat split; vm_compute; reflexivity. Qed.

(** ** The parenthetical strip *)

Lemma paren_match_space c s :
  is_space c = true -> paren_match (c :: s) = option_map S (paren_match s).
Proof.
  intros Hc. unfold paren_match. cbn [space_run]. rewrite Hc. cbn [skipn].
  destruct (skipn (space_run s) s) as [|x inner]; [reflexivity|].
  destruct (x =? LPAREN)%N; [|reflexivity].
  destruct (lazy_to_rparen inner); reflexivity.
Qed.

Lemma paren_match_text c s :
  is_space c = false -> (c =? LPAREN)%N = false -> paren_match (c :: s) = None.
Proof.
  intros Hc Hp. unfold paren_match. cbn [space_run]. rewrite Hc. cbn [skipn].
  rewrite Hp. reflexivity.
Qed.

Lemma has_char_cons c x s :
  has_char c (x :: s) = (c =? x)%N || has_char c s.
Proof. reflexivity. Qed.

Lemma has_char_app c s1 s2 :
  has_char c (s1 ++ s2) = has_char c s1 || has_char c s2.
Proof. unfold has_char. apply existsb_app. Qed.

(** No match begins inside a text without [(] that does not run into the
    whitespace before a group. *)
Lemma paren_match_none p tail :
  p <> [] -> has_char LPAREN p = false -> no_trailing_space p = true ->
  paren_match (p ++ tail) = None.
Proof.
  induction p as [|c p IH]; intros Hp Hl Ht; [exfalso; apply Hp; reflexivity|].
  rewrite has_char_cons in Hl. apply orb_false_elim in Hl.
  destruct Hl as [Hc Hl]. rewrite N.eqb_sym in Hc.
  cbn [app]. destruct (is_space c) eqn:Hs.
  - rewrite paren_match_space by exact Hs.
    destruct p as [|x p].
    + unfold no_trailing_space in Ht. cbn in Ht. rewrite Hs in Ht. discriminate Ht.
    + rewrite IH; [reflexivity | discriminate | exact Hl |].
      unfold no_trailing_space in *. cbn [rev] in Ht |- *.
      destruct (rev p ++ [x]) eqn:E.
      * destruct (rev p); discriminate E.
      * cbn [app] in Ht. exact Ht.
  - apply paren_match_text; assumption.
Qed.

Lemma no_trailing_space_tail c x p :
  no_trailing_space (c :: x :: p) = no_trailing_space (x :: p).
Proof.
  unfold no_trailing_space. cbn [rev].
  destruct (rev p ++ [x]) eqn:E; [destruct (rev p); discriminate E|].
  reflexivity.
Qed.

Lemma re_sub_parens_skip k x y :
  length x = k -> re_sub_parens k (x ++ y) = re_sub_parens 0 y.
Proof.
  revert k. induction x as [|c x IH]; intros k Hk.
  - subst k. reflexivity.
  - destruct k as [|k]; [discriminate Hk|].
    cbn [app re_sub_parens]. apply IH. simpl in Hk. lia.
Qed.

(** The scan copies a text without [(] that does not run into the
    whitespace before a group. *)
Lemma re_sub_parens_prefix a tail :
  has_char LPAREN a = false -> no_trailing_space a = true ->
  re_sub_parens 0 (a ++ tail) = a ++ re_sub_parens 0 tail.
Proof.
  induction a as [|c a IH]; intros Hl Ht; [reflexivity|].
  pose proof (paren_match_none (c :: a) tail) as Hm.
  cbn [app] in Hm |- *. cbn [re_sub_parens].
  rewrite Hm by (discriminate || assumption).
  rewrite has_char_cons in Hl. apply orb_false_elim in Hl.
  rewrite IH; [reflexivity | apply Hl |].
  destruct a as [|x a]; [reflexivity|].
  rewrite <- (no_trailing_space_tail c). exact Ht.
Qed.

Lemma space_run_before ws s :
  forallb is_space ws = true -> no_leading_space s = true ->
  space_run (ws ++ s) = length ws.
Proof.
  intros Hws Hs. destruct s as [|x s].
  - rewrite app_nil_r. clear Hs. induction ws as [|c ws IH]; [reflexivity|].
    cbn [forallb] in Hws. apply andb_prop in Hws. destruct Hws as [Hc Hws].
    simpl. rewrite Hc, (IH Hws). reflexivity.
  - apply space_run_app; assumption.
Qed.

Lemma lazy_to_rparen_app inner tail :
  has_char RPAREN inner = false -> has_char NEWLINE inner = false ->
  lazy_to_rparen (inner ++ RPAREN :: tail) = Some (length inner).
Proof.
  induction inner as [|c inner IH]; intros Hr Hn; [reflexivity|].
  rewrite has_char_cons in Hr, Hn.
  apply orb_false_elim in Hr. apply orb_false_elim in Hn.
  destruct Hr as [Hr Hr']. destruct Hn as [Hn Hn'].
  rewrite N.eqb_sym in Hr. rewrite N.eqb_sym in Hn.
  cbn [app lazy_to_rparen length]. rewrite Hr, Hn, (IH Hr' Hn'). reflexivity.
Qed.

Lemma skipn_past_rparen inner tail :
  skipn (S (length inner)) (inner ++ RPAREN :: tail) = tail.
Proof. induction inner as [|c inner IH]; [reflexivity | exact IH]. Qed.

(** A whole group, with the whitespace around it, is one match. *)
Lemma paren_match_group ws1 inner ws2 rest :
  forallb is_space ws1 = true ->
  has_char RPAREN inner = false -> has_char NEWLINE inner = false ->
  forallb is_space ws2 = true -> no_leading_space rest = true ->
  paren_match (ws1 ++ LPAREN :: inner ++ RPAREN :: ws2 ++ rest) =
  Some (length (ws1 ++ LPAREN :: inner ++ RPAREN :: ws2)).
Proof.
  intros H1 Hr Hn H2 Hrest. unfold paren_match.
  rewrite space_run_before by (assumption || reflexivity).
  rewrite skipn_length_app.
  change (LPAREN =? LPAREN)%N with true. cbv iota.
  rewrite lazy_to_rparen_app by assumption.
  rewrite skipn_past_rparen.
  rewrite space_run_before by assumption.
  f_equal. rewrite !length_app. cbn [length]. rewrite !length_app. cbn [length]. lia.
Qed.

(** Deleting a group: the text before it is kept, the group and the
    whitespace around it go, and the scan carries on after it. *)
Lemma re_sub_parens_group a ws1 inner ws2 rest :
  has_char LPAREN a = false -> no_trailing_space a = true ->
  forallb is_space ws1 = true ->
  has_char RPAREN inner = false -> has_char NEWLINE inner = false ->
  forallb is_space ws2 = true -> no_leading_space rest = true ->
  re_sub_parens 0 (a ++ ws1 ++ LPAREN :: inner ++ RPAREN :: ws2 ++ rest) =
  a ++ re_sub_parens 0 rest.
Proof.
  intros Ha Hat H1 Hr Hn H2 Hrest.
  rewrite re_sub_parens_prefix by assumption. f_equal.
  pose proof (paren_match_group ws1 inner ws2 rest H1 Hr Hn H2 Hrest) as Hm.
  remember (ws1 ++ LPAREN :: inner ++ RPAREN :: ws2) as g eqn:Hg.
  assert (Hs : ws1 ++ LPAREN :: inner ++ RPAREN :: ws2 ++ rest = g ++ rest).
  { subst g. rewrite <- !app_assoc. cbn [app]. rewrite <- app_assoc. reflexivity. }
  rewrite Hs in Hm |- *.
  destruct g as [|c g]; [destruct ws1; discriminate Hg|].
  cbn [app] in Hm |- *. cbn [re_sub_parens]. rewrite Hm.
  apply re_sub_parens_skip. simpl. lia.
Qed.

Lemma paren_match_no_lparen s :
  has_char LPAREN s = false -> paren_match s = None.
Proof.
  induction s as [|c s IH]; intros Hl; [reflexivity|].
  rewrite has_char_cons in Hl. apply orb_false_elim in Hl.
  destruct Hl as [Hc Hl]. rewrite N.eqb_sym in Hc.
  destruct (is_space c) eqn:Hs.
  - rewrite paren_match_space by exact Hs. rewrite (IH Hl). reflexivity.
  - apply paren_match_text; assumption.
Qed.

Lemma re_sub_parens_no_lparen s :
  has_char LPAREN s = false -> re_sub_parens 0 s = s.
Proof.
  induction s as [|c s IH]; intros Hl; [reflexivity|].
  cbn [re_sub_parens]. rewrite paren_match_no_lparen by exact Hl.
  rewrite has_char_cons in Hl. apply orb_false_elim in Hl.
  rewrite IH by apply Hl. reflexivity.
Qed.

(** ** The name fields *)

Lemma record_names cp r s :
  normalize cp = Ok (Some r) -> title_ru cp = Ok (JStr s) -> s <> [] ->
  dict_lookup r k_name_ru = Some (JStr s)
  /\ dict_lookup r k_full_name = Some (JStr (cyrillic_to_latin s))
  /\ dict_lookup r k_name_en =
     Some (JStr (compute_name_en (cyrillic_to_latin s)))
  /\ exists f, foreign_checkpoint_ru cp = Ok f /\
       dict_lookup r k_name =
       Some (JStr
         (if py_truthy f
             && negb (Nat.eqb (length (compute_name_en (cyrillic_to_latin s))) 0)
             && negb (Nat.eqb (length (cyrillic_to_latin (fstr f))) 0)
          then compute_name_en (cyrillic_to_latin s) ++ SEPARATOR
                 ++ cyrillic_to_latin (fstr f)
          else compute_name_en (cyrillic_to_latin s))).
Proof.
  intros Hn Ht Hs.
  destruct (normalize_record _ _ Hn)
    as (st & t & id & lat & lon & nc0 & nc1 & H1 & H2 & H3 & H4 & H5
        & H6 & H7 & H8).
  rewrite Ht in H2. inversion H2; subst t. clear H2.
  apply set_names_cases in H6.
  destruct H6 as [[Hf _] | [s' [Heq [_ Hnc0]]]].
  { destruct s; [exfalso; apply Hs; reflexivity | discriminate Hf]. }
  inversion Heq; subst s'. clear Heq. cbv zeta in Hnc0.
  set (ne := compute_name_en (cyrillic_to_latin s)) in *.
  set (fn := cyrillic_to_latin s) in *.
  assert (L1 : dict_lookup nc0 k_name_ru = Some (JStr s))
    by (subst nc0; lookup_set; reflexivity).
  assert (L2 : dict_lookup nc0 k_full_name = Some (JStr fn))
    by (subst nc0; lookup_set; reflexivity).
  assert (L3 : dict_lookup nc0 k_name_en = Some (JStr ne))
    by (subst nc0; lookup_set; reflexivity).
  assert (L4 : dict_lookup nc0 k_name = Some (JStr ne))
    by (subst nc0; lookup_set; reflexivity).
  clear Hnc0.
  apply set_foreign_cases in H8. destruct H8 as [f [Hf H8]].
  destruct H8 as [[Hff ->] | (fs & name_en & -> & Hfs & Hlook & ->)].
  - lookup_set. rewrite !(set_country_other _ _ _ _ H7) by reflexivity.
    lookup_set.
    repeat split; try assumption.
    exists f. split; [exact Hf|]. rewrite Hff. exact L4.
  - revert Hlook. lookup_set.
    rewrite (set_country_other _ _ _ _ H7) by reflexivity.
    lookup_set. rewrite L3. intros Hlook.
    inversion Hlook; subst name_en. clear Hlook.
    cbv zeta. cbn [py_truthy fstr].
    assert (Htr : negb (Nat.eqb (length fs) 0) = true).
    { destruct fs; [exfalso; apply Hfs; reflexivity | reflexivity]. }
    destruct (negb (Nat.eqb (length ne) 0)
              && negb (Nat.eqb (length (cyrillic_to_latin fs)) 0)) eqn:Hc.
    + lookup_set. rewrite !(set_country_other _ _ _ _ H7) by reflexivity.
      lookup_set.
      repeat split; try assumption.
      exists (JStr fs). split; [exact Hf|].
      cbn [py_truthy fstr]. rewrite Htr. cbn [andb]. rewrite Hc. reflexivity.
    + lookup_set. rewrite !(set_country_other _ _ _ _ H7) by reflexivity.
      lookup_set.
      repeat split; try assumption.
      exists (JStr fs). split; [exact Hf|].
      cbn [py_truthy fstr]. rewrite Htr. cbn [andb]. rewrite Hc. exact L4.
Qed.

(** The end-to-end scenario of the specification. *)
Example zabaykalsk_scenario :
  dict_lookup zabaykalsk_record k_full_name = Some (JStr (u "Zabaykalsk (avto)"))
  /\ dict_lookup zabaykalsk_record k_name_en = Some (JStr (u "Zabaykalsk"))
  /\ dict_lookup zabaykalsk_record k_foreign_name = Some (JStr (u "Manchzhuriya"))
  /\ dict_lookup zabaykalsk_record k_name =
     Some (JStr (u "Zabaykalsk / Manchzhuriya"))
  /\ dict_lookup zabaykalsk_record k_status = Some (JInt 1)
  /\ extract_ru_borders (document [zabaykalsk]) =
     Ok ([(JStr (u "CN"), [zabaykalsk_record])], [zabaykalsk_record]).
Proof. repeat split; vm_compute; reflexivity. Qed.

(** C4 as stated fails: with two groups in the title both are deleted,
    where deleting the first one only would leave "PostYuzhnyy
    (gruzovoy)". *)
Lemma two_groups_counterexample :
  normalize two_groups = Ok (Some two_groups_record)
  /\ dict_lookup two_groups_record k_full_name =
     Some (JStr (u "Post (avto) Yuzhnyy (gruzovoy)"))
  /\ dict_lookup two_groups_record k_name_en = Some (JStr (u "PostYuzhnyy"))
  /\ u "PostYuzhnyy" <> u "PostYuzhnyy (gruzovoy)".
Proof.
  repeat split; try (vm_compute; reflexivity). vm_compute. discriminate.
Qed.

(** ** Grouping *)

Lemma for_each_app {A S : Type} (xs ys : list A) (acc : S)
    (body : S -> A -> result S) :
  for_each (xs ++ ys) acc body =
  (acc' <- for_each xs acc body ;; for_each ys acc' body).
Proof.
  revert acc. induction xs as [|x xs IH]; intros acc; [reflexivity|].
  cbn [app for_each]. destruct (body acc x) as [a|e]; [|reflexivity].
  cbn [bind]. apply IH.
Qed.

Lemma key_eqb_plain k x : plain_key k = true -> (key_eqb k x = true <-> x = k).
Proof.
  destruct k; try discriminate; intros _; destruct x; simpl;
    try (split; [discriminate | discriminate]).
  - split; reflexivity.
  - rewrite str_eqb_eq. split; [intros ->; reflexivity | intros H; inversion H; auto].
Qed.

Lemma key_eqb_plain_sym k x : plain_key k = true -> (key_eqb x k = true <-> x = k).
Proof.
  destruct k; try discriminate; intros _; destruct x; simpl;
    try (split; [discriminate | discriminate]).
  - split; reflexivity.
  - rewrite str_eqb_eq. split; [intros ->; reflexivity | intros H; inversion H; auto].
Qed.

Section BucketAppend.

Variable key : json.
Variable cp : dict.
Hypothesis key_plain : plain_key key = true.

Lemma bucket_append_keys m :
  map fst (bucket_append m key cp) = map fst m \/
  (~ In key (map fst m) /\ map fst (bucket_append m key cp) = map fst m ++ [key]).
Proof.
  induction m as [|[k l] m IH]; cbn [bucket_append map fst].
  - right. split; [intros [] | reflexivity].
  - destruct (key_eqb k key) eqn:E; cbn [map fst]; [left; reflexivity|].
    destruct IH as [IH | [Hn IH]].
    + left. rewrite IH. reflexivity.
    + right. split.
      * intros [H | H]; [|exact (Hn H)].
        subst k. assert (key_eqb key key = true) by (apply key_eqb_plain; auto).
        congruence.
      * rewrite IH. reflexivity.
Qed.

Lemma bucket_append_NoDup m :
  NoDup (map fst m) -> NoDup (map fst (bucket_append m key cp)).
Proof.
  intros Hnd. destruct (bucket_append_keys m) as [-> | [Hn ->]]; [exact Hnd|].
  apply NoDup_app; [exact Hnd | repeat constructor; intros [] |].
  intros x Hx [Hk | []]. subst x. exact (Hn Hx).
Qed.

Lemma bucket_append_buckets m k l' :
  NoDup (map fst m) ->
  In (k, l') (bucket_append m key cp) ->
  (k <> key /\ In (k, l') m) \/
  (k = key /\ ((exists l, In (k, l) m /\ l' = l ++ [cp]) \/
               (~ In key (map fst m) /\ l' = [cp]))).
Proof.
  induction m as [|[k0 l0] m IH]; cbn [bucket_append map fst]; intros Hnd Hin.
  - destruct Hin as [Hin | []]. inversion Hin; subst.
    right. split; [reflexivity|]. right. split; [intros [] | reflexivity].
  - inversion Hnd as [|? ? Hk0 Hnd']; subst.
    destruct (key_eqb k0 key) eqn:E.
    + apply key_eqb_plain_sym in E; [|exact key_plain]. subst k0.
      destruct Hin as [Hin | Hin].
      * inversion Hin; subst. right. split; [reflexivity|].
        left. exists l0. split; [left; reflexivity | reflexivity].
      * left. split; [|right; exact Hin].
        intros ->. apply Hk0. apply (in_map fst) in Hin. exact Hin.
    + assert (Hne : k0 <> key).
      { intros ->. assert (key_eqb key key = true) by (apply key_eqb_plain; auto).
        congruence. }
      destruct Hin as [Hin | Hin].
      * inversion Hin; subst. left. split; [exact Hne | left; reflexivity].
      * destruct (IH Hnd' Hin) as [[Hk Hm] | [Hk [[l [Hl Hl']] | [Hn Hl']]]].
        -- left. split; [exact Hk | right; exact Hm].
        -- right. split; [exact Hk|]. left. exists l. split; [right; exact Hl | exact Hl'].
        -- right. split; [exact Hk|]. right. split; [|exact Hl'].
           intros [H | H]; [exact (Hne H) | exact (Hn H)].
Qed.

Lemma bucket_append_keeps m k :
  In k (map fst m) -> In k (map fst (bucket_append m key cp)).
Proof.
  intros Hk. destruct (bucket_append_keys m) as [-> | [_ ->]]; [exact Hk|].
  apply in_or_app. left. exact Hk.
Qed.

Lemma bucket_append_has_key m : In key (map fst (bucket_append m key cp)).
Proof.
  induction m as [|[k l] m IH]; cbn [bucket_append map fst].
  - left. reflexivity.
  - destruct (key_eqb k key) eqn:E; cbn [map fst].
    + left. apply key_eqb_plain_sym in E; [exact E | exact key_plain].
    + right. exact IH.
Qed.

End BucketAppend.

Lemma records_of_key_snoc k p cp :
  records_of_key k (p ++ [cp]) =
  records_of_key k p ++ (if key_eqb k (region_key cp) then [cp] else []).
Proof. unfold records_of_key. rewrite filter_app. reflexivity. Qed.

(** When every record has a string or [None] key, the grouping succeeds;
    its buckets have pairwise different keys, each bucket holds exactly the
    records with its key, in the order of the flat list, and every record
    is in the bucket of its key. *)
Lemma group_by_region_partition processed :
  forallb (fun r => plain_key (region_key r)) processed = true ->
  exists m,
    group_by_region processed = Ok m
    /\ NoDup (map fst m)
    /\ (forall k l, In (k, l) m ->
          plain_key k = true /\ l <> [] /\ l = records_of_key k processed)
    /\ (forall r, In r processed ->
          exists l, In (region_key r, l) m /\ In r l).
Proof.
  unfold group_by_region.
  induction processed as [|cp p IH] using rev_ind; intros Hall.
  - exists []. repeat split; try constructor; intros; contradiction.
  - rewrite forallb_app in Hall. apply andb_prop in Hall.
    destruct Hall as [Hp Hcp]. cbn [forallb] in Hcp. rewrite andb_true_r in Hcp.
    destruct (IH Hp) as (m & Hrun & Hnd & Hb & Hin).
    exists (bucket_append m (region_key cp) cp).
    assert (Hkeys : forall r, In r p -> In (region_key r) (map fst m)).
    { intros r Hr. destruct (Hin r Hr) as [l [Hl _]].
      apply (in_map fst) in Hl. exact Hl. }
    assert (Hb' : forall k l, In (k, l) (bucket_append m (region_key cp) cp) ->
              plain_key k = true /\ l <> [] /\ l = records_of_key k (p ++ [cp])).
    { intros k l Hkl. rewrite records_of_key_snoc.
      destruct (bucket_append_buckets _ cp Hcp m k l Hnd Hkl)
        as [[Hk Hm] | [Hk [[l0 [Hl0 ->]] | [Hn ->]]]].
      - destruct (Hb k l Hm) as (Hpk & Hne & Hl).
        assert (E : key_eqb k (region_key cp) = false).
        { destruct (key_eqb k (region_key cp)) eqn:E; [|reflexivity].
          apply key_eqb_plain in E; [|exact Hpk]. congruence. }
        rewrite E, app_nil_r. split; [exact Hpk | split; [exact Hne | exact Hl]].
      - subst k. destruct (Hb _ l0 Hl0) as (Hpk & Hne & Hl).
        assert (E : key_eqb (region_key cp) (region_key cp) = true)
          by (apply key_eqb_plain; auto).
        rewrite E, <- Hl. split; [exact Hpk | split; [| reflexivity]].
        destruct l0; discriminate.
      - subst k.
        assert (E : key_eqb (region_key cp) (region_key cp) = true)
          by (apply key_eqb_plain; auto).
        rewrite E.
        assert (Hnone : records_of_key (region_key cp) p = []).
        { unfold records_of_key.
          destruct (filter (fun r => key_eqb (region_key cp) (region_key r)) p)
            as [|r l] eqn:F; [reflexivity|].
          exfalso. assert (Hr : In r (r :: l)) by (left; reflexivity).
          rewrite <- F in Hr. apply filter_In in Hr. destruct Hr as [Hr Hk].
          apply key_eqb_plain in Hk; [|exact Hcp].
          apply Hn. rewrite <- Hk. apply Hkeys. exact Hr. }
        rewrite Hnone. split; [exact Hcp | split; [discriminate | reflexivity]]. }
    split; [|split; [|split]].
    + rewrite for_each_app, Hrun. cbn [bind for_each]. unfold group_step.
      assert (Hh : hashable (region_key cp) = true)
        by (destruct (region_key cp); try discriminate Hcp; reflexivity).
      rewrite Hh. reflexivity.
    + apply bucket_append_NoDup; assumption.
    + exact Hb'.
    + intros r Hr.
      assert (Hk : In (region_key r) (map fst (bucket_append m (region_key cp) cp))).
      { apply in_app_or in Hr. destruct Hr as [Hr | [<- | []]].
        - apply bucket_append_keeps; [exact Hcp | apply Hkeys; exact Hr].
        - apply bucket_append_has_key. exact Hcp. }
      apply in_map_iff in Hk. destruct Hk as [[k l] [Hfst Hkl]].
      cbn [fst] in Hfst. subst k. exists l. split; [exact Hkl|].
      destruct (Hb' _ _ Hkl) as (Hpk & _ & ->).
      unfold records_of_key. apply filter_In. split; [exact Hr|].
      apply key_eqb_plain; auto.
Qed.

Lemma group_by_region_partition_sample :
  exists m,
    group_by_region [zabaykalsk_record; null_iso_code_record; untitled_record] = Ok m
    /\ NoDup (map fst m)
    /\ (forall k l, In (k, l) m ->
          plain_key k = true /\ l <> [] /\
          l = records_of_key k [zabaykalsk_record; null_iso_code_record; untitled_record])
    /\ (forall r, In r [zabaykalsk_record; null_iso_code_record; untitled_record] ->
          exists l, In (region_key r, l) m /\ In r l).
Proof.
  apply (group_by_region_partition
           [zabaykalsk_record; null_iso_code_record; untitled_record]).
  vm_compute. reflexivity.
Defined.


(** Records whose key is the NaN of the document share one bucket. *)
Example nan_keys_share_a_bucket :
  group_by_region
    [ [(k_id, JInt 1); (k_country, JFloat S754_nan)];
      [(k_id, JInt 2); (k_country, JFloat S754_nan)] ]
  = Ok [ (JFloat S754_nan,
          [ [(k_id, JInt 1); (k_country, JFloat S754_nan)];
            [(k_id, JInt 2); (k_country, JFloat S754_nan)] ]) ].
Proof. vm_compute. reflexivity. Qed.
(** ** The engine applied twice, and its output alphabet *)

Lemma pass_fixed p rep b s :
  initial_free p b s = true -> re_sub_boundary [p] rep 0 b s = s.
Proof.
  revert b. induction s as [|c s IH]; intros b H; [reflexivity|].
  cbn [initial_free] in H. apply andb_prop in H. destruct H as [Hc Hs].
  apply negb_true_iff in Hc. rewrite pass_cons, Hc, (IH _ Hs). reflexivity.
Qed.

Section PassShape.

(** A pass that puts the two characters [r1 r2] for [p], where [r1] is not
    [p] and neither is a whitespace. *)
Variables p r1 r2 : char.
Hypothesis r1_not_p : (p =? r1)%N = false.
Hypothesis r1_not_space : is_space r1 = false.
Hypothesis r2_not_space : is_space r2 = false.
Hypothesis p_not_space : is_space p = false.

Lemma pass_initial_free b s :
  initial_free p b (re_sub_boundary [p] [r1; r2] 0 b s) = true.
Proof.
  revert b. induction s as [|c s IH]; intros b; [reflexivity|].
  rewrite pass_cons. destruct (b && (p =? c)%N) eqn:Hm.
  - cbn [app initial_free]. rewrite r1_not_space, r2_not_space, r1_not_p.
    rewrite andb_false_r. cbn [negb andb]. apply IH.
  - cbn [initial_free]. rewrite Hm. cbn [negb andb]. apply IH.
Qed.

(** The pass keeps a text free of word-initial [q] when [q] is neither of
    the characters it writes. *)
Lemma pass_keeps_initial_free q b s :
  (q =? r1)%N = false -> (q =? r2)%N = false ->
  initial_free q b s = true ->
  initial_free q b (re_sub_boundary [p] [r1; r2] 0 b s) = true.
Proof.
  intros Hq1 Hq2. revert b. induction s as [|c s IH]; intros b H; [reflexivity|].
  cbn [initial_free] in H. apply andb_prop in H. destruct H as [Hc Hs].
  rewrite pass_cons. destruct (b && (p =? c)%N) eqn:Hm.
  - cbn [app initial_free]. rewrite r1_not_space, r2_not_space, Hq1.
    rewrite andb_false_r. cbn [negb andb].
    apply andb_prop in Hm. destruct Hm as [_ Hpc]. apply N.eqb_eq in Hpc.
    subst c. rewrite p_not_space in Hs. apply IH. exact Hs.
  - cbn [initial_free]. rewrite Hc. cbn [andb]. apply IH. exact Hs.
Qed.

End PassShape.

Lemma forallb_filter_id {A : Type} (f : A -> bool) (l : list A) :
  forallb f l = true -> filter f l = l.
Proof.
  induction l as [|x l IH]; intros H; [reflexivity|].
  cbn [forallb] in H. apply andb_prop in H. destruct H as [Hx Hl].
  cbn [filter]. rewrite Hx, (IH Hl). reflexivity.
Qed.

Lemma map_chars_unmapped t :
  forallb (fun c => negb (in_table TRANS_MAP c)) t = true ->
  map_chars TRANS_MAP t = t.
Proof.
  induction t as [|c t IH]; intros H; [reflexivity|].
  cbn [forallb] in H. apply andb_prop in H. destruct H as [Hc Ht].
  apply negb_true_iff in Hc.
  change (map_chars TRANS_MAP (c :: t))
    with (table_get TRANS_MAP c [c] ++ map_chars TRANS_MAP t).
  rewrite (IH Ht).
  destruct (table_get_cases TRANS_MAP c [c]) as [[_ Hg] | Hin].
  - rewrite Hg. reflexivity.
  - exfalso. assert (in_table TRANS_MAP c = true); [|congruence].
    unfold in_table. apply existsb_exists.
    eexists. split; [exact Hin | apply N.eqb_refl].
Qed.

(** No text of the table holds a letter of the table. *)
Lemma TRANS_MAP_outputs_unmapped :
  forallb (fun kv => forallb (fun c => negb (in_table TRANS_MAP c)) (snd kv))
    TRANS_MAP = true.
Proof. vm_compute. reflexivity. Qed.

Lemma map_chars_outputs_unmapped t :
  forallb (fun c => negb (in_table TRANS_MAP c)) (map_chars TRANS_MAP t) = true.
Proof.
  induction t as [|c t IH]; [reflexivity|].
  change (map_chars TRANS_MAP (c :: t))
    with (table_get TRANS_MAP c [c] ++ map_chars TRANS_MAP t).
  rewrite forallb_app, IH, andb_true_r.
  destruct (table_get_cases TRANS_MAP c [c]) as [[Hn Hg] | Hin].
  - rewrite Hg. cbn [forallb]. rewrite Hn. reflexivity.
  - pose proof TRANS_MAP_outputs_unmapped as Hall.
    rewrite forallb_forall in Hall. apply (Hall _ Hin).
Qed.

Lemma pass_forallb (P : char -> bool) p rep b s :
  forallb P rep = true -> forallb P s = true ->
  forallb P (re_sub_boundary [p] rep 0 b s) = true.
Proof.
  intros Hrep. revert b. induction s as [|c s IH]; intros b Hall; [reflexivity|].
  cbn [forallb] in Hall. apply andb_prop in Hall. destruct Hall as [Hc Hs].
  rewrite pass_cons. destruct (b && (p =? c)%N).
  - rewrite forallb_app, Hrep. apply IH. exact Hs.
  - cbn [forallb]. rewrite Hc. apply IH. exact Hs.
Qed.

Lemma cyrillic_to_latin_unmapped text :
  forallb (fun c => negb (in_table TRANS_MAP c)) (cyrillic_to_latin text) = true.
Proof.
  rewrite cyrillic_to_latin_from_start, translit_from_two_passes.
  apply pass_forallb; [reflexivity|].
  apply pass_forallb; [reflexivity|].
  apply map_chars_outputs_unmapped.
Qed.

(** Transliterating a transliterated text changes nothing. *)
Lemma cyrillic_to_latin_idempotent text :
  cyrillic_to_latin (cyrillic_to_latin text) = cyrillic_to_latin text.
Proof.
  set (out := cyrillic_to_latin text).
  rewrite (cyrillic_to_latin_from_start out), translit_from_two_passes.
  rewrite strip_signs_filter, forallb_filter_id
    by apply cyrillic_to_latin_no_sign.
  rewrite map_chars_unmapped by apply cyrillic_to_latin_unmapped.
  assert (He : initial_free LATIN_E_LOWER true out = true).
  { unfold out. rewrite cyrillic_to_latin_from_start, translit_from_two_passes.
    apply (pass_initial_free LATIN_E_LOWER 121%N 101%N); reflexivity. }
  assert (HE : initial_free LATIN_E_UPPER true out = true).
  { unfold out. rewrite cyrillic_to_latin_from_start, translit_from_two_passes.
    apply (pass_keeps_initial_free LATIN_E_LOWER 121%N 101%N); try reflexivity.
    apply (pass_initial_free LATIN_E_UPPER 89%N 101%N); reflexivity. }
  rewrite (pass_fixed LATIN_E_UPPER _ true out HE).
  apply pass_fixed. exact He.
Qed.

Lemma pass_In p rep b s c :
  In c (re_sub_boundary [p] rep 0 b s) -> In c rep \/ In c s.
Proof.
  revert b. induction s as [|x s IH]; intros b H; [destruct H|].
  rewrite pass_cons in H. destruct (b && (p =? x)%N).
  - apply in_app_or in H. destruct H as [H | H]; [left; exact H|].
    destruct (IH _ H) as [Hr | Hs]; [left; exact Hr | right; right; exact Hs].
  - destruct H as [H | H]; [right; left; exact H|].
    destruct (IH _ H) as [Hr | Hs]; [left; exact Hr | right; right; exact Hs].
Qed.

(** Every text of the table is made of ASCII letters. *)
Lemma TRANS_MAP_outputs_ascii :
  forallb (fun kv => forallb is_ascii_letter (snd kv)) TRANS_MAP = true.
Proof. vm_compute. reflexivity. Qed.

Lemma map_chars_In t c :
  In c (map_chars TRANS_MAP t) ->
  is_ascii_letter c = true \/ (In c t /\ in_table TRANS_MAP c = false).
Proof.
  induction t as [|x t IH]; intros H; [destruct H|].
  change (map_chars TRANS_MAP (x :: t))
    with (table_get TRANS_MAP x [x] ++ map_chars TRANS_MAP t) in H.
  apply in_app_or in H. destruct H as [H | H].
  - destruct (table_get_cases TRANS_MAP x [x]) as [[Hn Hg] | Hin].
    + rewrite Hg in H. destruct H as [<- | []].
      right. split; [left; reflexivity | exact Hn].
    + left. pose proof TRANS_MAP_outputs_ascii as Hall.
      rewrite forallb_forall in Hall. specialize (Hall _ Hin).
      cbn [snd] in Hall. rewrite forallb_forall in Hall. apply Hall. exact H.
  - destruct (IH H) as [Ha | [Hc Hn]]; [left; exact Ha|].
    right. split; [right; exact Hc | exact Hn].
Qed.

(** The output alphabet: a character of the transliterated text is an
    ASCII letter, or a character of the input that the table does not
    have. *)
Lemma cyrillic_to_latin_alphabet text :
  forallb (fun c => is_ascii_letter c
                    || (has_char c text && negb (in_table TRANS_MAP c)))
    (cyrillic_to_latin text) = true.
Proof.
  apply forallb_forall. intros c Hc.
  rewrite cyrillic_to_latin_from_start, translit_from_two_passes in Hc.
  apply pass_In in Hc. destruct Hc as [Hc | Hc].
  { destruct Hc as [<- | [<- | []]]; reflexivity. }
  apply pass_In in Hc. destruct Hc as [Hc | Hc].
  { destruct Hc as [<- | [<- | []]]; reflexivity. }
  apply map_chars_In in Hc. destruct Hc as [Ha | [Hc Hn]].
  - rewrite Ha. reflexivity.
  - rewrite strip_signs_filter in Hc. apply filter_In in Hc.
    destruct Hc as [Hc _].
    assert (Hh : has_char c text = true).
    { unfold has_char. apply existsb_exists. exists c.
      split; [exact Hc | apply N.eqb_refl]. }
    rewrite Hh, Hn. apply orb_true_r.
Qed.

(** ** The loops over a document *)

Lemma unique_keys_lookup fd k v :
  unique_keys fd = true -> In (k, v) fd -> dict_lookup fd k = Some v.
Proof.
  induction fd as [|[k0 v0] fd IH]; intros Hu Hin; [destruct Hin|].
  cbn [unique_keys] in Hu. apply andb_prop in Hu. destruct Hu as [Hk0 Hu].
  cbn [dict_lookup]. destruct Hin as [Hin | Hin].
  - inversion Hin; subst. rewrite str_eqb_refl. reflexivity.
  - destruct (str_eqb k0 k) eqn:E.
    + apply str_eqb_eq in E. subst k0. exfalso.
      apply negb_true_iff in Hk0.
      assert (existsb (fun kv => str_eqb (fst kv) k) fd = true); [|congruence].
      apply existsb_exists. exists (k, v). split; [exact Hin | apply str_eqb_refl].
    + apply IH; assumption.
Qed.

Lemma region_step_flat region cps acc :
  region_checkpoints region = Some cps ->
  region_step acc region = for_each cps acc checkpoint_step.
Proof.
  unfold region_checkpoints, region_step. destruct region; try discriminate.
  cbn [py_get bind]. unfold dict_get.
  destruct (dict_lookup kvs k_checkpoints) as [v|]; intros H.
  - destruct v; try discriminate H. inversion H. reflexivity.
  - inversion H. reflexivity.
Qed.

Lemma regions_flat regions cps :
  regions_checkpoints regions = Some cps ->
  forall acc, for_each regions acc region_step = for_each cps acc checkpoint_step.
Proof.
  revert cps. induction regions as [|region rest IH]; intros cps H acc.
  - inversion H. reflexivity.
  - cbn [regions_checkpoints] in H.
    destruct (region_checkpoints region) as [a|] eqn:Ha; [|discriminate H].
    destruct (regions_checkpoints rest) as [b|] eqn:Hb; [|discriminate H].
    inversion H; subst cps. cbn [for_each].
    rewrite (region_step_flat _ _ _ Ha), for_each_app.
    destruct (for_each a acc checkpoint_step) as [acc'|e]; [|reflexivity].
    cbn [bind]. apply (IH b eq_refl).
Qed.

Lemma districts_flat d fd rest cps :
  dict_lookup d k_federal_districts = Some (JObj fd) ->
  (forall k v, In (k, v) rest -> dict_lookup fd k = Some v) ->
  districts_checkpoints rest = Some cps ->
  forall acc,
    for_each (map (fun kv => JStr (fst kv)) rest) acc (district_step (JObj d))
    = for_each cps acc checkpoint_step.
Proof.
  intros Hfd. revert cps. induction rest as [|[k v] rest IH]; intros cps Hlook H acc.
  - inversion H. reflexivity.
  - cbn [districts_checkpoints] in H. destruct v; try discriminate H.
    destruct (regions_checkpoints l) as [a|] eqn:Ha; [|discriminate H].
    destruct (districts_checkpoints rest) as [b|] eqn:Hb; [|discriminate H].
    inversion H; subst cps. cbn [map for_each fst].
    unfold district_step at 1. cbn [py_getitem]. unfold dict_getitem.
    rewrite Hfd. cbn [bind py_getitem]. unfold dict_getitem.
    rewrite (Hlook k (JArr l)) by (left; reflexivity).
    cbn [bind py_iter]. rewrite (regions_flat _ _ Ha), for_each_app.
    destruct (for_each a acc checkpoint_step) as [acc'|e]; [|reflexivity].
    cbn [bind]. apply (IH b); [|reflexivity].
    intros k' v' Hin. apply Hlook. right. exact Hin.
Qed.

Lemma for_each_emitted cps :
  forallb normalizes cps = true ->
  forall acc, for_each cps acc checkpoint_step = Ok (acc ++ flat_map emitted cps).
Proof.
  induction cps as [|cp cps IH]; intros Hall acc.
  - cbn. rewrite app_nil_r. reflexivity.
  - cbn [forallb] in Hall. apply andb_prop in Hall. destruct Hall as [Hcp Hall].
    cbn [for_each flat_map]. unfold checkpoint_step at 1.
    unfold normalizes in Hcp. unfold emitted at 1.
    destruct (normalize cp) as [[r|]|e]; [| |discriminate Hcp]; cbn [bind].
    + rewrite (IH Hall), <- app_assoc. reflexivity.
    + rewrite (IH Hall). reflexivity.
Qed.

(** On a document of the expected shape the three nested loops are one
    loop over the checkpoints in document order; when no checkpoint makes
    [normalize] raise, the flat list is made of the records of the admitted
    checkpoints, in document order, and nothing else. *)
Lemma process_checkpoints_flat data cps :
  document_checkpoints data = Some cps ->
  process_checkpoints data = for_each cps [] checkpoint_step
  /\ (forallb normalizes cps = true ->
      process_checkpoints data = Ok (flat_map emitted cps)).
Proof.
  intros H.
  assert (Hloop : process_checkpoints data = for_each cps [] checkpoint_step).
  { unfold document_checkpoints in H. destruct data; try discriminate H.
    unfold process_checkpoints. cbn [py_get bind]. unfold dict_get.
    destruct (dict_lookup kvs k_federal_districts) as [v|] eqn:Hfd.
    - destruct v; try discriminate H.
      destruct (unique_keys kvs0) eqn:Hu; [|discriminate H].
      cbn [py_iter bind].
      apply (districts_flat kvs kvs0 kvs0 cps Hfd); [|exact H].
      intros k v. apply unique_keys_lookup. exact Hu.
    - inversion H. reflexivity. }
  split; [exact Hloop|].
  intros Hall. rewrite Hloop. apply (for_each_emitted cps Hall []).
Qed.

Lemma process_checkpoints_flat_sample :
  process_checkpoints (document [railway; zabaykalsk; closed; untitled]) =
    for_each [railway; zabaykalsk; closed; untitled] [] checkpoint_step
  /\ (forallb normalizes [railway; zabaykalsk; closed; untitled] = true ->
      process_checkpoints (document [railway; zabaykalsk; closed; untitled]) =
      Ok (flat_map emitted [railway; zabaykalsk; closed; untitled])).
Proof.
  apply (process_checkpoints_flat
           (document [railway; zabaykalsk; closed; untitled])
           [railway; zabaykalsk; closed; untitled]).
  vm_compute. reflexivity.
Defined.

(** ** Fields copied through *)

(** In a record, [id], [latitude] and [longitude] are the checkpoint's own
    values (null when missing), [status] is the classified label,
    [foreign_checkpoint_ru] is the foreign name as given, and
    [foreign_name] is present exactly when that name is non-empty, as its
    transliteration. *)
Lemma record_pass_through cp r :
  normalize cp = Ok (Some r) ->
  exists d st f,
    cp = JObj d /\ status_en cp = Ok st /\ foreign_checkpoint_ru cp = Ok f /\
    dict_lookup r k_id = Some (dict_get d k_id JNull) /\
    dict_lookup r k_latitude = Some (dict_get d k_latitude JNull) /\
    dict_lookup r k_longitude = Some (dict_get d k_longitude JNull) /\
    dict_lookup r k_status = Some (classify_status st) /\
    dict_lookup r k_foreign_checkpoint_ru = Some f /\
    dict_lookup r k_foreign_name =
      (if py_truthy f then Some (JStr (cyrillic_to_latin (fstr f))) else None).
Proof.
  intros Hn.
  destruct (normalize_record _ _ Hn)
    as (st & t & id & lat & lon & nc0 & nc1 & H1 & H2 & H3 & H4 & H5
        & H6 & H7 & H8).
  destruct cp; try discriminate H3. cbn [py_get] in H3, H4, H5.
  inversion H3; subst id. inversion H4; subst lat. inversion H5; subst lon.
  clear H3 H4 H5.
  assert (L0 : dict_lookup nc0 k_id = None /\ dict_lookup nc0 k_latitude = None
               /\ dict_lookup nc0 k_longitude = None /\ dict_lookup nc0 k_status = None
               /\ dict_lookup nc0 k_foreign_checkpoint_ru = None
               /\ dict_lookup nc0 k_foreign_name = None).
  { apply set_names_cases in H6.
    destruct H6 as [[_ ->] | [s [_ [_ ->]]]]; cbv zeta;
      repeat split; lookup_set; reflexivity. }
  destruct L0 as (_ & _ & _ & _ & _ & Lfn).
  apply set_foreign_cases in H8. destruct H8 as [f [Hf H8]].
  exists kvs, st, f. split; [reflexivity|]. split; [exact H1|]. split; [exact Hf|].
  destruct H8 as [[Hff ->] | (fs & name_en & -> & Hfs & _ & ->)].
  - rewrite Hff. lookup_set.
    rewrite !(set_country_other _ _ _ _ H7) by reflexivity.
    lookup_set. repeat split; try reflexivity. exact Lfn.
  - assert (Htr : py_truthy (JStr fs) = true).
    { destruct fs; [exfalso; apply Hfs; reflexivity | reflexivity]. }
    rewrite Htr. cbv zeta. cbn [fstr].
    destruct (py_truthy name_en &&
              negb (Nat.eqb (length (cyrillic_to_latin fs)) 0));
      lookup_set; rewrite !(set_country_other _ _ _ _ H7) by reflexivity;
      lookup_set; repeat split; reflexivity.
Qed.

Lemma record_pass_through_sample :
  exists d st f,
    zabaykalsk = JObj d /\ status_en zabaykalsk = Ok st /\
    foreign_checkpoint_ru zabaykalsk = Ok f /\
    dict_lookup zabaykalsk_record k_id = Some (dict_get d k_id JNull) /\
    dict_lookup zabaykalsk_record k_latitude = Some (dict_get d k_latitude JNull) /\
    dict_lookup zabaykalsk_record k_longitude = Some (dict_get d k_longitude JNull) /\
    dict_lookup zabaykalsk_record k_status = Some (classify_status st) /\
    dict_lookup zabaykalsk_record k_foreign_checkpoint_ru = Some f /\
    dict_lookup zabaykalsk_record k_foreign_name =
      (if py_truthy f then Some (JStr (cyrillic_to_latin (fstr f))) else None).
Proof.
  apply (record_pass_through zabaykalsk zabaykalsk_record).
  vm_compute. reflexivity.
Defined.

(** ** What a status says about the description *)

Lemma starts_with_prefix p s : starts_with p s = true <-> exists b, s = p ++ b.
Proof.
  revert s. induction p as [|c p IH]; intros s.
  - split; [intros _; exists s; reflexivity | reflexivity].
  - destruct s as [|x s]; cbn [starts_with].
    + split; [discriminate | intros [b Hb]; discriminate Hb].
    + rewrite andb_true_iff, N.eqb_eq, IH. split.
      * intros [-> [b ->]]. exists b. reflexivity.
      * intros [b Hb]. inversion Hb. split; [reflexivity | exists b; reflexivity].
Qed.

Lemma contains_infix p s : contains p s = true <-> infix p s.
Proof.
  unfold infix. induction s as [|x s IH]; cbn [contains].
  - rewrite orb_false_r, starts_with_prefix. split.
    + intros [b Hb]. exists [], b. exact Hb.
    + intros [a [b Hb]]. destruct a; [exists b; exact Hb|discriminate Hb].
  - rewrite orb_true_iff, starts_with_prefix, IH. split.
    + intros [[b Hb] | [a [b Hb]]].
      * exists [], b. exact Hb.
      * exists (x :: a), b. rewrite Hb. reflexivity.
    + intros [a [b Hb]]. destruct a as [|y a].
      * left. exists b. exact Hb.
      * right. inversion Hb. exists a, b. reflexivity.
Qed.

Lemma infix_trans a b c : infix a b -> infix b c -> infix a c.
Proof.
  intros [x [y ->]] [z [w ->]]. exists (z ++ x), (y ++ w).
  rewrite <- !app_assoc. reflexivity.
Qed.

Lemma lstrip_suffix s : exists a, s = a ++ lstrip s.
Proof.
  induction s as [|c s [a IH]]; [exists []; reflexivity|].
  cbn [lstrip]. destruct (is_space c).
  - exists (c :: a). cbn [app]. rewrite <- IH. reflexivity.
  - exists []. reflexivity.
Qed.

Lemma strip_infix s : infix (strip s) s.
Proof.
  unfold strip, rstrip.
  destruct (lstrip_suffix s) as [a Ha].
  destruct (lstrip_suffix (rev (lstrip s))) as [b Hb].
  exists a, (rev b).
  rewrite Ha at 1. f_equal.
  rewrite <- (rev_involutive (lstrip s)) at 1. rewrite Hb at 1.
  rewrite rev_app_distr. reflexivity.
Qed.

Lemma capture_run_prefix s : exists t, s = capture_run s ++ t.
Proof.
  induction s as [|c s [t IH]]; [exists []; reflexivity|].
  cbn [capture_run]. destruct (capturable c).
  - exists t. cbn [app]. rewrite <- IH. reflexivity.
  - exists (c :: s). reflexivity.
Qed.

Lemma backtrack_capture_infix rest j g :
  backtrack_capture rest j = Some g -> infix g rest.
Proof.
  induction j as [|j IH]; cbn [backtrack_capture].
  - destruct (capture_run (skipn 0 rest)) as [|c g'] eqn:E; [discriminate|].
    intros H. inversion H; subst g.
    destruct (capture_run_prefix (skipn 0 rest)) as [t Ht].
    rewrite E in Ht. exists [], t. exact Ht.
  - destruct (capture_run (skipn (S j) rest)) as [|c g'] eqn:E; [exact IH|].
    intros H. inversion H; subst g.
    destruct (capture_run_prefix (skipn (S j) rest)) as [t Ht].
    rewrite E in Ht. exists (firstn (S j) rest), t.
    rewrite <- Ht. symmetry. apply firstn_skipn.
Qed.

Lemma status_match_here_infix s g :
  status_match_here s = Some g ->
  starts_with STATUS_MARKER s = true /\ infix g s.
Proof.
  unfold status_match_here.
  destruct (starts_with STATUS_MARKER s) eqn:E; [|discriminate].
  intros H. split; [reflexivity|].
  apply backtrack_capture_infix in H.
  apply (infix_trans _ _ _ H).
  exists (firstn (length STATUS_MARKER) s), [].
  rewrite app_nil_r. symmetry. apply firstn_skipn.
Qed.

Lemma status_search_infix s g :
  status_search s = Some g -> contains STATUS_MARKER s = true /\ infix g s.
Proof.
  induction s as [|c s IH]; cbn [status_search contains].
  - destruct (status_match_here []) as [g'|] eqn:E; [|discriminate].
    intros H. inversion H; subst g'.
    apply status_match_here_infix in E. destruct E as [E1 E2].
    rewrite E1. split; [reflexivity | exact E2].
  - destruct (status_match_here (c :: s)) as [g'|] eqn:E.
    + intros H. inversion H; subst g'.
      apply status_match_here_infix in E. destruct E as [E1 E2].
      rewrite E1. split; [reflexivity | exact E2].
    + intros H. destruct (IH H) as [H1 [a [b H2]]].
      rewrite H1, orb_true_r. split; [reflexivity|].
      exists (c :: a), b. rewrite H2. reflexivity.
Qed.

(** A status is reported only for a description that holds the marker and
    the matching term, in one of its two spellings; the result is never
    anything but 1, 2 or null. *)
Lemma extract_status_sound d :
  (extract_status (JStr d) = JInt 1 ->
     contains STATUS_MARKER d = true /\
     contains BILATERAL_CAP d || contains BILATERAL_LOW d = true)
  /\ (extract_status (JStr d) = JInt 2 ->
     contains STATUS_MARKER d = true /\
     contains MULTILATERAL_CAP d || contains MULTILATERAL_LOW d = true)
  /\ (extract_status (JStr d) = JInt 1 \/ extract_status (JStr d) = JInt 2
      \/ extract_status (JStr d) = JNull).
Proof.
  unfold extract_status.
  destruct (status_search d) as [g|] eqn:Hs.
  2:{ repeat split; try discriminate. right. right. reflexivity. }
  apply status_search_infix in Hs. destruct Hs as [Hm Hg].
  assert (Hup : forall p, contains p (strip g) = true -> contains p d = true).
  { intros p Hp. apply contains_infix. apply contains_infix in Hp.
    apply (infix_trans _ _ _ Hp). apply (infix_trans _ _ _ (strip_infix g) Hg). }
  unfold status_of_text.
  destruct (contains BILATERAL_CAP (strip g) || contains BILATERAL_LOW (strip g))
    eqn:Hb.
  - split; [|split; [discriminate | left; reflexivity]].
    intros _. split; [exact Hm|].
    apply orb_prop in Hb. destruct Hb as [Hb | Hb]; rewrite (Hup _ Hb);
      [reflexivity | apply orb_true_r].
  - destruct (contains MULTILATERAL_CAP (strip g)
              || contains MULTILATERAL_LOW (strip g)) eqn:Hmu.
    + split; [discriminate|]. split; [|right; left; reflexivity].
      intros _. split; [exact Hm|].
      apply orb_prop in Hmu. destruct Hmu as [Hmu | Hmu]; rewrite (Hup _ Hmu);
        [reflexivity | apply orb_true_r].
    + repeat split; try discriminate. right. right. reflexivity.
Qed.

(** ** The second engine: the shape of its output *)

Lemma filter_filter {A : Type} (f g : A -> bool) (l : list A) :
  filter f (filter g l) = filter (fun x => g x && f x) l.
Proof.
  induction l as [|x l IH]; [reflexivity|].
  cbn [filter]. destruct (g x); cbn [filter andb]; rewrite IH; reflexivity.
Qed.

Lemma remove_all_filter (qs : list char) (text : pystr) :
  fold_left (fun t ch => remove_char ch t) qs text
  = filter (fun c => negb (existsb (N.eqb c) qs)) text.
Proof.
  revert text. induction qs as [|q qs IH]; intros text.
  - cbn [fold_left existsb negb]. symmetry. apply forallb_filter_id.
    apply forallb_forall. reflexivity.
  - cbn [fold_left]. rewrite IH. unfold remove_char. rewrite filter_filter.
    apply filter_ext. intros c. cbn [existsb]. rewrite negb_orb. reflexivity.
Qed.

Lemma remove_quotes_filter text :
  remove_quotes text = filter (fun c => negb (is_quote c)) text.
Proof. apply remove_all_filter. Qed.

(** The texts of [mapping] are ASCII letters, its keys are neither ASCII nor
    whitespace. *)
Lemma mapping_outputs_letters :
  forallb (fun kv => forallb is_ascii_letter (snd kv)) mapping = true.
Proof. vm_compute. reflexivity. Qed.

Lemma mapping_keys :
  forallb (fun kv => negb (is_ascii (fst kv)) && negb (is_space (fst kv)))
    mapping = true.
Proof. vm_compute. reflexivity. Qed.

Lemma in_table_key t c : in_table t c = true -> exists v, In (c, v) t.
Proof.
  unfold in_table. intros H. apply existsb_exists in H.
  destruct H as [[k v] [Hin Hk]]. cbn [fst] in Hk. apply N.eqb_eq in Hk.
  subst k. exists v. exact Hin.
Qed.

Lemma ascii_not_in_mapping c : is_ascii c = true -> in_table mapping c = false.
Proof.
  intros Ha. destruct (in_table mapping c) eqn:Hin; [|reflexivity].
  apply in_table_key in Hin. destruct Hin as [v Hin].
  pose proof mapping_keys as Hall. rewrite forallb_forall in Hall.
  specialize (Hall _ Hin). cbn [fst] in Hall. rewrite Ha in Hall.
  discriminate Hall.
Qed.

Lemma space_not_in_mapping c : is_space c = true -> in_table mapping c = false.
Proof.
  intros Ha. destruct (in_table mapping c) eqn:Hin; [|reflexivity].
  apply in_table_key in Hin. destruct Hin as [v Hin].
  pose proof mapping_keys as Hall. rewrite forallb_forall in Hall.
  specialize (Hall _ Hin). cbn [fst] in Hall. rewrite Ha in Hall.
  rewrite andb_false_r in Hall. discriminate Hall.
Qed.

(** A check of the 128 ASCII characters covers them all. *)
Lemma ascii_check (P : char -> bool) :
  forallb P (map N.of_nat (seq 0 128)) = true ->
  forall c, is_ascii c = true -> P c = true.
Proof.
  intros Hall c Hc. rewrite forallb_forall in Hall. apply Hall.
  unfold is_ascii in Hc. apply N.ltb_lt in Hc.
  apply in_map_iff. exists (N.to_nat c). split; [apply N2Nat.id|].
  apply in_seq. lia.
Qed.

Lemma ascii_case_facts c : is_ascii c = true -> case_facts c = true.
Proof. apply ascii_check. vm_compute. reflexivity. Qed.

Lemma letters_table :
  forallb (fun c => implb (is_ascii_letter c) (clean c && negb (is_space c)))
    (map N.of_nat (seq 0 128)) = true.
Proof. vm_compute. reflexivity. Qed.

Lemma letter_clean c :
  is_ascii_letter c = true -> clean c = true /\ is_space c = false.
Proof.
  intros H.
  assert (Ha : is_ascii c = true).
  { unfold is_ascii_letter in H. unfold is_ascii. apply N.ltb_lt.
    apply orb_prop in H. destruct H as [H | H]; apply andb_prop in H;
      destruct H as [_ H]; apply N.leb_le in H; lia. }
  pose proof (ascii_check _ letters_table c Ha) as Hc.
  cbn beta in Hc. rewrite H in Hc. cbn [implb] in Hc.
  apply andb_prop in Hc. destruct Hc as [Hc Hs].
  apply negb_true_iff in Hs. split; assumption.
Qed.

(** After the quotes are gone and the letters replaced, a character of a
    plain text is a whitespace or a clean one. *)
Lemma map_chars_mapping_In t c :
  In c (map_chars mapping t) ->
  is_ascii_letter c = true \/ (In c t /\ in_table mapping c = false).
Proof.
  induction t as [|x t IH]; intros H; [destruct H|].
  change (map_chars mapping (x :: t))
    with (table_get mapping x [x] ++ map_chars mapping t) in H.
  apply in_app_or in H. destruct H as [H | H].
  - destruct (table_get_cases mapping x [x]) as [[Hn Hg] | Hin].
    + rewrite Hg in H. destruct H as [<- | []].
      right. split; [left; reflexivity | exact Hn].
    + left. pose proof mapping_outputs_letters as Hall.
      rewrite forallb_forall in Hall. specialize (Hall _ Hin).
      cbn [snd] in Hall. rewrite forallb_forall in Hall. apply Hall. exact H.
  - destruct (IH H) as [Ha | [Hc Hn]]; [left; exact Ha|].
    right. split; [right; exact Hc | exact Hn].
Qed.

Lemma map_chars_mapping_fixed t :
  forallb is_ascii t = true -> map_chars mapping t = t.
Proof.
  induction t as [|c t IH]; intros H; [reflexivity|].
  cbn [forallb] in H. apply andb_prop in H. destruct H as [Hc Ht].
  change (map_chars mapping (c :: t))
    with (table_get mapping c [c] ++ map_chars mapping t).
  rewrite (IH Ht).
  destruct (table_get_cases mapping c [c]) as [[_ Hg] | Hin].
  - rewrite Hg. reflexivity.
  - exfalso. assert (in_table mapping c = true).
    { unfold in_table. apply existsb_exists.
      eexists. split; [exact Hin | apply N.eqb_refl]. }
    rewrite (ascii_not_in_mapping c Hc) in H. discriminate H.
Qed.

Lemma mapped_chars text :
  forallb plain_input text = true ->
  forallb (fun c => is_space c || clean c)
    (map_chars mapping (remove_quotes text)) = true.
Proof.
  intros Hall. apply forallb_forall. intros c Hc.
  apply map_chars_mapping_In in Hc. destruct Hc as [Hl | [Hin Hn]].
  - destruct (letter_clean c Hl) as [Hc _]. rewrite Hc. apply orb_true_r.
  - rewrite remove_quotes_filter in Hin. apply filter_In in Hin.
    destruct Hin as [Hin Hq]. rewrite forallb_forall in Hall.
    specialize (Hall _ Hin). unfold plain_input in Hall.
    apply negb_true_iff in Hq. rewrite Hq, Hn in Hall. cbn [orb] in Hall.
    unfold clean. rewrite Hq. cbn [negb]. rewrite andb_true_r. exact Hall.
Qed.

(** *** The whitespace runs *)

Lemma collapse_forallb (P : char -> bool) b s :
  P 32%N = true ->
  forallb (fun c => is_space c || P c) s = true ->
  forallb P (collapse_spaces b s) = true.
Proof.
  intros H32. revert b. induction s as [|c s IH]; intros b H; [reflexivity|].
  cbn [forallb] in H. apply andb_prop in H. destruct H as [Hc Hs].
  cbn [collapse_spaces]. destruct (is_space c) eqn:Hsp.
  - destruct b; [apply IH; exact Hs|].
    cbn [forallb]. rewrite H32. apply IH. exact Hs.
  - cbn [orb] in Hc. cbn [forallb]. rewrite Hc. apply IH. exact Hs.
Qed.

Lemma collapse_collapsed b s : collapsed b (collapse_spaces b s) = true.
Proof.
  revert b. induction s as [|c s IH]; intros b; [reflexivity|].
  cbn [collapse_spaces]. destruct (is_space c) eqn:Hsp.
  - destruct b; [apply IH|].
    cbn [collapsed].
    change (is_space 32%N) with true. cbn [negb andb N.eqb Pos.eqb].
    apply IH.
  - cbn [collapsed]. rewrite Hsp. apply IH.
Qed.

Lemma collapse_fixed b s : collapsed b s = true -> collapse_spaces b s = s.
Proof.
  revert b. induction s as [|c s IH]; intros b H; [reflexivity|].
  cbn [collapsed] in H. apply andb_prop in H. destruct H as [Hc Hs].
  cbn [collapse_spaces]. destruct (is_space c) eqn:Hsp.
  - apply andb_prop in Hc. destruct Hc as [Hc Hb].
    apply N.eqb_eq in Hc. apply negb_true_iff in Hb. subst b c.
    rewrite (IH _ Hs). reflexivity.
  - rewrite (IH _ Hs). reflexivity.
Qed.

Lemma collapsed_weaken b s : collapsed b s = true -> collapsed false s = true.
Proof.
  destruct s as [|c s]; [reflexivity|]. cbn [collapsed]. intros H.
  apply andb_prop in H. destruct H as [Hc Hs]. rewrite Hs, andb_true_r.
  destruct (is_space c); [|reflexivity].
  apply andb_prop in Hc. destruct Hc as [Hc _]. rewrite Hc. reflexivity.
Qed.

Lemma collapsed_suffix b a s :
  collapsed b (a ++ s) = true -> collapsed false s = true.
Proof.
  revert b. induction a as [|c a IH]; intros b H.
  - apply (collapsed_weaken b). exact H.
  - cbn [app collapsed] in H. apply andb_prop in H. destruct H as [_ H].
    apply (IH _ H).
Qed.

Lemma collapsed_prefix b a s :
  collapsed b (a ++ s) = true -> collapsed b a = true.
Proof.
  revert b. induction a as [|c a IH]; intros b H; [reflexivity|].
  cbn [app collapsed] in H. apply andb_prop in H. destruct H as [Hc H].
  cbn [collapsed]. rewrite Hc. apply (IH _ H).
Qed.

Lemma collapsed_infix b g s :
  infix g s -> collapsed b s = true -> collapsed false g = true.
Proof.
  intros [x [y ->]] H. apply collapsed_suffix in H.
  apply (collapsed_prefix false g y). exact H.
Qed.

Lemma forallb_infix (P : char -> bool) g s :
  infix g s -> forallb P s = true -> forallb P g = true.
Proof.
  intros [x [y ->]] H. rewrite !forallb_app in H.
  apply andb_prop in H. destruct H as [_ H].
  apply andb_prop in H. destruct H as [H _]. exact H.
Qed.

(** *** The strip *)

Lemma lstrip_spaces s :
  exists a, s = a ++ lstrip s /\ forallb is_space a = true.
Proof.
  induction s as [|c s [a [IH Ha]]]; [exists []; split; reflexivity|].
  cbn [lstrip]. destruct (is_space c) eqn:Hc.
  - exists (c :: a). cbn [app forallb]. rewrite <- IH, Hc, Ha.
    split; reflexivity.
  - exists []. split; reflexivity.
Qed.

Lemma lstrip_no_leading s : no_leading_space (lstrip s) = true.
Proof.
  induction s as [|c s IH]; [reflexivity|].
  cbn [lstrip]. destruct (is_space c) eqn:Hc; [exact IH|].
  cbn [no_leading_space]. rewrite Hc. reflexivity.
Qed.

Lemma lstrip_fixed s : no_leading_space s = true -> lstrip s = s.
Proof.
  destruct s as [|c s]; [reflexivity|]. cbn [no_leading_space lstrip].
  intros H. apply negb_true_iff in H. rewrite H. reflexivity.
Qed.

Lemma rstrip_no_leading s :
  no_leading_space s = true -> no_leading_space (rstrip s) = true.
Proof.
  intros H. unfold rstrip.
  destruct (lstrip_spaces (rev s)) as [a [Ha Hsp]].
  assert (Hs : s = rev (lstrip (rev s)) ++ rev a).
  { rewrite <- rev_app_distr, <- Ha, rev_involutive. reflexivity. }
  destruct (rev (lstrip (rev s))) as [|x r] eqn:Hr.
  - reflexivity.
  - rewrite Hs in H. exact H.
Qed.

Lemma strip_trimmed s :
  no_leading_space (strip s) = true /\ no_trailing_space (strip s) = true.
Proof.
  unfold strip. split.
  - apply rstrip_no_leading. apply lstrip_no_leading.
  - unfold no_trailing_space, rstrip. rewrite rev_involutive.
    apply lstrip_no_leading.
Qed.

Lemma strip_fixed s :
  no_leading_space s = true -> no_trailing_space s = true -> strip s = s.
Proof.
  intros Hl Ht. unfold strip. rewrite (lstrip_fixed s Hl).
  unfold rstrip. rewrite (lstrip_fixed (rev s) Ht). apply rev_involutive.
Qed.

(** *** The title case *)

Ltac case_facts_of c Hc :=
  let H := fresh "Hf" in
  pose proof (ascii_case_facts c Hc) as H; unfold case_facts in H;
  repeat (let H' := fresh "Hf" in apply andb_prop in H; destruct H as [H H']).

Lemma ascii_title_clean p s :
  forallb clean s = true -> forallb clean (ascii_title p s) = true.
Proof.
  revert p. induction s as [|c s IH]; intros p H; [reflexivity|].
  cbn [forallb] in H. apply andb_prop in H. destruct H as [Hc Hs].
  assert (Ha : is_ascii c = true).
  { unfold clean in Hc. apply andb_prop in Hc. apply Hc. }
  case_facts_of c Ha.
  cbn [ascii_title forallb]. rewrite (IH _ Hs), andb_true_r.
  destruct p.
  - apply eqb_prop in Hf5. rewrite Hf5. exact Hc.
  - apply eqb_prop in Hf4. rewrite Hf4. exact Hc.
Qed.

Lemma clean_ascii s : forallb clean s = true -> forallb is_ascii s = true.
Proof.
  intros H. apply forallb_forall. intros c Hc.
  rewrite forallb_forall in H. specialize (H _ Hc).
  unfold clean in H. apply andb_prop in H. apply H.
Qed.

Lemma ascii_title_spaces p s :
  forallb is_ascii s = true ->
  map is_space (ascii_title p s) = map is_space s.
Proof.
  revert p. induction s as [|c s IH]; intros p H; [reflexivity|].
  cbn [forallb] in H. apply andb_prop in H. destruct H as [Ha Hs].
  case_facts_of c Ha.
  cbn [ascii_title map]. rewrite (IH _ Hs). f_equal.
  destruct p; apply eqb_prop; assumption.
Qed.

Lemma ascii_title_collapsed p b s :
  forallb is_ascii s = true ->
  collapsed b (ascii_title p s) = collapsed b s.
Proof.
  revert p b. induction s as [|c s IH]; intros p b H; [reflexivity|].
  cbn [forallb] in H. apply andb_prop in H. destruct H as [Ha Hs].
  case_facts_of c Ha.
  apply eqb_prop in Hf, Hf8, Hf7, Hf6.
  cbn [ascii_title collapsed].
  destruct p; rewrite ?Hf, ?Hf8, ?Hf7, ?Hf6, (IH _ _ Hs); reflexivity.
Qed.

Lemma no_leading_space_bits s :
  no_leading_space s = match map is_space s with [] => true | b :: _ => negb b end.
Proof. destruct s; reflexivity. Qed.

Lemma ascii_title_trimmed p s :
  forallb is_ascii s = true ->
  no_leading_space (ascii_title p s) = no_leading_space s /\
  no_trailing_space (ascii_title p s) = no_trailing_space s.
Proof.
  intros H. unfold no_trailing_space.
  rewrite !no_leading_space_bits, !map_rev, (ascii_title_spaces p s H).
  split; reflexivity.
Qed.

Lemma ascii_title_cased p s :
  forallb is_ascii s = true -> title_cased p (ascii_title p s) = true.
Proof.
  revert p. induction s as [|c s IH]; intros p H; [reflexivity|].
  cbn [forallb] in H. apply andb_prop in H. destruct H as [Ha Hs].
  case_facts_of c Ha.
  apply eqb_prop in Hf2, Hf3.
  cbn [ascii_title title_cased].
  destruct p; rewrite ?Hf2, ?Hf3, (IH _ Hs), ?Hf0, ?Hf1; reflexivity.
Qed.

Lemma ascii_title_fixed p s : title_cased p s = true -> ascii_title p s = s.
Proof.
  revert p. induction s as [|c s IH]; intros p H; [reflexivity|].
  cbn [title_cased] in H. apply andb_prop in H. destruct H as [Hc Hs].
  cbn [ascii_title]. rewrite (IH _ Hs).
  destruct p; apply N.eqb_eq in Hc; rewrite Hc; reflexivity.
Qed.

Lemma ascii_tables_ascii :
  ascii_tables ascii_is_cased ascii_to_title ascii_lower_at.
Proof. intros c _. repeat split. Qed.

Section TitleOnAscii.

Variable is_cased : char -> bool.
Variable to_title : char -> pystr.
Variable lower_at : pystr -> nat -> char -> pystr.
Hypothesis tables : ascii_tables is_cased to_title lower_at.

Lemma do_title_ascii text i p s :
  forallb is_ascii s = true ->
  do_title is_cased to_title lower_at text i p s = ascii_title p s.
Proof.
  revert i p. induction s as [|c s IH]; intros i p H; [reflexivity|].
  cbn [forallb] in H. apply andb_prop in H. destruct H as [Ha Hs].
  destruct (tables c Ha) as [Hc [Ht Hl]].
  cbn [do_title ascii_title]. rewrite (IH _ _ Hs), Hc, Ht, Hl.
  destruct p; reflexivity.
Qed.

(** What the engine makes of a plain text. *)
Lemma transliterate_str_shape text :
  forallb plain_input text = true ->
  normal_form (transliterate_str is_cased to_title lower_at text).
Proof.
  intros Hplain. unfold transliterate_str, title.
  set (t := map_chars mapping (remove_quotes text)).
  assert (Ht : forallb clean (collapse_spaces false t) = true).
  { apply collapse_forallb; [reflexivity|]. apply mapped_chars. exact Hplain. }
  set (r := strip (collapse_spaces false t)).
  assert (Hr : forallb clean r = true).
  { apply (forallb_infix clean r _ (strip_infix _) Ht). }
  assert (Hc : collapsed false r = true).
  { apply (collapsed_infix false r _ (strip_infix _)).
    apply collapse_collapsed. }
  destruct (strip_trimmed (collapse_spaces false t)) as [Hl Hte].
  fold r in Hl, Hte.
  pose proof (clean_ascii r Hr) as Ha.
  rewrite (do_title_ascii r 0 false r Ha).
  destruct (ascii_title_trimmed false r Ha) as [El Et].
  unfold normal_form.
  rewrite (ascii_title_clean false r Hr), (ascii_title_collapsed false false r Ha),
    El, Et, (ascii_title_cased false r Ha).
  repeat split; assumption.
Qed.

(** The engine leaves a text of that shape as it is. *)
Lemma transliterate_str_fixed s :
  normal_form s -> transliterate_str is_cased to_title lower_at s = s.
Proof.
  intros [Hc [Hco [Hl [Ht Hti]]]]. unfold transliterate_str, title.
  pose proof (clean_ascii s Hc) as Ha.
  assert (Hq : remove_quotes s = s).
  { rewrite remove_quotes_filter. apply forallb_filter_id.
    apply forallb_forall. intros c Hin. rewrite forallb_forall in Hc.
    specialize (Hc _ Hin). unfold clean in Hc. apply andb_prop in Hc.
    apply Hc. }
  rewrite Hq, (map_chars_mapping_fixed s Ha), (collapse_fixed false s Hco),
    (strip_fixed s Hl Ht), (do_title_ascii s 0 false s Ha).
  apply ascii_title_fixed. exact Hti.
Qed.

End TitleOnAscii.

(** Second engine, output shape: with case tables that agree with the
    Unicode database on ASCII, the name made from a text of quotes, letters
    of [mapping], whitespace and ASCII characters is ASCII without any of
    the quotes, its words are separated by single spaces with none at
    either end, and a letter is a capital exactly when no letter
    precedes it. *)
Theorem transliterate_output_shape is_cased to_title lower_at text :
  ascii_tables is_cased to_title lower_at ->
  forallb plain_input text = true ->
  forallb clean (transliterate_str is_cased to_title lower_at text) = true /\
  collapsed false (transliterate_str is_cased to_title lower_at text) = true /\
  no_leading_space (transliterate_str is_cased to_title lower_at text) = true /\
  no_trailing_space (transliterate_str is_cased to_title lower_at text) = true /\
  title_cased false (transliterate_str is_cased to_title lower_at text) = true.
Proof.
  intros Htab Hplain.
  exact (transliterate_str_shape is_cased to_title lower_at Htab text Hplain).
Qed.

Lemma transliterate_output_shape_sample :
  transliterate ascii_is_cased ascii_to_title ascii_lower_at
    (JStr (u "  «улан-удэ»   ХАБАРОВСК "))
  = JStr (u "Ulan-Ude Khabarovsk") /\
  (forallb clean (u "Ulan-Ude Khabarovsk") = true /\
   collapsed false (u "Ulan-Ude Khabarovsk") = true /\
   no_leading_space (u "Ulan-Ude Khabarovsk") = true /\
   no_trailing_space (u "Ulan-Ude Khabarovsk") = true /\
   title_cased false (u "Ulan-Ude Khabarovsk") = true).
Proof.
  split; [vm_compute; reflexivity|].
  exact (transliterate_output_shape ascii_is_cased ascii_to_title
           ascii_lower_at (u "  «улан-удэ»   ХАБАРОВСК ")
           ascii_tables_ascii ltac:(vm_compute; reflexivity)).
Defined.

(** Second engine, idempotence: under the same conditions, transliterating
    a transliterated name gives the same name. *)
Theorem transliterate_idempotent is_cased to_title lower_at text :
  ascii_tables is_cased to_title lower_at ->
  forallb plain_input text = true ->
  transliterate is_cased to_title lower_at
    (transliterate is_cased to_title lower_at (JStr text))
  = transliterate is_cased to_title lower_at (JStr text).
Proof.
  intros Htab Hplain. cbn [transliterate]. f_equal.
  apply (transliterate_str_fixed is_cased to_title lower_at Htab).
  apply (transliterate_str_shape is_cased to_title lower_at Htab text Hplain).
Qed.

Lemma transliterate_idempotent_sample :
  transliterate ascii_is_cased ascii_to_title ascii_lower_at
    (transliterate ascii_is_cased ascii_to_title ascii_lower_at
       (JStr (u "пос. «Кяхта»")))
  = transliterate ascii_is_cased ascii_to_title ascii_lower_at
      (JStr (u "пос. «Кяхта»")).
Proof.
  exact (transliterate_idempotent ascii_is_cased ascii_to_title
           ascii_lower_at (u "пос. «Кяхта»")
           ascii_tables_ascii ltac:(vm_compute; reflexivity)).
Defined.
(** ** Trimming, declaratively *)

Lemma forallb_rev {A : Type} (f : A -> bool) (l : list A) :
  forallb f (rev l) = forallb f l.
Proof.
  induction l as [|x l IH]; [reflexivity|].
  cbn [rev forallb]. rewrite forallb_app, IH. cbn [forallb].
  rewrite andb_true_r. apply andb_comm.
Qed.

Lemma lstrip_app_spaces a s :
  forallb is_space a = true -> lstrip (a ++ s) = lstrip s.
Proof.
  induction a as [|c a IH]; intros H; [reflexivity|].
  cbn [forallb] in H. apply andb_prop in H. destruct H as [Hc Ha].
  cbn [app lstrip]. rewrite Hc. apply IH. exact Ha.
Qed.

Lemma lstrip_blank a : forallb is_space a = true -> lstrip a = [].
Proof.
  intros H. rewrite <- (app_nil_r a). rewrite (lstrip_app_spaces a [] H).
  reflexivity.
Qed.

Lemma strip_blank a : forallb is_space a = true -> strip a = [].
Proof. intros H. unfold strip. rewrite (lstrip_blank a H). reflexivity. Qed.

Lemma trimmed_strip s : trimmed s (strip s).
Proof.
  destruct (lstrip_spaces s) as [a [Ha Hsa]].
  destruct (lstrip_spaces (rev (lstrip s))) as [b [Hb Hsb]].
  destruct (strip_trimmed s) as [Hl Ht].
  exists a, (rev b). split; [|split; [exact Hsa|split; [|split; assumption]]].
  - rewrite Ha at 1. f_equal. unfold strip, rstrip.
    rewrite <- rev_app_distr, <- Hb, rev_involutive. reflexivity.
  - rewrite forallb_rev. exact Hsb.
Qed.

Lemma trimmed_unique s m : trimmed s m -> m = strip s.
Proof.
  intros [a [b [-> [Ha [Hb [Hl Ht]]]]]]. unfold strip.
  rewrite (lstrip_app_spaces a (m ++ b) Ha).
  destruct m as [|c m].
  - cbn [app]. rewrite (lstrip_blank b Hb). reflexivity.
  - assert (Hhead : lstrip ((c :: m) ++ b) = (c :: m) ++ b).
    { apply lstrip_fixed. exact Hl. }
    rewrite Hhead. unfold rstrip. rewrite rev_app_distr.
    rewrite (lstrip_app_spaces (rev b) (rev (c :: m)))
      by (rewrite forallb_rev; exact Hb).
    rewrite (lstrip_fixed (rev (c :: m)) Ht). symmetry. apply rev_involutive.
Qed.
(** ** The parenthetical groups, declaratively *)

Lemma space_run_split s :
  exists ws t,
    s = ws ++ t /\ forallb is_space ws = true /\ no_leading_space t = true /\
    space_run s = length ws.
Proof.
  induction s as [|c s [ws [t [Hs [Hws [Ht Hrun]]]]]].
  - exists [], []. repeat split.
  - destruct (is_space c) eqn:Hc.
    + exists (c :: ws), t. cbn [app forallb space_run length].
      rewrite Hc, Hws, Hrun, <- Hs. repeat split. exact Ht.
    + exists [], (c :: s). cbn [app forallb space_run length no_leading_space].
      rewrite Hc. repeat split.
Qed.

Lemma lazy_to_rparen_spec s : forall n,
  lazy_to_rparen s = Some n ->
  exists inner tail,
    s = inner ++ RPAREN :: tail /\ length inner = n /\
    has_char RPAREN inner = false /\ has_char NEWLINE inner = false.
Proof.
  induction s as [|c s IH]; intros n H; [discriminate H|].
  cbn [lazy_to_rparen] in H.
  destruct (c =? RPAREN)%N eqn:Hr.
  - inversion H; subst n. apply N.eqb_eq in Hr. subst c.
    exists [], s. repeat split.
  - destruct (c =? NEWLINE)%N eqn:Hn; [discriminate H|].
    destruct (lazy_to_rparen s) as [m|]; [|discriminate H].
    cbn [option_map] in H. inversion H; subst n.
    destruct (IH m eq_refl) as [inner [tail [-> [Hlen [Hir Hin]]]]].
    exists (c :: inner), tail. cbn [app length]. rewrite Hlen.
    rewrite !has_char_cons, Hir, Hin, (N.eqb_sym RPAREN c), Hr,
      (N.eqb_sym NEWLINE c), Hn.
    repeat split.
Qed.

(** A match of the pattern is a group, taken up to the first [)] and with
    all the whitespace after it. *)
Lemma paren_match_some s n :
  paren_match s = Some n ->
  exists ws1 inner ws2 rest,
    s = ws1 ++ LPAREN :: inner ++ RPAREN :: ws2 ++ rest /\
    forallb is_space ws1 = true /\
    has_char RPAREN inner = false /\ has_char NEWLINE inner = false /\
    forallb is_space ws2 = true /\ no_leading_space rest = true.
Proof.
  unfold paren_match. intros H.
  destruct (space_run_split s) as [ws1 [t [Hs [Hws [Ht Hrun]]]]].
  rewrite Hrun, Hs, skipn_length_app in H.
  destruct t as [|c inner0]; [discriminate H|].
  destruct (c =? LPAREN)%N eqn:Hc; [|discriminate H].
  apply N.eqb_eq in Hc. subst c.
  destruct (lazy_to_rparen inner0) as [m|] eqn:Hl; [|discriminate H].
  destruct (lazy_to_rparen_spec inner0 m Hl) as [inner [tail [-> [_ [Hir Hin]]]]].
  destruct (space_run_split tail) as [ws2 [rest [-> [Hws2 [Hrest _]]]]].
  exists ws1, inner, ws2, rest. rewrite Hs. repeat split; assumption.
Qed.

Lemma first_rparen inner tail :
  has_char NEWLINE inner = false ->
  exists i1 tail',
    inner ++ RPAREN :: tail = i1 ++ RPAREN :: tail' /\
    has_char RPAREN i1 = false /\ has_char NEWLINE i1 = false.
Proof.
  induction inner as [|c inner IH]; intros Hn.
  - exists [], tail. repeat split.
  - rewrite has_char_cons in Hn. apply orb_false_elim in Hn.
    destruct Hn as [Hc Hn].
    destruct (RPAREN =? c)%N eqn:Hr.
    + apply N.eqb_eq in Hr. subst c.
      exists [], (inner ++ RPAREN :: tail). repeat split.
    + destruct (IH Hn) as [i1 [tail' [Heq [H1 H2]]]].
      exists (c :: i1), tail'. cbn [app]. rewrite Heq, !has_char_cons, Hr, Hc, H1, H2.
      repeat split.
Qed.

Lemma group_at_match s : group_at s -> paren_match s <> None.
Proof.
  intros [ws [inner [tail [-> [Hws Hn]]]]].
  destruct (first_rparen inner tail Hn) as [i1 [tail' [Heq [H1 H2]]]].
  rewrite Heq.
  destruct (space_run_split tail') as [ws2 [rest [-> [Hws2 [Hrest _]]]]].
  rewrite (paren_match_group ws i1 ws2 rest) by assumption. discriminate.
Qed.

Lemma re_sub_parens_head ws1 inner ws2 rest :
  forallb is_space ws1 = true ->
  has_char RPAREN inner = false -> has_char NEWLINE inner = false ->
  forallb is_space ws2 = true -> no_leading_space rest = true ->
  re_sub_parens 0 (ws1 ++ LPAREN :: inner ++ RPAREN :: ws2 ++ rest)
  = re_sub_parens 0 rest.
Proof.
  intros H1 H2 H3 H4 H5.
  apply (re_sub_parens_group [] ws1 inner ws2 rest); try assumption; reflexivity.
Qed.

Lemma re_sub_parens_keep c s :
  paren_match (c :: s) = None ->
  re_sub_parens 0 (c :: s) = c :: re_sub_parens 0 s.
Proof. intros H. cbn [re_sub_parens]. rewrite H. reflexivity. Qed.

Lemma groups_deleted_sound s kept :
  groups_deleted s kept -> kept = re_sub_parens 0 s.
Proof.
  induction 1 as [|ws1 inner ws2 rest kept H1 H2 H3 H4 H5 _ IH
                  |c s kept Hno _ IH].
  - reflexivity.
  - rewrite re_sub_parens_head by assumption. exact IH.
  - rewrite re_sub_parens_keep, IH; [reflexivity|].
    destruct (paren_match (c :: s)) as [n|] eqn:Hm; [|reflexivity].
    exfalso. apply Hno.
    destruct (paren_match_some _ _ Hm)
      as [ws1 [inner [ws2 [rest [Heq [Hws [_ [Hn _]]]]]]]].
    exists ws1, inner, (ws2 ++ rest). repeat split; assumption.
Qed.

Lemma groups_deleted_complete_upto n : forall s,
  length s <= n -> groups_deleted s (re_sub_parens 0 s).
Proof.
  induction n as [|n IH]; intros s Hlen.
  - destruct s; [constructor | cbn [length] in Hlen; lia].
  - destruct s as [|c s]; [constructor|].
    destruct (paren_match (c :: s)) as [k|] eqn:Hm.
    + destruct (paren_match_some _ _ Hm)
        as [ws1 [inner [ws2 [rest [Heq [H1 [H2 [H3 [H4 H5]]]]]]]]].
      rewrite Heq, re_sub_parens_head by assumption.
      apply gd_group; try assumption. apply IH.
      apply (f_equal (@length char)) in Heq.
      rewrite length_app in Heq. cbn [length] in Heq.
      rewrite length_app in Heq. cbn [length] in Heq.
      rewrite length_app in Heq. cbn [length] in Hlen. lia.
    + rewrite (re_sub_parens_keep c s Hm). apply gd_keep.
      * intros Hg. apply (group_at_match _ Hg). exact Hm.
      * apply IH. cbn [length] in Hlen. lia.
Qed.

Lemma groups_deleted_complete s : groups_deleted s (re_sub_parens 0 s).
Proof. apply (groups_deleted_complete_upto (length s)). apply le_n. Qed.

(** C4, as amended: for a record with a local-language title, [full_name]
    is the transliterated title.  Reading [full_name] from left to right
    and leaving out every parenthetical group, not only the first, gives
    one text [kept] and no other; a group is a [(] with what follows up to
    the first [)] on the same line, together with the whitespace before
    and after it, and a [(] that is not closed on its line stays.
    When [full_name] has a [(], [name_en] is [kept] without the
    whitespace at its ends, and nothing else; when it has none, [name_en]
    is [full_name] itself.  [name] is [name_en], unless a non-empty
    foreign name and a non-empty [name_en] make it the composite of the
    two. *)
Theorem name_en_rule cp r s :
  normalize cp = Ok (Some r) -> title_ru cp = Ok (JStr s) -> s <> [] ->
  exists kept name_en,
    dict_lookup r k_full_name = Some (JStr (cyrillic_to_latin s))
    /\ dict_lookup r k_name_en = Some (JStr name_en)
    /\ groups_deleted (cyrillic_to_latin s) kept
    /\ (forall kept', groups_deleted (cyrillic_to_latin s) kept' -> kept' = kept)
    /\ (has_char LPAREN (cyrillic_to_latin s) = true ->
        trimmed kept name_en /\ forall m, trimmed kept m -> m = name_en)
    /\ (has_char LPAREN (cyrillic_to_latin s) = false ->
        name_en = cyrillic_to_latin s)
    /\ (exists f, foreign_checkpoint_ru cp = Ok f /\
         dict_lookup r k_name =
         Some (JStr
           (if py_truthy f
               && negb (Nat.eqb (length name_en) 0)
               && negb (Nat.eqb (length (cyrillic_to_latin (fstr f))) 0)
            then name_en ++ SEPARATOR ++ cyrillic_to_latin (fstr f)
            else name_en))).
Proof.
  intros Hn Ht Hs.
  destruct (record_names _ _ _ Hn Ht Hs) as (_ & L2 & L3 & L4).
  exists (re_sub_parens 0 (cyrillic_to_latin s)),
         (compute_name_en (cyrillic_to_latin s)).
  split; [exact L2|]. split; [exact L3|].
  split; [apply groups_deleted_complete|].
  split; [intros kept' Hk; apply groups_deleted_sound; exact Hk|].
  split; [|split; [|exact L4]].
  - intros Hl. unfold compute_name_en. rewrite Hl. split.
    + apply trimmed_strip.
    + intros m Hm. apply trimmed_unique. exact Hm.
  - intros Hl. unfold compute_name_en. rewrite Hl. reflexivity.
Qed.

Lemma name_en_rule_witness :
  exists kept name_en,
    dict_lookup zabaykalsk_record k_full_name = Some (JStr (u "Zabaykalsk (avto)"))
    /\ dict_lookup zabaykalsk_record k_name_en = Some (JStr name_en)
    /\ groups_deleted (u "Zabaykalsk (avto)") kept
    /\ (forall kept', groups_deleted (u "Zabaykalsk (avto)") kept' -> kept' = kept)
    /\ (has_char LPAREN (u "Zabaykalsk (avto)") = true ->
        trimmed kept name_en /\ forall m, trimmed kept m -> m = name_en)
    /\ (has_char LPAREN (u "Zabaykalsk (avto)") = false ->
        name_en = u "Zabaykalsk (avto)")
    /\ (exists f, foreign_checkpoint_ru zabaykalsk = Ok f /\
         dict_lookup zabaykalsk_record k_name =
         Some (JStr
           (if py_truthy f
               && negb (Nat.eqb (length name_en) 0)
               && negb (Nat.eqb (length (cyrillic_to_latin (fstr f))) 0)
            then name_en ++ SEPARATOR ++ cyrillic_to_latin (fstr f)
            else name_en))).
Proof.
  apply (name_en_rule zabaykalsk zabaykalsk_record (u "Забайкальск (авто)")).
  - vm_compute. reflexivity.
  - vm_compute. reflexivity.
  - vm_compute. discriminate.
Defined.

(** A [(] that is not closed on its line stays, and the groups after it
    are deleted all the same; a title with an unclosed [(] only is
    trimmed and nothing more. *)
Example unclosed_paren_samples :
  compute_name_en (u "Post (a" ++ [NEWLINE] ++ u "b) (v) ( g")
  = u "Post (a" ++ [NEWLINE] ++ u "b)( g"
  /\ groups_deleted (u "Post (a" ++ [NEWLINE] ++ u "b) (v) ( g")
       (u "Post (a" ++ [NEWLINE] ++ u "b)( g")
  /\ compute_name_en (u " Foo (bar ") = u "Foo (bar".
Proof.
  split; [vm_compute; reflexivity|]. split; [|vm_compute; reflexivity].
  replace (u "Post (a" ++ [NEWLINE] ++ u "b)( g")
    with (re_sub_parens 0 (u "Post (a" ++ [NEWLINE] ++ u "b) (v) ( g"))
    by (vm_compute; reflexivity).
  apply groups_deleted_complete.
Qed.
(** ** The status, for every description *)

Lemma newline_is_space : is_space NEWLINE = true.
Proof. reflexivity. Qed.

Lemma not_capturable c :
  capturable c = false -> c = NEWLINE \/ c = LESS_THAN.
Proof.
  unfold capturable. intros H. apply andb_false_elim in H.
  destruct H as [H | H]; apply negb_false_iff in H; apply N.eqb_eq in H;
    [left | right]; exact H.
Qed.

(** After a dead end no position of the whitespace run gives the group a
    character. *)
Lemma dead_end_capture r :
  dead_end r = true ->
  forall i, i <= space_run r -> capture_run (skipn i r) = [].
Proof.
  induction r as [|c r IH]; intros Hd i Hi.
  - destruct i; reflexivity.
  - cbn [dead_end] in Hd. destruct (c =? NEWLINE)%N eqn:Hn.
    + apply N.eqb_eq in Hn. subst c.
      destruct i as [|i]; [reflexivity|].
      assert (Hz : space_run (NEWLINE :: r) = S (space_run r)) by reflexivity.
      rewrite Hz in Hi. cbn [skipn]. apply IH; [exact Hd | lia].
    + apply N.eqb_eq in Hd. subst c.
      assert (Hz : space_run (LESS_THAN :: r) = 0) by reflexivity.
      rewrite Hz in Hi. assert (i = 0) by lia. subst i. reflexivity.
Qed.

Lemma backtrack_capture_none r j :
  (forall i, i <= j -> capture_run (skipn i r) = []) ->
  backtrack_capture r j = None.
Proof.
  induction j as [|j IH]; intros H.
  - cbn [backtrack_capture]. rewrite (H 0 (le_n 0)). reflexivity.
  - cbn [backtrack_capture]. rewrite (H (S j) (le_n _)).
    apply IH. intros i Hi. apply H. lia.
Qed.

Lemma backtrack_capture_some r j g :
  backtrack_capture r j = Some g ->
  exists i, i <= j /\ g = capture_run (skipn i r).
Proof.
  induction j as [|j IH]; cbn [backtrack_capture].
  - destruct (capture_run (skipn 0 r)) as [|c g'] eqn:E; [discriminate|].
    intros H. inversion H. exists 0. split; [apply le_n | symmetry; exact E].
  - destruct (capture_run (skipn (S j) r)) as [|c g'] eqn:E.
    + intros H. destruct (IH H) as [i [Hi Hg]]. exists i. split; [lia | exact Hg].
    + intros H. inversion H. exists (S j). split; [apply le_n | symmetry; exact E].
Qed.

Lemma backtrack_capture_none_inv r j :
  backtrack_capture r j = None ->
  forall i, i <= j -> capture_run (skipn i r) = [].
Proof.
  induction j as [|j IH]; cbn [backtrack_capture].
  - destruct (capture_run (skipn 0 r)) eqn:E; [|discriminate].
    intros _ i Hi. assert (i = 0) by lia. subst i. exact E.
  - destruct (capture_run (skipn (S j) r)) eqn:E; [|discriminate].
    intros H i Hi. destruct (Nat.eq_dec i (S j)) as [-> | Hne]; [exact E|].
    apply (IH H). lia.
Qed.

Lemma dead_match r :
  dead_end r = true -> status_match_here (STATUS_MARKER ++ r) = None.
Proof.
  intros Hd. unfold status_match_here.
  rewrite starts_with_app, skipn_length_app.
  apply backtrack_capture_none. apply dead_end_capture. exact Hd.
Qed.

Lemma status_match_here_dead s :
  (forall r, s = STATUS_MARKER ++ r -> dead_end r = true) ->
  status_match_here s = None.
Proof.
  intros H. destruct (starts_with STATUS_MARKER s) eqn:Hs.
  - apply starts_with_prefix in Hs. destruct Hs as [r ->].
    apply dead_match. apply H. reflexivity.
  - unfold status_match_here. rewrite Hs. reflexivity.
Qed.

(** The search passes over the occurrences that are dead ends. *)
Lemma status_search_passes pre : forall tail,
  (forall p r, pre ++ tail = p ++ STATUS_MARKER ++ r ->
     length p < length pre -> dead_end r = true) ->
  status_search (pre ++ tail) = status_search tail.
Proof.
  induction pre as [|c pre IH]; intros tail H; [reflexivity|].
  cbn [app status_search].
  rewrite status_match_here_dead.
  - apply IH. intros p r Heq Hlen.
    apply (H (c :: p) r); [cbn [app]; rewrite Heq; reflexivity|].
    cbn [length]. lia.
  - intros r Heq. apply (H [] r); [exact Heq | cbn [length]; lia].
Qed.

Lemma status_search_all_dead d :
  (forall pre r, d = pre ++ STATUS_MARKER ++ r -> dead_end r = true) ->
  status_search d = None.
Proof.
  intros H. rewrite <- (app_nil_r d).
  rewrite (status_search_passes d []).
  - reflexivity.
  - intros p r Heq _. apply (H p r). rewrite app_nil_r in Heq. exact Heq.
Qed.

Lemma capture_run_blank x rest :
  forallb is_space x = true -> ends_capture rest = true ->
  forallb is_space (capture_run (x ++ rest)) = true.
Proof.
  intros Hx Hr. induction x as [|c x IH].
  - destruct rest as [|y rest]; [reflexivity|].
    cbn [app capture_run]. cbn [ends_capture] in Hr.
    apply negb_true_iff in Hr. rewrite Hr. reflexivity.
  - cbn [forallb] in Hx. apply andb_prop in Hx. destruct Hx as [Hc Hx].
    cbn [app capture_run]. destruct (capturable c); [|reflexivity].
    cbn [forallb]. rewrite Hc. apply IH. exact Hx.
Qed.

Lemma skipn_app_le {A : Type} (i : nat) (a b : list A) :
  i <= length a -> skipn i (a ++ b) = skipn i a ++ b.
Proof.
  revert a. induction i as [|i IH]; intros a H; [reflexivity|].
  destruct a as [|x a]; [cbn [length] in H; lia|].
  cbn [app skipn]. apply IH. cbn [length] in H. lia.
Qed.

Lemma forallb_skipn {A : Type} (f : A -> bool) (i : nat) (l : list A) :
  forallb f l = true -> forallb f (skipn i l) = true.
Proof.
  revert l. induction i as [|i IH]; intros l H; [exact H|].
  destruct l as [|x l]; [reflexivity|].
  cbn [forallb] in H. apply andb_prop in H. destruct H as [_ H].
  cbn [skipn]. apply IH. exact H.
Qed.

(** Whitespace with nothing to capture at any of its positions, before a
    text that has nothing to capture either, is a dead end. *)
Lemma nothing_captured_dead ws rest :
  forallb is_space ws = true -> no_leading_space rest = true ->
  (forall i, i <= length ws -> capture_run (skipn i (ws ++ rest)) = []) ->
  dead_end (ws ++ rest) = true.
Proof.
  induction ws as [|w ws IH]; intros Hws Hrest H.
  - specialize (H 0 (le_n 0)). cbn [skipn app] in H. cbn [app].
    destruct rest as [|c rest]; [reflexivity|].
    cbn [capture_run] in H. destruct (capturable c) eqn:Hc; [discriminate H|].
    cbn [no_leading_space] in Hrest. apply negb_true_iff in Hrest.
    destruct (not_capturable c Hc) as [-> | ->].
    + rewrite newline_is_space in Hrest. discriminate Hrest.
    + reflexivity.
  - cbn [forallb] in Hws. apply andb_prop in Hws. destruct Hws as [Hw Hws].
    pose proof (H 0 (Nat.le_0_l _)) as H0. cbn [skipn app capture_run] in H0.
    destruct (capturable w) eqn:Hc; [discriminate H0|].
    destruct (not_capturable w Hc) as [-> | ->].
    + cbn [app dead_end]. rewrite N.eqb_refl.
      apply IH; [exact Hws | exact Hrest|].
      intros i Hi. apply (H (S i)). cbn [length]. lia.
    + discriminate Hw.
Qed.

(** What the pattern captures at an occurrence that is not a dead end:
    the text, or a blank when there is none. *)
Lemma live_match ws text rest :
  dead_end (ws ++ text ++ rest) = false ->
  forallb is_space ws = true -> no_leading_space (text ++ rest) = true ->
  forallb capturable text = true -> ends_capture rest = true ->
  exists g,
    status_match_here (STATUS_MARKER ++ ws ++ text ++ rest) = Some g
    /\ strip g = strip text.
Proof.
  intros Hlive Hws Hlead Hcap Hend.
  destruct text as [|c text].
  - cbn [app] in *. unfold status_match_here.
    rewrite starts_with_app, skipn_length_app.
    rewrite (space_run_before ws rest Hws Hlead).
    destruct (backtrack_capture (ws ++ rest) (length ws)) as [g|] eqn:Hb.
    + exists g. split; [reflexivity|].
      destruct (backtrack_capture_some _ _ _ Hb) as [i [Hi ->]].
      rewrite (skipn_app_le i ws rest Hi).
      rewrite !strip_blank; [reflexivity | reflexivity|].
      apply capture_run_blank; [apply forallb_skipn; exact Hws | exact Hend].
    + exfalso.
      rewrite (nothing_captured_dead ws rest Hws Hlead) in Hlive;
        [discriminate Hlive|].
      apply backtrack_capture_none_inv. exact Hb.
  - exists (c :: text). split; [|reflexivity].
    apply status_match_at_marker; assumption.
Qed.

Lemma status_search_head s g :
  status_match_here s = Some g -> status_search s = Some g.
Proof. intros H. destruct s; cbn [status_search]; rewrite H; reflexivity. Qed.

Lemma dead_before_spec n : forall d,
  dead_before n d = true ->
  forall p r, d = p ++ STATUS_MARKER ++ r -> length p < n -> dead_end r = true.
Proof.
  induction n as [|n IH]; intros d H p r Heq Hlen; [lia|].
  destruct d as [|c d].
  { destruct p; discriminate Heq. }
  cbn [dead_before] in H. apply andb_prop in H. destruct H as [Hhead Hrest].
  destruct p as [|x p].
  - cbn [app] in Heq. rewrite Heq in Hhead.
    rewrite starts_with_app, skipn_length_app in Hhead. exact Hhead.
  - cbn [app] in Heq. inversion Heq; subst.
    apply (IH _ Hrest p r eq_refl). cbn [length] in Hlen. lia.
Qed.

Lemma dead_everywhere d :
  dead_before (length d) d = true ->
  forall pre r, d = pre ++ STATUS_MARKER ++ r -> dead_end r = true.
Proof.
  intros H pre r Heq. apply (dead_before_spec (length d) d H pre r Heq).
  rewrite Heq, !length_app. cbn [length STATUS_MARKER]. lia.
Qed.

(** Every description has no occurrence to read, or a first one. *)
Lemma first_live_marker d :
  (forall pre r, d = pre ++ STATUS_MARKER ++ r -> dead_end r = true)
  \/ exists pre ws text rest,
       d = pre ++ STATUS_MARKER ++ ws ++ text ++ rest
       /\ (forall p r, d = p ++ STATUS_MARKER ++ r ->
             length p < length pre -> dead_end r = true)
       /\ dead_end (ws ++ text ++ rest) = false
       /\ forallb is_space ws = true
       /\ no_leading_space (text ++ rest) = true
       /\ forallb capturable text = true
       /\ ends_capture rest = true.
Proof.
  induction d as [|c d IH].
  - left. intros pre r H. destruct pre; discriminate H.
  - assert (Hhead : (forall r, c :: d = STATUS_MARKER ++ r -> dead_end r = true)
                    \/ exists r, c :: d = STATUS_MARKER ++ r /\ dead_end r = false).
    { destruct (starts_with STATUS_MARKER (c :: d)) eqn:Hs.
      - apply starts_with_prefix in Hs. destruct Hs as [r Hr].
        destruct (dead_end r) eqn:Hd.
        + left. intros r' Hr'. rewrite Hr in Hr'.
          apply app_inv_head in Hr'. subst r'. exact Hd.
        + right. exists r. split; assumption.
      - left. intros r Hr. rewrite Hr, starts_with_app in Hs. discriminate Hs. }
    destruct Hhead as [Hdead | [r [Hr Hlive]]].
    + destruct IH as [Hall | [pre [ws [text [rest [Hd [Hbefore Hshape]]]]]]].
      * left. intros pre r Heq. destruct pre as [|x pre].
        -- apply Hdead. exact Heq.
        -- cbn [app] in Heq. inversion Heq; subst. apply (Hall pre r eq_refl).
      * right. exists (c :: pre), ws, text, rest.
        split; [cbn [app]; rewrite Hd; reflexivity|].
        split; [|exact Hshape].
        intros p r Heq Hlen. destruct p as [|x p].
        -- apply Hdead. exact Heq.
        -- cbn [app] in Heq. inversion Heq as [[Hx Hrest]].
           apply (Hbefore p r Hrest). cbn [length] in Hlen. lia.
    + right.
      destruct (lstrip_spaces r) as [ws [Hws Hspaces]].
      destruct (capture_run_prefix (lstrip r)) as [rest Hrest].
      exists [], ws, (capture_run (lstrip r)), rest.
      assert (Hr' : r = ws ++ capture_run (lstrip r) ++ rest).
      { rewrite <- Hrest. exact Hws. }
      split; [cbn [app]; rewrite Hr, Hr' at 1; reflexivity|].
      split; [intros p r' _ Hlen; cbn [length] in Hlen; lia|].
      split; [rewrite <- Hr'; exact Hlive|].
      split; [exact Hspaces|].
      split; [rewrite <- Hrest; apply lstrip_no_leading|].
      split.
      * clear. induction (lstrip r) as [|x l IHl]; [reflexivity|].
        cbn [capture_run]. destruct (capturable x) eqn:Hx; [|reflexivity].
        cbn [forallb]. rewrite Hx. exact IHl.
      * clear - Hrest. revert rest Hrest.
        induction (lstrip r) as [|x l IHl]; intros rest Hrest.
        -- cbn [capture_run app] in Hrest. subst rest. reflexivity.
        -- cbn [capture_run] in Hrest. destruct (capturable x) eqn:Hx.
           ++ cbn [app] in Hrest. inversion Hrest as [Hl].
              apply (IHl rest Hl).
           ++ cbn [app] in Hrest. subst rest. cbn [ends_capture].
              rewrite Hx. reflexivity.
Qed.

(** C5, as amended: every description either has no occurrence of the
    marker "Статус:" that can be read, and then the status is null, or
    has a first one, and then the status is read there.  An occurrence
    cannot be read when only line breaks follow it up to the end or up to
    a [<].  At the first that can, the whitespace after the marker is
    passed, the text up to the next line break, [<] or the end is taken
    and trimmed, and the status is 1 when it contains the bilateral term
    written "Двухсторонний" or "двухсторонний", else 2 when it contains
    the multilateral term written "Многосторонний" or "многосторонний",
    else null; other spellings of the terms are not recognised. *)
Theorem extract_status_rule :
  (forall d,
     (forall pre r, d = pre ++ STATUS_MARKER ++ r -> dead_end r = true) ->
     extract_status (JStr d) = JNull)
  /\ (forall pre ws text rest m,
        (forall p r, pre ++ STATUS_MARKER ++ ws ++ text ++ rest
                     = p ++ STATUS_MARKER ++ r ->
           length p < length pre -> dead_end r = true) ->
        dead_end (ws ++ text ++ rest) = false ->
        forallb is_space ws = true ->
        no_leading_space (text ++ rest) = true ->
        forallb capturable text = true ->
        ends_capture rest = true ->
        trimmed text m ->
        extract_status (JStr (pre ++ STATUS_MARKER ++ ws ++ text ++ rest)) =
          (if contains BILATERAL_CAP m || contains BILATERAL_LOW m
           then JInt 1
           else if contains MULTILATERAL_CAP m || contains MULTILATERAL_LOW m
           then JInt 2
           else JNull))
  /\ (forall d,
        (forall pre r, d = pre ++ STATUS_MARKER ++ r -> dead_end r = true)
        \/ exists pre ws text rest,
             d = pre ++ STATUS_MARKER ++ ws ++ text ++ rest
             /\ (forall p r, d = p ++ STATUS_MARKER ++ r ->
                   length p < length pre -> dead_end r = true)
             /\ dead_end (ws ++ text ++ rest) = false
             /\ forallb is_space ws = true
             /\ no_leading_space (text ++ rest) = true
             /\ forallb capturable text = true
             /\ ends_capture rest = true).
Proof.
  split; [|split].
  - intros d H. unfold extract_status.
    rewrite (status_search_all_dead d H). reflexivity.
  - intros pre ws text rest m Hbefore Hlive Hws Hlead Hcap Hend Hm.
    unfold extract_status.
    rewrite (status_search_passes pre _ Hbefore).
    destruct (live_match ws text rest Hlive Hws Hlead Hcap Hend) as [g [Hg Hs]].
    rewrite (status_search_head _ g Hg), Hs, <- (trimmed_unique text m Hm).
    reflexivity.
  - exact first_live_marker.
Qed.

Lemma extract_status_rule_witness :
  extract_status
    (JStr (u "Статус:<br>" ++ STATUS_MARKER ++ u " "
             ++ u "Двухсторонний " ++ u "<br>Режим: круглосуточный"))
  = JInt 1
  /\ extract_status (JStr (u "Статус:" ++ [NEWLINE] ++ u "<b>закрыт</b>"))
     = JNull.
Proof.
  destruct extract_status_rule as [Hnone [Hfirst _]]. split.
  - apply (Hfirst (u "Статус:<br>") (u " ") (u "Двухсторонний ")
             (u "<br>Режим: круглосуточный") (u "Двухсторонний")).
    + apply (dead_before_spec (length (u "Статус:<br>"))).
      vm_compute. reflexivity.
    + vm_compute. reflexivity.
    + vm_compute. reflexivity.
    + vm_compute. reflexivity.
    + vm_compute. reflexivity.
    + vm_compute. reflexivity.
    + exists [], (u " "). repeat split; vm_compute; reflexivity.
  - apply (Hnone (u "Статус:" ++ [NEWLINE] ++ u "<b>закрыт</b>")).
    apply dead_everywhere. vm_compute. reflexivity.
Defined.

(** Occurrences that are passed over, and one that is read as a blank. *)
Example extract_status_passes_dead_ends :
  extract_status (JStr (u "Статус:<br>Статус: Двухсторонний <br>Режим")) = JInt 1
  /\ extract_status (JStr (u "Статус:" ++ [NEWLINE] ++ u "<b>закрыт</b>")) = JNull
  /\ extract_status
       (JStr (u "Статус: <b>Двухсторонний</b>" ++ [NEWLINE]
                ++ u "Статус: Двухсторонний")) = JNull
  /\ extract_status
       (JStr (u "Статус:" ++ [NEWLINE] ++ u "Статус: многосторонний")) = JInt 2
  /\ extract_status
       (JStr (u "Статус:" ++ [NEWLINE; NEWLINE] ++ u "Двухсторонний")) = JInt 1
  /\ extract_status
       (JStr (u "Статус: " ++ [NEWLINE] ++ u " <Двухсторонний Статус: Двухсторонний"))
     = JNull
  /\ extract_status (JStr (u "Статус:")) = JNull.
Proof. repeat split; vm_compute; reflexivity. Qed.
(** ** The feature loop of [transliterate_geojson.py] *)

Lemma str_eqb_neq a b : a <> b -> str_eqb a b = false.
Proof.
  intros H. destruct (str_eqb a b) eqn:E; [|reflexivity].
  apply str_eqb_eq in E. contradiction.
Qed.

Lemma dict_lookup_set_other d k v k' :
  k <> k' -> dict_lookup (dict_set d k v) k' = dict_lookup d k'.
Proof. intros H. rewrite dict_lookup_set, (str_eqb_neq _ _ H). reflexivity. Qed.

Lemma dict_lookup_set_same d k v : dict_lookup (dict_set d k v) k = Some v.
Proof. rewrite dict_lookup_set, str_eqb_refl. reflexivity. Qed.

Lemma holds_text_dict d k : holds_text (JObj d) k = Ok (text_at d k).
Proof.
  unfold holds_text, text_at, is_text, py_contains, dict_has, py_getitem,
    dict_getitem, bind.
  destruct (dict_lookup d k) as [[]|]; reflexivity.
Qed.

Lemma is_text_some v : is_text v = true -> exists s, v = Some (JStr s).
Proof.
  destruct v as [[]|]; try discriminate. intros _. eexists. reflexivity.
Qed.

Lemma extract_status_falsy v : py_truthy v = false -> extract_status v = JNull.
Proof.
  destruct v; try reflexivity. destruct s; [reflexivity | discriminate].
Qed.

Lemma status_step_dict d s :
  status_step (JObj d) s =
  Ok (match extract_status (description_of d) with
      | JNull => (JObj d, s)
      | v => (JObj (dict_set d k_status v), (s + 1)%Z)
      end).
Proof.
  unfold status_step, description_of, py_or, py_get, bind.
  destruct (py_truthy (dict_get d k_description (JStr []))) eqn:E1.
  - rewrite E1.
    destruct (extract_status (dict_get d k_description (JStr [])));
      reflexivity.
  - destruct (py_truthy (dict_get d k_desc (JStr []))) eqn:E2.
    + destruct (extract_status (dict_get d k_desc (JStr []))); reflexivity.
    + rewrite (extract_status_falsy _ E2). reflexivity.
Qed.

Lemma existsb_ext_in {A : Type} (f g : A -> bool) (l : list A) :
  (forall x, In x l -> f x = g x) -> existsb f l = existsb g l.
Proof.
  induction l as [|x l IH]; intros H; [reflexivity|].
  cbn [existsb]. rewrite (H x (or_introl eq_refl)). f_equal.
  apply IH. intros y Hy. apply H. right. exact Hy.
Qed.

Section FeatureLoopFacts.

Variable is_cased : char -> bool.
Variable to_title : char -> pystr.
Variable lower_at : pystr -> nat -> char -> pystr.

#[local] Abbreviation translit := (translit is_cased to_title lower_at).
#[local] Abbreviation name_step := (name_step is_cased to_title lower_at).
#[local] Abbreviation fallback := (fallback is_cased to_title lower_at).
#[local] Abbreviation feature_step := (feature_step is_cased to_title lower_at).
#[local] Abbreviation main := (main is_cased to_title lower_at).

Lemma name_step_dict d m a nk :
  name_step (JObj d, m, a) nk =
  Ok (if text_at d nk
      then (JObj (dict_set d nk (translit (dict_get d nk JNull))), (m + 1)%Z, true)
      else (JObj d, m, a)).
Proof.
  unfold name_step. rewrite holds_text_dict. cbn [bind].
  destruct (text_at d nk) eqn:E; [|reflexivity].
  unfold text_at in E. apply is_text_some in E. destruct E as [s E].
  unfold py_getitem, dict_getitem, dict_get. rewrite E. reflexivity.
Qed.

Lemma count_texts_cons d k keys :
  count_texts d (k :: keys)
  = ((if text_at d k then 1 else 0) + count_texts d keys)%Z.
Proof.
  unfold count_texts. cbn [filter]. destruct (text_at d k); [|reflexivity].
  cbn [length]. lia.
Qed.

(** The loop over the name keys, on a dict. *)
Lemma names_loop keys :
  NoDup keys -> forall d m a,
  exists d',
    for_each keys (JObj d, m, a) name_step
    = Ok (JObj d', (m + count_texts d keys)%Z, a || existsb (text_at d) keys)
    /\ (forall k, In k keys ->
          dict_lookup d' k
          = if text_at d k then option_map translit (dict_lookup d k)
            else dict_lookup d k)
    /\ (forall k, ~ In k keys -> dict_lookup d' k = dict_lookup d k).
Proof.
  induction keys as [|nk keys IH]; intros Hnd d m a.
  - exists d. cbn [for_each existsb]. unfold count_texts. cbn.
    rewrite Z.add_0_r, orb_false_r. repeat split. intros k [].
  - inversion Hnd as [|? ? Hnot Hnd']. subst.
    cbn [for_each]. rewrite name_step_dict. cbn [bind].
    assert (Hsame : forall v k, In k keys ->
              text_at (dict_set d nk v) k = text_at d k).
    { intros v k Hin. unfold text_at. rewrite dict_lookup_set_other;
        [reflexivity|]. intros ->. contradiction. }
    assert (Hcount : forall v,
              count_texts (dict_set d nk v) keys = count_texts d keys).
    { intros v. unfold count_texts. f_equal. f_equal.
      apply filter_ext_in. intros k Hin. apply Hsame. exact Hin. }
    assert (Hex : forall v,
              existsb (text_at (dict_set d nk v)) keys
              = existsb (text_at d) keys).
    { intros v. apply existsb_ext_in. intros k Hin. apply Hsame. exact Hin. }
    rewrite count_texts_cons. cbn [existsb].
    destruct (text_at d nk) eqn:Hnk.
    + set (v := translit (dict_get d nk JNull)).
      destruct (IH Hnd' (dict_set d nk v) (m + 1)%Z true) as [d' [Hrun [Hin Hout]]].
      exists d'. rewrite Hrun, Hcount, Hex. cbn [orb]. rewrite orb_true_r.
      split; [f_equal; f_equal; f_equal; lia|]. split.
      * intros k [<- | Hk].
        -- rewrite (Hout nk Hnot), dict_lookup_set_same, Hnk.
           unfold text_at in Hnk. apply is_text_some in Hnk.
           destruct Hnk as [s Hs]. unfold v, dict_get. rewrite Hs. reflexivity.
        -- rewrite (Hin k Hk), (Hsame v k Hk).
           rewrite dict_lookup_set_other; [reflexivity|].
           intros ->. contradiction.
      * intros k Hk. rewrite Hout by (intros Hin'; apply Hk; right; exact Hin').
        apply dict_lookup_set_other. intros ->. apply Hk. left. reflexivity.
    + destruct (IH Hnd' d m a) as [d' [Hrun [Hin Hout]]].
      exists d'. rewrite Hrun. cbn [orb].
      split; [f_equal; f_equal; f_equal; lia|]. split.
      * intros k [<- | Hk].
        -- rewrite (Hout nk Hnot), Hnk. reflexivity.
        -- apply Hin. exact Hk.
      * intros k Hk. apply Hout. intros Hin'. apply Hk. right. exact Hin'.
Qed.

Lemma fallback_dict d m :
  fallback (JObj d) m fallback_keys =
  Ok (if text_at d k_description
      then (JObj (dict_set d k_name (translit (dict_get d k_description JNull))),
            (m + 1)%Z)
      else if text_at d k_desc
      then (JObj (dict_set d k_name (translit (dict_get d k_desc JNull))),
            (m + 1)%Z)
      else (JObj d, m)).
Proof.
  unfold fallback_keys. cbn [fallback]. rewrite !holds_text_dict. cbn [bind].
  destruct (text_at d k_description) eqn:E1.
  - unfold text_at in E1. apply is_text_some in E1. destruct E1 as [s E1].
    unfold py_getitem, dict_getitem, dict_get. rewrite E1. reflexivity.
  - destruct (text_at d k_desc) eqn:E2; [|reflexivity].
    unfold text_at in E2. apply is_text_some in E2. destruct E2 as [s E2].
    unfold py_getitem, dict_getitem, dict_get. rewrite E2. reflexivity.
Qed.

Lemma name_keys_NoDup : NoDup name_keys.
Proof.
  unfold name_keys.
  repeat (constructor; [cbn [In]; intros H;
    repeat (destruct H as [H | H]; [discriminate H|]); exact H|]).
  constructor.
Qed.

Ltac not_a_name_key :=
  let H := fresh in
  unfold name_keys; cbn [In]; intros H;
  repeat (destruct H as [H | H]; [discriminate H|]); exact H.

(** One feature whose properties are the dict [d]: the feature the loop
    leaves, its new properties [d'], and the counters. *)
Lemma feature_step_dict f d features m s :
  properties_of f = JObj d ->
  exists d' m' s',
    feature_step (features, m, s) (JObj f)
    = Ok (features ++ [JObj (dict_set f k_properties (JObj d'))], m', s')
    /\ (forall k, In k name_keys -> text_at d k = true ->
          dict_lookup d' k = option_map translit (dict_lookup d k))
    /\ (forall k, In k name_keys -> text_at d k = false ->
          k <> k_name \/ existsb (text_at d) name_keys = true ->
          dict_lookup d' k = dict_lookup d k)
    /\ (existsb (text_at d) name_keys = false ->
          dict_lookup d' k_name
          = if text_at d k_description
            then option_map translit (dict_lookup d k_description)
            else if text_at d k_desc
            then option_map translit (dict_lookup d k_desc)
            else dict_lookup d k_name)
    /\ dict_lookup d' k_status
       = match extract_status (description_of d) with
         | JNull => dict_lookup d k_status
         | v => Some v
         end
    /\ (forall k, ~ In k name_keys -> k <> k_status ->
          dict_lookup d' k = dict_lookup d k)
    /\ m' = (m + (if existsb (text_at d) name_keys
                  then count_texts d name_keys
                  else if text_at d k_description || text_at d k_desc
                  then 1 else 0))%Z
    /\ s' = (s + match extract_status (description_of d) with
                 | JNull => 0
                 | _ => 1
                 end)%Z.
Proof.
  intros Hprops.
  destruct (names_loop name_keys name_keys_NoDup d m false)
    as [d1 [Hrun [Hin Hout]]].
  cbn [orb] in Hrun.
  assert (Hdescr : forall v, description_of (dict_set d1 k_name v) = description_of d
                             /\ description_of d1 = description_of d).
  { intros v. unfold description_of, dict_get.
    rewrite !dict_lookup_set_other by discriminate.
    rewrite !Hout by not_a_name_key. split; reflexivity. }
  assert (Hfb : forall k, k = k_description \/ k = k_desc ->
              text_at d1 k = text_at d k /\ dict_get d1 k JNull = dict_get d k JNull).
  { intros k Hk. unfold text_at, dict_get.
    destruct Hk as [-> | ->]; rewrite Hout by not_a_name_key;
      split; reflexivity. }
  destruct (Hfb k_description (or_introl eq_refl)) as [Ht1 Hg1].
  destruct (Hfb k_desc (or_intror eq_refl)) as [Ht2 Hg2].
  (* the properties after the fallback *)
  set (applied := existsb (text_at d) name_keys) in *.
  set (d2 := if applied then d1
             else if text_at d k_description
             then dict_set d1 k_name (translit (dict_get d k_description JNull))
             else if text_at d k_desc
             then dict_set d1 k_name (translit (dict_get d k_desc JNull))
             else d1).
  set (m2 := (m + (if applied then count_texts d name_keys
                   else if text_at d k_description || text_at d k_desc
                   then 1 else 0))%Z).
  assert (Hd2 : description_of d2 = description_of d).
  { unfold d2. destruct applied; [apply (Hdescr JNull)|].
    destruct (text_at d k_description); [apply Hdescr|].
    destruct (text_at d k_desc); [apply Hdescr | apply (Hdescr JNull)]. }
  set (d3 := match extract_status (description_of d) with
             | JNull => d2
             | v => dict_set d2 k_status v
             end).
  exists d3, m2.
  exists (s + match extract_status (description_of d) with
              | JNull => 0
              | _ => 1
              end)%Z.
  assert (Hstep : feature_step (features, m, s) (JObj f)
    = Ok (features ++ [JObj (dict_set f k_properties (JObj d3))], m2,
          (s + match extract_status (description_of d) with
               | JNull => 0
               | _ => 1
               end)%Z)).
  { unfold feature_step. cbn [py_get bind].
    change (py_or (dict_get f k_properties (JObj [])) (JObj []))
      with (properties_of f).
    rewrite Hprops, Hrun. cbn [bind]. fold applied.
    assert (Hsecond :
      (if applied then Ok (JObj d1, (m + count_texts d name_keys)%Z)
       else fallback (JObj d1) (m + count_texts d name_keys)%Z fallback_keys)
      = Ok (JObj d2, m2)).
    { unfold d2, m2. destruct applied eqn:Happ; [reflexivity|].
      rewrite fallback_dict, Ht1, Ht2, Hg1, Hg2.
      assert (Hzero : count_texts d name_keys = 0%Z).
      { unfold count_texts.
        replace (filter (text_at d) name_keys) with (@nil pystr); [reflexivity|].
        symmetry. clear - Happ. unfold applied in Happ.
        induction name_keys as [|k ks IH]; [reflexivity|].
        cbn [existsb] in Happ. apply orb_false_elim in Happ.
        destruct Happ as [Hk Hks]. cbn [filter]. rewrite Hk. apply IH. exact Hks. }
      rewrite Hzero.
      destruct (text_at d k_description); [f_equal; f_equal; cbn [orb]; lia|].
      destruct (text_at d k_desc); f_equal; f_equal; cbn [orb]; lia. }
    rewrite Hsecond. cbn [bind]. rewrite status_step_dict, Hd2. cbn [bind].
    unfold d3.
    destruct (extract_status (description_of d)); cbn [py_setitem bind];
      rewrite ?Z.add_0_r; reflexivity. }
  split; [exact Hstep|].
  assert (H3 : forall k, k <> k_status -> dict_lookup d3 k = dict_lookup d2 k).
  { intros k Hk. unfold d3.
    destruct (extract_status (description_of d)); try reflexivity;
      apply dict_lookup_set_other; intros E; apply Hk; symmetry; exact E. }
  assert (H2 : forall k, k <> k_name -> dict_lookup d2 k = dict_lookup d1 k).
  { intros k Hk. unfold d2. destruct applied; [reflexivity|].
    destruct (text_at d k_description);
      [apply dict_lookup_set_other; intros E; apply Hk; symmetry; exact E|].
    destruct (text_at d k_desc); [|reflexivity].
    apply dict_lookup_set_other; intros E; apply Hk; symmetry; exact E. }
  assert (Hns : forall k, In k name_keys -> k <> k_status).
  { intros k Hk ->. revert Hk. not_a_name_key. }
  assert (Happlied : forall k, In k name_keys -> text_at d k = true ->
            applied = true).
  { intros k Hk Ht. unfold applied. apply existsb_exists. exists k.
    split; assumption. }
  split; [|split; [|split; [|split; [|split; [|split]]]]].
  - intros k Hk Ht. rewrite (H3 k (Hns k Hk)).
    assert (Hd21 : d2 = d1).
    { unfold d2. rewrite (Happlied k Hk Ht). reflexivity. }
    rewrite Hd21, (Hin k Hk), Ht. reflexivity.
  - intros k Hk Ht Hor. rewrite (H3 k (Hns k Hk)).
    assert (Hd21 : dict_lookup d2 k = dict_lookup d1 k).
    { destruct Hor as [Hne | Happ]; [apply H2; exact Hne|].
      unfold d2. rewrite Happ. reflexivity. }
    rewrite Hd21, (Hin k Hk), Ht. reflexivity.
  - intros Happ. rewrite H3 by discriminate. unfold d2. rewrite Happ.
    assert (Hname : dict_lookup d1 k_name = dict_lookup d k_name).
    { rewrite (Hin k_name (or_introl eq_refl)).
      destruct (text_at d k_name) eqn:Hn; [|reflexivity].
      rewrite (Happlied k_name (or_introl eq_refl) Hn) in Happ.
      discriminate Happ. }
    destruct (text_at d k_description) eqn:E1.
    + rewrite dict_lookup_set_same. unfold text_at in E1.
      apply is_text_some in E1. destruct E1 as [x E1].
      unfold dict_get. rewrite E1. reflexivity.
    + destruct (text_at d k_desc) eqn:E2; [|exact Hname].
      rewrite dict_lookup_set_same. unfold text_at in E2.
      apply is_text_some in E2. destruct E2 as [x E2].
      unfold dict_get. rewrite E2. reflexivity.
  - unfold d3.
    assert (Hst : dict_lookup d2 k_status = dict_lookup d k_status).
    { rewrite H2 by discriminate. apply Hout. not_a_name_key. }
    destruct (extract_status (description_of d)); try exact Hst;
      apply dict_lookup_set_same.
  - intros k Hk Hks. rewrite (H3 k Hks).
    assert (Hkn : k <> k_name).
    { intros ->. apply Hk. left. reflexivity. }
    rewrite (H2 k Hkn). apply Hout. exact Hk.
  - reflexivity.
  - reflexivity.
Qed.

End FeatureLoopFacts.
(** ** What the loop does to one feature *)

Section FeatureRules.

Variable is_cased : char -> bool.
Variable to_title : char -> pystr.
Variable lower_at : pystr -> nat -> char -> pystr.

#[local] Abbreviation translit := (translit is_cased to_title lower_at).
#[local] Abbreviation feature_step := (feature_step is_cased to_title lower_at).

(** Feature loop, name fields: for a feature whose properties are an
    object (or missing, or false), the step succeeds; each of [name],
    [Name], [NAME], [title] and [label] that holds a non-blank string is
    replaced by its transliteration and counted, and when one of them
    does, the others are left as they were. *)
Theorem name_fields_rule f d features m s :
  properties_of f = JObj d ->
  exists d' m' s',
    feature_step (features, m, s) (JObj f)
    = Ok (features ++ [JObj (dict_set f k_properties (JObj d'))], m', s')
    /\ (forall k, In k name_keys -> text_at d k = true ->
          dict_lookup d' k = option_map translit (dict_lookup d k))
    /\ (existsb (text_at d) name_keys = true ->
          (forall k, In k name_keys -> text_at d k = false ->
             dict_lookup d' k = dict_lookup d k)
          /\ m' = (m + count_texts d name_keys)%Z).
Proof.
  intros Hprops.
  destruct (feature_step_dict is_cased to_title lower_at f d features m s Hprops)
    as [d' [m' [s' [Hstep [Hnames [Hkept [_ [_ [_ [Hm _]]]]]]]]]].
  exists d', m', s'. split; [exact Hstep|]. split; [exact Hnames|].
  intros Happ. split.
  - intros k Hk Ht. apply Hkept; [exact Hk | exact Ht | right; exact Happ].
  - rewrite Hm, Happ. reflexivity.
Qed.

(** Feature loop, fallback: when none of the name fields holds a
    non-blank string, [name] becomes the transliteration of
    [description] if that is a non-blank string, else of [desc] if that
    is one, and stays as it was otherwise; the other name fields are
    kept, and the write is counted once. *)
Theorem name_fallback_rule f d features m s :
  properties_of f = JObj d ->
  existsb (text_at d) name_keys = false ->
  exists d' m' s',
    feature_step (features, m, s) (JObj f)
    = Ok (features ++ [JObj (dict_set f k_properties (JObj d'))], m', s')
    /\ dict_lookup d' k_name
       = (if text_at d k_description
          then option_map translit (dict_lookup d k_description)
          else if text_at d k_desc
          then option_map translit (dict_lookup d k_desc)
          else dict_lookup d k_name)
    /\ (forall k, In k name_keys -> k <> k_name ->
          dict_lookup d' k = dict_lookup d k)
    /\ m' = (m + (if text_at d k_description || text_at d k_desc
                  then 1 else 0))%Z.
Proof.
  intros Hprops Happ.
  destruct (feature_step_dict is_cased to_title lower_at f d features m s Hprops)
    as [d' [m' [s' [Hstep [_ [Hkept [Hfb [_ [_ [Hm _]]]]]]]]]].
  exists d', m', s'. split; [exact Hstep|]. split; [exact (Hfb Happ)|].
  split.
  - intros k Hk Hne. apply Hkept; [exact Hk | | left; exact Hne].
    destruct (text_at d k) eqn:Ht; [|reflexivity].
    assert (Hex : existsb (text_at d) name_keys = true).
    { apply existsb_exists. exists k. split; assumption. }
    rewrite Hex in Happ. discriminate Happ.
  - rewrite Hm, Happ. reflexivity.
Qed.

(** Feature loop, status: the status is read from [description], or
    from [desc] when [description] is missing or counts as false; when it
    is bilateral or multilateral, [status] is set to 1 or 2 and counted,
    and otherwise the [status] the feature had is kept. *)
Theorem status_field_rule f d features m s :
  properties_of f = JObj d ->
  exists d' m' s',
    feature_step (features, m, s) (JObj f)
    = Ok (features ++ [JObj (dict_set f k_properties (JObj d'))], m', s')
    /\ dict_lookup d' k_status
       = match extract_status (description_of d) with
         | JNull => dict_lookup d k_status
         | v => Some v
         end
    /\ s' = (s + match extract_status (description_of d) with
                 | JNull => 0
                 | _ => 1
                 end)%Z.
Proof.
  intros Hprops.
  destruct (feature_step_dict is_cased to_title lower_at f d features m s Hprops)
    as [d' [m' [s' [Hstep [_ [_ [_ [Hst [_ [_ Hs]]]]]]]]]].
  exists d', m', s'. split; [exact Hstep|]. split; [exact Hst | exact Hs].
Qed.

(** Feature loop, frame: every property other than the five name fields
    and [status] keeps its value, and every member of the feature other
    than [properties] keeps its value. *)
Theorem other_fields_kept f d features m s :
  properties_of f = JObj d ->
  exists d' m' s' f',
    feature_step (features, m, s) (JObj f) = Ok (features ++ [JObj f'], m', s')
    /\ dict_lookup f' k_properties = Some (JObj d')
    /\ (forall k, ~ In k name_keys -> k <> k_status ->
          dict_lookup d' k = dict_lookup d k)
    /\ (forall k, k <> k_properties -> dict_lookup f' k = dict_lookup f k).
Proof.
  intros Hprops.
  destruct (feature_step_dict is_cased to_title lower_at f d features m s Hprops)
    as [d' [m' [s' [Hstep [_ [_ [_ [_ [Hframe _]]]]]]]]].
  exists d', m', s', (dict_set f k_properties (JObj d')).
  split; [exact Hstep|]. split; [apply dict_lookup_set_same|].
  split; [exact Hframe|].
  intros k Hk. apply dict_lookup_set_other.
  intros E. apply Hk. symmetry. exact E.
Qed.

End FeatureRules.

Lemma name_fields_rule_sample :
  exists d' m' s',
    feature_step ascii_is_cased ascii_to_title ascii_lower_at ([], 0%Z, 0%Z)
      (JObj named_feature)
    = Ok ([] ++ [JObj (dict_set named_feature k_properties (JObj d'))], m', s')
    /\ (forall k, In k name_keys -> text_at named_properties k = true ->
          dict_lookup d' k
          = option_map (translit ascii_is_cased ascii_to_title ascii_lower_at)
              (dict_lookup named_properties k))
    /\ (existsb (text_at named_properties) name_keys = true ->
          (forall k, In k name_keys -> text_at named_properties k = false ->
             dict_lookup d' k = dict_lookup named_properties k)
          /\ m' = (0 + count_texts named_properties name_keys)%Z).
Proof.
  exact (name_fields_rule ascii_is_cased ascii_to_title ascii_lower_at
           named_feature named_properties [] 0%Z 0%Z eq_refl).
Defined.

Lemma name_fallback_rule_sample :
  exists d' m' s',
    feature_step ascii_is_cased ascii_to_title ascii_lower_at ([], 0%Z, 0%Z)
      (JObj described_feature)
    = Ok ([] ++ [JObj (dict_set described_feature k_properties (JObj d'))],
          m', s')
    /\ dict_lookup d' k_name = Some (JStr (u "Punkt Propuska Korday"))
    /\ (forall k, In k name_keys -> k <> k_name ->
          dict_lookup d' k = dict_lookup described_properties k)
    /\ m' = 1%Z.
Proof.
  exact (name_fallback_rule ascii_is_cased ascii_to_title ascii_lower_at
           described_feature described_properties [] 0%Z 0%Z eq_refl eq_refl).
Defined.

Lemma status_field_rule_sample :
  exists d' m' s',
    feature_step ascii_is_cased ascii_to_title ascii_lower_at ([], 0%Z, 0%Z)
      (JObj named_feature)
    = Ok ([] ++ [JObj (dict_set named_feature k_properties (JObj d'))], m', s')
    /\ dict_lookup d' k_status = Some (JInt 1)
    /\ s' = 1%Z.
Proof.
  exact (status_field_rule ascii_is_cased ascii_to_title ascii_lower_at
           named_feature named_properties [] 0%Z 0%Z eq_refl).
Defined.

Lemma other_fields_kept_sample :
  exists d' m' s' f',
    feature_step ascii_is_cased ascii_to_title ascii_lower_at ([], 0%Z, 0%Z)
      (JObj described_feature) = Ok ([] ++ [JObj f'], m', s')
    /\ dict_lookup f' k_properties = Some (JObj d')
    /\ (forall k, ~ In k name_keys -> k <> k_status ->
          dict_lookup d' k = dict_lookup described_properties k)
    /\ (forall k, k <> k_properties ->
          dict_lookup f' k = dict_lookup described_feature k).
Proof.
  exact (other_fields_kept ascii_is_cased ascii_to_title ascii_lower_at
           described_feature described_properties [] 0%Z 0%Z eq_refl).
Defined.
(** ** The whole run of [transliterate_geojson.py] *)

Section MainFacts.

Variable is_cased : char -> bool.
Variable to_title : char -> pystr.
Variable lower_at : pystr -> nat -> char -> pystr.

#[local] Abbreviation name_step := (name_step is_cased to_title lower_at).
#[local] Abbreviation fallback := (fallback is_cased to_title lower_at).
#[local] Abbreviation feature_step := (feature_step is_cased to_title lower_at).
#[local] Abbreviation main := (main is_cased to_title lower_at).

Lemma count_texts_bound d keys :
  (0 <= count_texts d keys <= Z.of_nat (length keys))%Z.
Proof.
  unfold count_texts. pose proof (filter_length_le (text_at d) keys). lia.
Qed.

Lemma feature_step_ok features m s feat :
  well_formed feat = true ->
  exists feat' m' s',
    feature_step (features, m, s) feat = Ok (features ++ [feat'], m', s')
    /\ (exists d', with_properties feat d' feat')
    /\ (m <= m' <= m + 5)%Z /\ (s <= s' <= s + 1)%Z.
Proof.
  intros Hwf. destruct feat as [| | | | | |f]; try discriminate Hwf.
  cbn [well_formed] in Hwf.
  destruct (properties_of f) as [| | | | | |d] eqn:Hprops; try discriminate Hwf.
  destruct (feature_step_dict is_cased to_title lower_at f d features m s Hprops)
    as [d' [m' [s' [Hstep [_ [_ [_ [_ [_ [Hm Hs]]]]]]]]]].
  exists (JObj (dict_set f k_properties (JObj d'))), m', s'.
  split; [exact Hstep|]. split.
  - exists d', f. split; reflexivity.
  - pose proof (count_texts_bound d name_keys) as Hb.
    change (Z.of_nat (length name_keys)) with 5%Z in Hb.
    split.
    + rewrite Hm. destruct (existsb (text_at d) name_keys); [lia|].
      destruct (text_at d k_description || text_at d k_desc); lia.
    + rewrite Hs. destruct (extract_status (description_of d)); lia.
Qed.

Lemma features_loop_ok feats :
  forallb well_formed feats = true ->
  forall features m s,
  exists feats' m' s',
    for_each feats (features, m, s) feature_step
    = Ok (features ++ feats', m', s')
    /\ Forall2 (fun feat feat' => exists d', with_properties feat d' feat')
         feats feats'
    /\ (m <= m' <= m + 5 * Z.of_nat (length feats))%Z
    /\ (s <= s' <= s + Z.of_nat (length feats))%Z.
Proof.
  induction feats as [|feat feats IH]; intros Hall features m s.
  - exists [], m, s. cbn [for_each length]. rewrite app_nil_r.
    split; [reflexivity|]. split; [constructor|]. lia.
  - cbn [forallb] in Hall. apply andb_prop in Hall. destruct Hall as [Hwf Hall].
    destruct (feature_step_ok features m s feat Hwf)
      as [feat' [m1 [s1 [Hstep [Hrel [Hm1 Hs1]]]]]].
    destruct (IH Hall (features ++ [feat']) m1 s1)
      as [feats' [m' [s' [Hrun [Hrels [Hm Hs]]]]]].
    exists (feat' :: feats'), m', s'.
    cbn [for_each]. rewrite Hstep. cbn [bind]. rewrite Hrun, <- app_assoc.
    split; [reflexivity|]. split; [constructor; assumption|].
    cbn [length]. lia.
Qed.

Lemma holds_text_sequence p k :
  is_sequence p ->
  holds_text p k = Raise TypeError \/ holds_text p k = Ok false.
Proof.
  intros [[l ->] | [t ->]]; unfold holds_text; cbn [py_contains bind].
  - destruct (existsb (fun x => py_eq_str x k) l); [left | right]; reflexivity.
  - destruct (contains k t); [left | right]; reflexivity.
Qed.

Lemma name_step_sequence p k m a :
  is_sequence p ->
  name_step (p, m, a) k = Raise TypeError \/ name_step (p, m, a) k = Ok (p, m, a).
Proof.
  intros Hp. unfold name_step.
  destruct (holds_text_sequence p k Hp) as [H | H]; rewrite H; cbn [bind];
    [left | right]; reflexivity.
Qed.

Lemma names_loop_sequence p keys m a :
  is_sequence p ->
  for_each keys (p, m, a) name_step = Raise TypeError
  \/ for_each keys (p, m, a) name_step = Ok (p, m, a).
Proof.
  intros Hp. induction keys as [|k keys IH]; [right; reflexivity|].
  cbn [for_each].
  destruct (name_step_sequence p k m a Hp) as [H | H]; rewrite H; cbn [bind].
  - left. reflexivity.
  - exact IH.
Qed.

Lemma fallback_sequence p keys m :
  is_sequence p ->
  fallback p m keys = Raise TypeError \/ fallback p m keys = Ok (p, m).
Proof.
  intros Hp. induction keys as [|k keys IH]; [right; reflexivity|].
  cbn [fallback].
  destruct (holds_text_sequence p k Hp) as [H | H]; rewrite H; cbn [bind].
  - left. reflexivity.
  - exact IH.
Qed.

Lemma feature_step_fails state feat :
  well_formed feat = false ->
  feature_step state feat = Raise AttributeError
  \/ feature_step state feat = Raise TypeError.
Proof.
  destruct state as [[features m] s]. intros Hwf.
  destruct feat as [| | | | | |f]; try (left; reflexivity).
  cbn [well_formed] in Hwf. unfold feature_step. cbn [py_get bind].
  change (py_or (dict_get f k_properties (JObj [])) (JObj []))
    with (properties_of f).
  destruct (properties_of f) as [| | | | t | l |d]; try discriminate Hwf;
    try (right; reflexivity).
  - assert (Hp : is_sequence (JStr t)) by (right; eexists; reflexivity).
    destruct (names_loop_sequence (JStr t) name_keys m false Hp) as [H | H];
      rewrite H; cbn [bind]; [right; reflexivity|].
    destruct (fallback_sequence (JStr t) fallback_keys m Hp) as [H' | H'];
      rewrite H'; cbn [bind]; [right | left]; reflexivity.
  - assert (Hp : is_sequence (JArr l)) by (left; eexists; reflexivity).
    destruct (names_loop_sequence (JArr l) name_keys m false Hp) as [H | H];
      rewrite H; cbn [bind]; [right; reflexivity|].
    destruct (fallback_sequence (JArr l) fallback_keys m Hp) as [H' | H'];
      rewrite H'; cbn [bind]; [right | left]; reflexivity.
Qed.

Lemma features_loop_fails feats :
  forallb well_formed feats = false ->
  forall state,
  for_each feats state feature_step = Raise AttributeError
  \/ for_each feats state feature_step = Raise TypeError.
Proof.
  induction feats as [|feat feats IH]; intros Hall state; [discriminate Hall|].
  cbn [forallb] in Hall. cbn [for_each].
  destruct (well_formed feat) eqn:Hwf.
  - cbn [andb] in Hall. destruct state as [[features m] s].
    destruct (feature_step_ok features m s feat Hwf)
      as [feat' [m1 [s1 [Hstep _]]]].
    rewrite Hstep. cbn [bind]. apply IH. exact Hall.
  - destruct (feature_step_fails state feat Hwf) as [H | H]; rewrite H;
      [left | right]; reflexivity.
Qed.

(** The run, success: on a document whose [features] are a list of
    objects with properties that are an object, missing or false, the run
    succeeds; the document written has as many features in the same
    order, each differing from the one read in its properties only, and
    the counters stay within five names and one status for a feature. *)
Theorem run_on_well_formed g feats :
  dict_lookup g k_features = Some (JArr feats) ->
  forallb well_formed feats = true ->
  exists feats' modified status_extracted,
    main (JObj g)
    = Ok (JObj (dict_set g k_features (JArr feats')), modified, status_extracted)
    /\ Forall2 (fun feat feat' => exists d', with_properties feat d' feat')
         feats feats'
    /\ (0 <= modified <= 5 * Z.of_nat (length feats))%Z
    /\ (0 <= status_extracted <= Z.of_nat (length feats))%Z.
Proof.
  intros Hfeats Hall.
  destruct (features_loop_ok feats Hall [] 0%Z 0%Z)
    as [feats' [m' [s' [Hrun [Hrel [Hm Hs]]]]]].
  exists feats', m', s'. unfold main, py_get, dict_get, dict_has.
  rewrite Hfeats. cbn [bind py_iter]. rewrite Hrun. cbn [bind app].
  split; [reflexivity|]. split; [exact Hrel|]. split; lia.
Qed.

(** The run, failure: when one feature of the list is not an object, or
    has properties that are a number, [true], a non-empty list or a
    non-empty string, the run ends in an [AttributeError] or a
    [TypeError], and no document is written. *)
Theorem run_on_malformed g feats :
  dict_lookup g k_features = Some (JArr feats) ->
  forallb well_formed feats = false ->
  main (JObj g) = Raise AttributeError \/ main (JObj g) = Raise TypeError.
Proof.
  intros Hfeats Hall. unfold main, py_get, dict_get.
  rewrite Hfeats. cbn [bind py_iter].
  destruct (features_loop_fails feats Hall ([], 0%Z, 0%Z)) as [H | H];
    rewrite H; [left | right]; reflexivity.
Qed.

End MainFacts.

Lemma run_on_well_formed_sample :
  exists feats' modified status_extracted,
    main ascii_is_cased ascii_to_title ascii_lower_at (JObj two_features)
    = Ok (JObj (dict_set two_features k_features (JArr feats')),
          modified, status_extracted)
    /\ Forall2 (fun feat feat' => exists d', with_properties feat d' feat')
         [JObj named_feature; JObj described_feature] feats'
    /\ (0 <= modified <= 5 * 2)%Z
    /\ (0 <= status_extracted <= 2)%Z.
Proof.
  exact (run_on_well_formed ascii_is_cased ascii_to_title ascii_lower_at
           two_features [JObj named_feature; JObj described_feature]
           eq_refl eq_refl).
Defined.

Lemma run_on_malformed_sample :
  main ascii_is_cased ascii_to_title ascii_lower_at
    (JObj [(k_features, JArr [JObj named_feature; listed_feature])])
  = Raise AttributeError
  \/ main ascii_is_cased ascii_to_title ascii_lower_at
       (JObj [(k_features, JArr [JObj named_feature; listed_feature])])
     = Raise TypeError.
Proof.
  exact (run_on_malformed ascii_is_cased ascii_to_title ascii_lower_at
           [(k_features, JArr [JObj named_feature; listed_feature])]
           [JObj named_feature; listed_feature] eq_refl eq_refl).
Defined.
(** ** The validator *)

Lemma grows_done : grows done.
Proof. intros errors. apply le_n. Qed.

Lemma grows_report e : grows (report e).
Proof. intros errors. unfold report. cbn [fst]. rewrite length_app. lia. Qed.

Lemma grows_then a b : grows a -> grows b -> grows (a >> b).
Proof.
  intros Ha Hb errors. unfold and_then. specialize (Ha errors).
  destruct (a errors) as [errors' [e|]]; [exact Ha|].
  cbn [fst] in Ha. specialize (Hb errors'). lia.
Qed.

Lemma grows_evaluate {A : Type} (m : result A) (k : A -> checker) :
  (forall a, grows (k a)) -> grows (evaluate m k).
Proof.
  intros Hk errors. unfold evaluate. destruct m as [a|e]; [apply Hk|].
  apply le_n.
Qed.

Ltac grows_tac :=
  repeat first
    [ apply grows_done
    | apply grows_report
    | apply grows_then
    | (apply grows_evaluate; intros)
    | match goal with
      | |- grows (if ?c then _ else _) => destruct c
      | |- grows (match ?x with _ => _ end) => destruct x
      end ].

Lemma grows_check_feature i feature : grows (check_feature i feature).
Proof.
  unfold check_feature, check_feature_type, check_geometry, check_properties.
  grows_tac.
Qed.

Lemma grows_check_features fs : forall i, grows (check_features i fs).
Proof.
  induction fs as [|f fs IH]; intros i; cbn [check_features].
  - apply grows_done.
  - apply grows_then; [apply grows_check_feature | apply IH].
Qed.

Lemma flagged_then_l (a b : checker) errors :
  flagged errors (a errors) -> grows b -> flagged errors ((a >> b) errors).
Proof.
  unfold flagged, and_then. intros [Hle Hor] Hb.
  destruct (a errors) as [errors' [e|]]; [split; assumption|].
  cbn [fst snd] in *. specialize (Hb errors').
  destruct Hor as [Hlt | Hex]; [|contradiction].
  split; [lia|]. left. lia.
Qed.

Lemma flagged_then_r (a b : checker) errors :
  passed errors (a errors) -> flagged errors (b errors) ->
  flagged errors ((a >> b) errors).
Proof. unfold passed, and_then. intros Ha Hb. rewrite Ha. exact Hb. Qed.

Lemma passed_then (a b : checker) errors :
  passed errors (a errors) -> passed errors (b errors) ->
  passed errors ((a >> b) errors).
Proof. unfold passed, and_then. intros Ha Hb. rewrite Ha. exact Hb. Qed.

Lemma flagged_report e errors : flagged errors (report e errors).
Proof.
  unfold flagged, report. cbn [fst snd]. rewrite length_app. cbn [length].
  split; [lia|]. left. lia.
Qed.

Lemma flagged_raise errors e : flagged errors (errors, Some e).
Proof. unfold flagged. cbn [fst snd]. split; [lia|]. right. discriminate. Qed.

Lemma passed_not_flagged errors r : passed errors r -> ~ flagged errors r.
Proof.
  unfold passed, flagged. intros -> [_ [H | H]]; cbn [fst snd] in H;
    [lia | apply H; reflexivity].
Qed.

(** *** One feature *)

Lemma check_feature_type_object i f errors :
  match dict_lookup f k_type with
  | Some t => py_eq_str t s_Feature
  | None => false
  end = true /\ passed errors (check_feature_type i (JObj f) errors)
  \/ match dict_lookup f k_type with
     | Some t => py_eq_str t s_Feature
     | None => false
     end = false /\ flagged errors (check_feature_type i (JObj f) errors).
Proof.
  unfold check_feature_type, evaluate, py_contains, dict_has, py_getitem,
    dict_getitem.
  destruct (dict_lookup f k_type) as [t|]; cbn [negb].
  - destruct (py_eq_str t s_Feature); cbn [negb].
    + left. split; reflexivity.
    + right. split; [reflexivity | apply flagged_report].
  - right. split; [reflexivity | apply flagged_report].
Qed.

Lemma check_geometry_object i f errors :
  match dict_lookup f k_geometry with
  | Some geometry => good_geometry geometry
  | None => false
  end = true /\ passed errors (check_geometry i (JObj f) errors)
  \/ match dict_lookup f k_geometry with
     | Some geometry => good_geometry geometry
     | None => false
     end = false /\ flagged errors (check_geometry i (JObj f) errors).
Proof.
  unfold check_geometry, evaluate. cbn [py_contains py_getitem].
  unfold dict_has, dict_getitem.
  destruct (dict_lookup f k_geometry) as [geometry|]; cbn [negb];
    [|right; split; [reflexivity | apply flagged_report]].
  destruct geometry as [| | | | t | l | g];
    cbn [good_geometry py_contains py_getitem];
    try (left; split; reflexivity);
    try (right; split; [reflexivity | apply flagged_raise]).
  - (* a string *)
    right. split; [reflexivity|].
    destruct (contains k_type t); cbn [negb]; [|apply flagged_report].
    destruct (contains k_coordinates t); cbn [negb]; [|apply flagged_report].
    apply flagged_raise.
  - (* a list *)
    right. split; [reflexivity|].
    destruct (existsb (fun x => py_eq_str x k_type) l); cbn [negb];
      [|apply flagged_report].
    destruct (existsb (fun x => py_eq_str x k_coordinates) l); cbn [negb];
      [|apply flagged_report].
    apply flagged_raise.
  - (* an object *)
    unfold dict_has, dict_getitem.
    destruct (dict_lookup g k_type); cbn [negb andb];
      [|right; split; [reflexivity | apply flagged_report]].
    destruct (dict_lookup g k_coordinates) as [c|]; cbn [negb];
      [|right; split; [reflexivity | apply flagged_report]].
    destruct c; try (right; split; [reflexivity | apply flagged_report]).
    left. split; reflexivity.
Qed.

Lemma check_properties_object i f errors :
  dict_has f k_properties = true
  /\ passed errors (check_properties i (JObj f) errors)
  \/ dict_has f k_properties = false
     /\ flagged errors (check_properties i (JObj f) errors).
Proof.
  unfold check_properties, evaluate, py_contains.
  destruct (dict_has f k_properties); cbn [negb].
  - left. split; reflexivity.
  - right. split; [reflexivity | apply flagged_report].
Qed.

Lemma grows_check_geometry i feature : grows (check_geometry i feature).
Proof. unfold check_geometry. grows_tac. Qed.

Lemma grows_check_properties i feature : grows (check_properties i feature).
Proof. unfold check_properties. grows_tac. Qed.

Lemma check_feature_cases i feature errors :
  good_feature feature = true /\ passed errors (check_feature i feature errors)
  \/ good_feature feature = false
     /\ flagged errors (check_feature i feature errors).
Proof.
  assert (Hrest : grows (check_geometry i feature >> check_properties i feature)).
  { apply grows_then; [apply grows_check_geometry | apply grows_check_properties]. }
  unfold check_feature.
  destruct feature as [| | | | t | l | f]; cbn [good_feature];
    try (right; split; [reflexivity|]; apply flagged_then_l;
         [apply flagged_raise | exact Hrest]).
  - right. split; [reflexivity|]. apply flagged_then_l; [|exact Hrest].
    unfold check_feature_type, evaluate, py_contains.
    destruct (contains k_type t); cbn [negb];
      [apply flagged_raise | apply flagged_report].
  - right. split; [reflexivity|]. apply flagged_then_l; [|exact Hrest].
    unfold check_feature_type, evaluate, py_contains.
    destruct (existsb (fun x => py_eq_str x k_type) l); cbn [negb];
      [apply flagged_raise | apply flagged_report].
  - destruct (check_feature_type_object i f errors) as [[E1 H1] | [E1 H1]];
      rewrite E1; cbn [andb].
    + destruct (check_geometry_object i f errors) as [[E2 H2] | [E2 H2]];
        rewrite E2; cbn [andb].
      * destruct (check_properties_object i f errors) as [[E3 H3] | [E3 H3]];
          rewrite E3.
        -- left. split; [reflexivity|].
           apply passed_then; [exact H1|]. apply passed_then; assumption.
        -- right. split; [reflexivity|].
           apply flagged_then_r; [exact H1|].
           apply flagged_then_r; assumption.
      * right. split; [reflexivity|].
        apply flagged_then_r; [exact H1|].
        apply flagged_then_l; [exact H2 | apply grows_check_properties].
    + right. split; [reflexivity|].
      apply flagged_then_l; [exact H1 | exact Hrest].
Qed.

Lemma check_features_cases fs : forall i errors,
  forallb good_feature fs = true /\ passed errors (check_features i fs errors)
  \/ forallb good_feature fs = false
     /\ flagged errors (check_features i fs errors).
Proof.
  induction fs as [|f fs IH]; intros i errors; cbn [check_features forallb].
  - left. split; reflexivity.
  - destruct (check_feature_cases i f errors) as [[E1 H1] | [E1 H1]];
      rewrite E1; cbn [andb].
    + destruct (IH (S i) errors) as [[E2 H2] | [E2 H2]].
      * left. split; [exact E2 | apply passed_then; assumption].
      * right. split; [exact E2 | apply flagged_then_r; assumption].
    + right. split; [reflexivity|].
      apply flagged_then_l; [exact H1 | apply grows_check_features].
Qed.

(** *** A collection *)

Lemma check_collection_cases d errors :
  valid_collection d /\ passed errors (check_collection (JObj d) errors)
  \/ ~ valid_collection d /\ flagged errors (check_collection (JObj d) errors).
Proof.
  unfold check_collection, evaluate, valid_collection.
  cbn [py_contains py_getitem]. unfold dict_has, dict_getitem.
  destruct (dict_lookup d k_features) as [features|]; cbn [negb].
  - destruct features as [| | | | t | l | g]; cbn [py_len py_iter];
      try (right; split; [|apply flagged_raise];
           intros [features [fs [E [Hiter _]]]]; inversion E; subst;
           discriminate Hiter).
    + destruct (check_features_cases (map (fun c => JStr [c]) t) 0 errors)
        as [[E H] | [E H]].
      * left. split; [|exact H]. eexists _, _.
        split; [reflexivity|]. split; [reflexivity | exact E].
      * right. split; [|exact H].
        intros [features [fs [E1 [Hiter Hall]]]]. inversion E1; subst.
        inversion Hiter; subst. rewrite E in Hall. discriminate Hall.
    + destruct (check_features_cases l 0 errors) as [[E H] | [E H]].
      * left. split; [|exact H]. eexists _, _.
        split; [reflexivity|]. split; [reflexivity | exact E].
      * right. split; [|exact H].
        intros [features [fs [E1 [Hiter Hall]]]]. inversion E1; subst.
        inversion Hiter; subst. rewrite E in Hall. discriminate Hall.
    + destruct (check_features_cases (map (fun kv => JStr (fst kv)) g) 0 errors)
        as [[E H] | [E H]].
      * left. split; [|exact H]. eexists _, _.
        split; [reflexivity|]. split; [reflexivity | exact E].
      * right. split; [|exact H].
        intros [features [fs [E1 [Hiter Hall]]]]. inversion E1; subst.
        inversion Hiter; subst. rewrite E in Hall. discriminate Hall.
  - right. split; [|apply flagged_report].
    intros [features [fs [E _]]]. discriminate E.
Qed.

Lemma collection_type_known :
  existsb (py_eq_str (JStr s_FeatureCollection)) GEOJSON_TYPES = true.
Proof. reflexivity. Qed.

Lemma checks_collection d errors :
  dict_lookup d k_type = Some (JStr s_FeatureCollection) ->
  checks (JObj d) errors = check_collection (JObj d) errors.
Proof.
  intros Htype. unfold checks, check_type, and_then, evaluate.
  cbn [py_contains py_getitem py_get].
  unfold dict_has, dict_getitem, dict_get. rewrite Htype. cbn [negb].
  rewrite collection_type_known. cbn [negb done]. reflexivity.
Qed.

Lemma validate_passed data :
  passed [] (checks data []) -> validate_geojson data = (true, []).
Proof. unfold passed, validate_geojson. intros ->. reflexivity. Qed.

Lemma validate_flagged data :
  flagged [] (checks data []) -> fst (validate_geojson data) = false.
Proof.
  unfold flagged, validate_geojson. intros [_ Hor].
  destruct (checks data []) as [errors [e|]]; [reflexivity|].
  cbn [fst snd] in *. destruct Hor as [Hlt | Hex]; [|contradiction Hex; reflexivity].
  destruct errors; [cbn in Hlt; lia | reflexivity].
Qed.

Lemma collection_checks d :
  dict_lookup d k_type = Some (JStr s_FeatureCollection) ->
  (valid_collection d /\ validate_geojson (JObj d) = (true, []))
  \/ (~ valid_collection d /\ fst (validate_geojson (JObj d)) = false).
Proof.
  intros Htype.
  destruct (check_collection_cases d []) as [[Hv H] | [Hv H]].
  - left. split; [exact Hv|]. apply validate_passed.
    unfold passed. rewrite (checks_collection d [] Htype). exact H.
  - right. split; [exact Hv|]. apply validate_flagged.
    rewrite (checks_collection d [] Htype). exact H.
Qed.

(** Validator, collections: a [FeatureCollection] is reported valid, with
    no error, exactly when it has [features] that can be run through and
    every one of them is an object of type [Feature] with a [properties]
    member and a geometry that is [null] or an object with a [type] and a
    list of [coordinates]. *)
Theorem collection_validity d :
  dict_lookup d k_type = Some (JStr s_FeatureCollection) ->
  (fst (validate_geojson (JObj d)) = true <-> valid_collection d)
  /\ (valid_collection d -> validate_geojson (JObj d) = (true, [])).
Proof.
  intros Htype.
  destruct (collection_checks d Htype) as [[Hv H] | [Hv H]].
  - split; [|intros _; exact H]. rewrite H. split; [intros _; exact Hv | reflexivity].
  - split; [|intros Hc; contradiction].
    rewrite H. split; [discriminate | intros Hc; contradiction].
Qed.

Lemma collection_validity_sample :
  (fst (validate_geojson (JObj two_features)) = true
   <-> valid_collection two_features)
  /\ (valid_collection two_features ->
      validate_geojson (JObj two_features) = (true, [])).
Proof. exact (collection_validity two_features eq_refl). Defined.

(** Validator, bare geometries: a document whose type is
    [GeometryCollection] or one of the six geometry types is reported
    valid whatever else it holds; its coordinates are not looked at. *)
Theorem bare_geometry_unchecked t d :
  In t GEOMETRY_TYPES ->
  dict_lookup d k_type = Some (JStr t) ->
  validate_geojson (JObj d) = (true, []).
Proof.
  intros Hin Htype. apply validate_passed.
  unfold passed, checks, check_type, and_then, evaluate.
  cbn [py_contains py_getitem py_get].
  unfold dict_has, dict_getitem, dict_get. rewrite Htype. cbn [negb].
  unfold GEOMETRY_TYPES in Hin. cbn [In] in Hin.
  repeat (destruct Hin as [<- | Hin]; [reflexivity|]).
  destruct Hin.
Qed.

Lemma bare_geometry_unchecked_sample :
  validate_geojson
    (JObj [(k_type, JStr s_Point); (k_coordinates, JStr (u "here"))])
  = (true, []).
Proof.
  exact (bare_geometry_unchecked s_Point
           [(k_type, JStr s_Point); (k_coordinates, JStr (u "here"))]
           ltac:(vm_compute; tauto) eq_refl).
Defined.

(** Validator, other documents: a document that is not an object is
    never valid; the exception its checks end in is caught and reported
    as the last error. *)
Theorem not_an_object_invalid data :
  (forall d, data <> JObj d) ->
  exists errors e, validate_geojson data = (false, errors ++ [ErrorReading e]).
Proof.
  intros Hno. unfold validate_geojson, checks, check_type, and_then, evaluate.
  destruct data as [| | | | t | l | d]; cbn [py_contains py_getitem py_get];
    try (exists [], TypeError; reflexivity).
  - destruct (contains k_type t); cbn [negb].
    + exists [], TypeError. reflexivity.
    + exists [MissingType], AttributeError. reflexivity.
  - destruct (existsb (fun x => py_eq_str x k_type) l); cbn [negb].
    + exists [], TypeError. reflexivity.
    + exists [MissingType], AttributeError. reflexivity.
  - exfalso. apply (Hno d). reflexivity.
Qed.

Lemma not_an_object_invalid_sample :
  exists errors e,
    validate_geojson (JArr [JObj named_feature])
    = (false, errors ++ [ErrorReading e]).
Proof.
  exact (not_an_object_invalid (JArr [JObj named_feature])
           ltac:(intros d; discriminate)).
Defined.
(** ** The scripts together *)

Lemma valid_collection_passes d :
  dict_lookup d k_type = Some (JStr s_FeatureCollection) ->
  valid_collection d -> validate_geojson (JObj d) = (true, []).
Proof.
  intros Htype Hv.
  destruct (collection_checks d Htype) as [[_ H] | [Hn _]];
    [exact H | contradiction].
Qed.

Lemma good_make_feature lon lat properties :
  good_feature (make_feature lon lat properties) = true.
Proof. reflexivity. Qed.

Section EmissionIsValid.

Variable float_of_str : pystr -> option spec_float.

Lemma emit_item_good features skipped item acc' :
  forallb good_feature features = true ->
  emit_item float_of_str (features, skipped) item = Ok acc' ->
  forallb good_feature (fst acc') = true.
Proof.
  intros Hall. unfold emit_item.
  destruct (read_coordinates float_of_str item) as [[lat lon]|e].
  - destruct (py_items item) as [fields|e]; cbn [bind]; [|discriminate].
    intros H. inversion H; subst. cbn [fst].
    rewrite forallb_app, Hall. reflexivity.
  - destruct (caught e); [|discriminate].
    intros H. inversion H; subst. exact Hall.
Qed.

(** Emission then validation: every document that [json_to_geojson]
    builds is reported valid, with no error, by [validate_geojson]. *)
Theorem emitted_document_valid data doc skipped :
  json_to_geojson float_of_str data = Ok (doc, skipped) ->
  validate_geojson doc = (true, []).
Proof.
  unfold json_to_geojson. destruct data as [| | | | | items |]; try discriminate.
  destruct (for_each items ([], 0) (emit_item float_of_str)) as [r|e] eqn:Hrun;
    cbn [bind]; [|discriminate].
  intros H. inversion H; subst. clear H.
  apply valid_collection_passes; [reflexivity|].
  exists (JArr (fst r)), (fst r).
  split; [reflexivity|]. split; [reflexivity|].
  apply (for_each_invariant
           (fun st : list json * nat => forallb good_feature (fst st) = true)
           (emit_item float_of_str) items) with (acc := ([], 0));
    [|reflexivity | exact Hrun].
  intros [features sk] x acc' _ Hacc Hstep.
  apply (emit_item_good features sk x acc' Hacc Hstep).
Qed.

End EmissionIsValid.

Lemma emitted_document_valid_sample :
  json_to_geojson decimal_float_of_str (JArr [item_zabaykalsk; item_null_longitude])
  = Ok (emitted_sample, 1)
  /\ validate_geojson emitted_sample = (true, []).
Proof.
  split; [vm_compute; reflexivity|].
  apply (emitted_document_valid decimal_float_of_str
           (JArr [item_zabaykalsk; item_null_longitude]) emitted_sample 1).
  vm_compute. reflexivity.
Defined.

(** *** Transliteration keeps a valid document valid *)

Lemma good_feature_with_properties feat d' feat' :
  good_feature feat = true -> with_properties feat d' feat' ->
  good_feature feat' = true.
Proof.
  intros Hgood [f [-> ->]]. cbn [good_feature] in *.
  unfold dict_has. rewrite dict_lookup_set_same.
  rewrite !dict_lookup_set_other by discriminate.
  rewrite andb_true_r. apply andb_prop in Hgood. destruct Hgood as [Hgood _].
  exact Hgood.
Qed.

Lemma good_features_with_properties feats feats' :
  forallb good_feature feats = true ->
  Forall2 (fun feat feat' => exists d', with_properties feat d' feat')
    feats feats' ->
  forallb good_feature feats' = true.
Proof.
  intros Hall Hrel. induction Hrel as [|feat feat' feats feats' [d' Hw] Hrel IH];
    [reflexivity|].
  cbn [forallb] in *. apply andb_prop in Hall. destruct Hall as [Hg Hall].
  rewrite (good_feature_with_properties feat d' feat' Hg Hw). apply IH. exact Hall.
Qed.

(** Outside a collection the checks do not read [features]. *)
Lemma checks_other d d' errors :
  (forall k, k <> k_features -> dict_lookup d' k = dict_lookup d k) ->
  dict_lookup d k_type <> Some (JStr s_FeatureCollection) ->
  checks (JObj d') errors = checks (JObj d) errors.
Proof.
  intros Hsame Htype.
  unfold checks, check_type, check_single, and_then, evaluate.
  cbn [py_contains py_getitem py_get].
  unfold dict_has, dict_getitem, dict_get.
  rewrite (Hsame k_type), (Hsame k_geometry), (Hsame k_properties)
    by discriminate.
  destruct (dict_lookup d k_type) as [t|]; cbn [negb py_eq_str].
  - destruct (py_eq_str t s_FeatureCollection) eqn:E; [|reflexivity].
    apply py_eq_str_true in E. subst t. exfalso. apply Htype. reflexivity.
  - reflexivity.
Qed.

Section ValidityKept.

Variable is_cased : char -> bool.
Variable to_title : char -> pystr.
Variable lower_at : pystr -> nat -> char -> pystr.

#[local] Abbreviation feature_step := (feature_step is_cased to_title lower_at).
#[local] Abbreviation main := (main is_cased to_title lower_at).

Lemma main_on_list g feats geo' m s :
  dict_lookup g k_features = Some (JArr feats) ->
  main (JObj g) = Ok (geo', m, s) ->
  exists feats',
    geo' = JObj (dict_set g k_features (JArr feats'))
    /\ Forall2 (fun feat feat' => exists d', with_properties feat d' feat')
         feats feats'.
Proof.
  intros Hfeats Hmain.
  destruct (forallb well_formed feats) eqn:Hwf.
  - destruct (features_loop_ok is_cased to_title lower_at feats Hwf [] 0%Z 0%Z)
      as [feats' [m' [s' [Hrun [Hrel _]]]]].
    unfold main, py_get, dict_get, dict_has in Hmain.
    rewrite Hfeats in Hmain. cbn [bind py_iter] in Hmain.
    rewrite Hrun in Hmain. cbn [bind app] in Hmain.
    inversion Hmain; subst. exists feats'. split; [reflexivity | exact Hrel].
  - exfalso. unfold main, py_get, dict_get in Hmain.
    rewrite Hfeats in Hmain. cbn [bind py_iter] in Hmain.
    destruct (features_loop_fails is_cased to_title lower_at feats Hwf
                ([], 0%Z, 0%Z)) as [H | H];
      rewrite H in Hmain; discriminate Hmain.
Qed.

Lemma main_not_on_list g geo' m s :
  (forall feats, dict_lookup g k_features <> Some (JArr feats)) ->
  main (JObj g) = Ok (geo', m, s) ->
  geo' = JObj g.
Proof.
  intros Hno Hmain. unfold main, py_get, dict_get, dict_has in Hmain.
  destruct (dict_lookup g k_features) as [features|].
  - cbn [bind] in Hmain.
    destruct features as [| | | | t | l | o]; cbn [py_iter bind] in Hmain;
      try discriminate Hmain.
    + destruct (for_each (map (fun c => JStr [c]) t) ([], 0%Z, 0%Z) feature_step)
        as [[[a b] c]|e]; cbn [bind] in Hmain; [|discriminate Hmain].
      inversion Hmain. reflexivity.
    + exfalso. apply (Hno l). reflexivity.
    + destruct (for_each (map (fun kv => JStr (fst kv)) o) ([], 0%Z, 0%Z)
                  feature_step)
        as [[[a b] c]|e]; cbn [bind] in Hmain; [|discriminate Hmain].
      inversion Hmain. reflexivity.
  - cbn [bind py_iter for_each] in Hmain. inversion Hmain. reflexivity.
Qed.

(** Transliteration then validation: when the run over a document that
    [validate_geojson] reports valid succeeds, the document it writes is
    reported valid as well. *)
Theorem validity_kept g geo' modified status_extracted :
  validate_geojson (JObj g) = (true, []) ->
  main (JObj g) = Ok (geo', modified, status_extracted) ->
  validate_geojson geo' = (true, []).
Proof.
  intros Hvalid Hmain.
  assert (Hlist : (exists feats, dict_lookup g k_features = Some (JArr feats))
                  \/ forall feats, dict_lookup g k_features <> Some (JArr feats)).
  { destruct (dict_lookup g k_features) as [[| | | | |l|]|];
      try (right; intros feats; discriminate).
    left. exists l. reflexivity. }
  destruct Hlist as [[feats Hfeats] | Hno];
    [|rewrite (main_not_on_list g geo' _ _ Hno Hmain); exact Hvalid].
  destruct (main_on_list g feats geo' _ _ Hfeats Hmain) as [feats' [-> Hrel]].
  assert (Hdec : dict_lookup g k_type = Some (JStr s_FeatureCollection)
                 \/ dict_lookup g k_type <> Some (JStr s_FeatureCollection)).
  { destruct (dict_lookup g k_type) as [t|]; [|right; discriminate].
    destruct (py_eq_str t s_FeatureCollection) eqn:E.
    - left. apply py_eq_str_true in E. subst t. reflexivity.
    - right. intros H. inversion H; subst. discriminate E. }
  destruct Hdec as [Htype | Htype].
  - apply valid_collection_passes.
    + rewrite dict_lookup_set_other by discriminate. exact Htype.
    + destruct (collection_checks g Htype) as [[Hv _] | [_ Hf]];
        [|rewrite Hvalid in Hf; discriminate Hf].
      destruct Hv as [features [fs [E [Hiter Hall]]]].
      rewrite Hfeats in E. inversion E; subst. inversion Hiter; subst.
      exists (JArr feats'), feats'.
      split; [apply dict_lookup_set_same|]. split; [reflexivity|].
      apply (good_features_with_properties fs feats' Hall Hrel).
  - unfold validate_geojson in *.
    rewrite (checks_other g (dict_set g k_features (JArr feats')) []);
      [exact Hvalid | | exact Htype].
    intros k Hk. apply dict_lookup_set_other.
    intros E. apply Hk. symmetry. exact E.
Qed.

End ValidityKept.

Lemma validity_kept_sample :
  validate_geojson (JObj two_features) = (true, [])
  /\ validate_geojson transliterated_sample = (true, []).
Proof.
  split; [vm_compute; reflexivity|].
  apply (validity_kept ascii_is_cased ascii_to_title ascii_lower_at
           two_features transliterated_sample 2%Z 1%Z).
  - vm_compute. reflexivity.
  - vm_compute. reflexivity.
Defined.
(** ** The default output path of [json_to_geojson.py] *)

Lemma rfind_from_none c s : forall i found,
  has_char c s = false -> rfind_from c s i found = found.
Proof.
  induction s as [|x s IH]; intros i found H; [reflexivity|].
  rewrite has_char_cons in H. apply orb_false_elim in H. destruct H as [Hx Hs].
  cbn [rfind_from]. rewrite N.eqb_sym, Hx. apply IH. exact Hs.
Qed.

Lemma rfind_from_last c a b : forall i found,
  has_char c b = false ->
  rfind_from c (a ++ c :: b) i found = (i + Z.of_nat (length a))%Z.
Proof.
  induction a as [|x a IH]; intros i found Hb.
  - cbn [app rfind_from length]. rewrite N.eqb_refl.
    rewrite (rfind_from_none c b _ _ Hb). cbn. lia.
  - cbn [app rfind_from length]. rewrite (IH _ _ Hb). lia.
Qed.

Lemma last_occurrence c s :
  has_char c s = true ->
  exists a b, s = a ++ c :: b /\ has_char c b = false.
Proof.
  induction s as [|x s IH]; intros H; [discriminate H|].
  destruct (has_char c s) eqn:Hs.
  - destruct (IH eq_refl) as [a [b [-> Hb]]].
    exists (x :: a), b. split; [reflexivity | exact Hb].
  - rewrite has_char_cons, Hs, orb_false_r in H. apply N.eqb_eq in H. subst x.
    exists [], s. split; [reflexivity | exact Hs].
Qed.

Lemma rfind_none c s : has_char c s = false -> rfind c s = (-1)%Z.
Proof. apply rfind_from_none. Qed.

Lemma rfind_last c a b :
  has_char c b = false -> rfind c (a ++ c :: b) = Z.of_nat (length a).
Proof. intros H. unfold rfind. rewrite (rfind_from_last c a b _ _ H). lia. Qed.

Lemma skipn_past a (c : char) b : skipn (length a + 1) (a ++ c :: b) = b.
Proof.
  induction a as [|x a IH]; [reflexivity|]. cbn [length app plus skipn].
  exact IH.
Qed.

Lemma basename_no_slash p : has_char SLASH (basename p) = false.
Proof.
  unfold basename. destruct (has_char SLASH p) eqn:H.
  - destruct (last_occurrence SLASH p H) as [a [b [-> Hb]]].
    rewrite (rfind_last SLASH a b Hb).
    replace (Z.to_nat (Z.of_nat (length a) + 1)) with (length a + 1) by lia.
    rewrite skipn_past. exact Hb.
  - rewrite (rfind_none SLASH p H). exact H.
Qed.

Lemma basename_of dir rest :
  dir = [] \/ (exists d, dir = d ++ [SLASH]) ->
  has_char SLASH rest = false ->
  basename (dir ++ rest) = rest.
Proof.
  intros [-> | [d ->]] Hrest; unfold basename.
  - cbn [app]. rewrite (rfind_none SLASH rest Hrest). reflexivity.
  - rewrite <- app_assoc. cbn [app]. rewrite (rfind_last SLASH d rest Hrest).
    replace (Z.to_nat (Z.of_nat (length d) + 1)) with (length d + 1) by lia.
    apply skipn_past.
Qed.

Lemma has_char_firstn c n s :
  has_char c s = false -> has_char c (firstn n s) = false.
Proof.
  revert n. induction s as [|x s IH]; intros [|n] H; try reflexivity.
  rewrite has_char_cons in H. apply orb_false_elim in H. destruct H as [Hx Hs].
  cbn [firstn]. rewrite has_char_cons, Hx. apply IH. exact Hs.
Qed.

Lemma skip_leading_dots_prefix p dotIndex : forall steps filenameIndex,
  fst (skip_leading_dots p filenameIndex steps dotIndex) = p
  \/ fst (skip_leading_dots p filenameIndex steps dotIndex) = firstn dotIndex p.
Proof.
  induction steps as [|steps IH]; intros j; cbn [skip_leading_dots].
  - left. reflexivity.
  - destruct (negb (str_eqb (firstn 1 (skipn j p)) [DOT])); [right; reflexivity|].
    apply IH.
Qed.

Lemma splitext_no_slash p :
  has_char SLASH p = false -> has_char SLASH (fst (splitext p)) = false.
Proof.
  intros H. unfold splitext.
  destruct (rfind SLASH p <? rfind DOT p)%Z; [|exact H].
  destruct (skip_leading_dots_prefix p (Z.to_nat (rfind DOT p))
              (Z.to_nat (rfind DOT p) - Z.to_nat (rfind SLASH p + 1))
              (Z.to_nat (rfind SLASH p + 1))) as [E | E]; rewrite E;
    [exact H | apply has_char_firstn; exact H].
Qed.

Lemma skipn_next {A : Type} (j : nat) (p : list A) x r :
  skipn j p = x :: r -> skipn (S j) p = r.
Proof.
  revert p. induction j as [|j IH]; intros p H.
  - cbn [skipn] in H. subst p. reflexivity.
  - destruct p as [|y p]; [discriminate H|]. cbn [skipn] in H.
    change (skipn (S (S j)) (y :: p)) with (skipn (S j) p). apply IH. exact H.
Qed.

Lemma skip_leading_dots_step p j steps dotIndex x r :
  skipn j p = x :: r ->
  skip_leading_dots p j (S steps) dotIndex
  = if (x =? DOT)%N then skip_leading_dots p (S j) steps dotIndex
    else (firstn dotIndex p, skipn dotIndex p).
Proof.
  intros Hs.
  change (skip_leading_dots p j (S steps) dotIndex)
    with (if negb (str_eqb (firstn 1 (skipn j p)) [DOT])
          then (firstn dotIndex p, skipn dotIndex p)
          else skip_leading_dots p (S j) steps dotIndex).
  rewrite Hs. cbn [firstn str_eqb]. rewrite andb_true_r.
  destruct (x =? DOT)%N; reflexivity.
Qed.

(** The loop stops at the first character of the name that is not a dot. *)
Lemma skip_leading_dots_found p dotIndex : forall steps filenameIndex,
  existsb (fun c : char => negb (c =? DOT)%N) (firstn steps (skipn filenameIndex p))
  = true ->
  skip_leading_dots p filenameIndex steps dotIndex
  = (firstn dotIndex p, skipn dotIndex p).
Proof.
  induction steps as [|steps IH]; intros j H; [discriminate H|].
  destruct (skipn j p) as [|x r] eqn:Hs; [discriminate H|].
  cbn [firstn existsb] in H. rewrite (skip_leading_dots_step p j steps _ x r Hs).
  destruct (x =? DOT)%N eqn:Hx; cbn [negb orb] in H; [|reflexivity].
  apply IH. rewrite (skipn_next j p x r Hs). exact H.
Qed.

(** It runs to its end over a name that is all dots. *)
Lemma skip_leading_dots_all p dotIndex : forall steps filenameIndex,
  forallb (fun c : char => (c =? DOT)%N) (firstn steps (skipn filenameIndex p)) = true ->
  steps <= length (skipn filenameIndex p) ->
  skip_leading_dots p filenameIndex steps dotIndex = (p, []).
Proof.
  induction steps as [|steps IH]; intros j H Hlen; [reflexivity|].
  destruct (skipn j p) as [|x r] eqn:Hs; [cbn [length] in Hlen; lia|].
  cbn [firstn forallb] in H. apply andb_prop in H. destruct H as [Hx Hr].
  rewrite (skip_leading_dots_step p j steps _ x r Hs), Hx.
  apply IH; rewrite (skipn_next j p x r Hs); [exact Hr|].
  cbn [length] in Hlen. lia.
Qed.

Lemma firstn_exact {A : Type} (a b : list A) : firstn (length a) (a ++ b) = a.
Proof.
  induction a as [|x a IH]; [destruct b; reflexivity|].
  cbn [length app firstn]. rewrite IH. reflexivity.
Qed.

Lemma skipn_exact {A : Type} (a b : list A) : skipn (length a) (a ++ b) = b.
Proof. induction a as [|x a IH]; [reflexivity | exact IH]. Qed.

Lemma splitext_indexes stem ext :
  has_char SLASH stem = false -> has_char SLASH ext = false ->
  has_char DOT ext = false ->
  rfind SLASH (stem ++ DOT :: ext) = (-1)%Z
  /\ rfind DOT (stem ++ DOT :: ext) = Z.of_nat (length stem).
Proof.
  intros Hs He Hd. split.
  - apply rfind_none. rewrite has_char_app, Hs, has_char_cons, He. reflexivity.
  - apply rfind_last. exact Hd.
Qed.

Lemma splitext_stem (stem ext : pystr) :
  has_char SLASH stem = false -> has_char SLASH ext = false ->
  has_char DOT ext = false ->
  existsb (fun c : char => negb (c =? DOT)%N) stem = true ->
  splitext (stem ++ DOT :: ext) = (stem, DOT :: ext).
Proof.
  intros Hs He Hd Hstem. unfold splitext.
  destruct (splitext_indexes stem ext Hs He Hd) as [-> ->].
  assert (Hlt : (-1 <? Z.of_nat (length stem))%Z = true) by (apply Z.ltb_lt; lia).
  rewrite Hlt. cbn [Z.add Z.to_nat Z.opp Z.pos_sub]. rewrite Nat2Z.id, Nat.sub_0_r.
  rewrite skip_leading_dots_found.
  - rewrite firstn_exact, skipn_exact. reflexivity.
  - cbn [skipn]. rewrite firstn_exact. exact Hstem.
Qed.

Lemma splitext_dots (stem ext : pystr) :
  has_char SLASH stem = false -> has_char SLASH ext = false ->
  has_char DOT ext = false ->
  forallb (fun c : char => (c =? DOT)%N) stem = true ->
  splitext (stem ++ DOT :: ext) = (stem ++ DOT :: ext, []).
Proof.
  intros Hs He Hd Hstem. unfold splitext.
  destruct (splitext_indexes stem ext Hs He Hd) as [-> ->].
  assert (Hlt : (-1 <? Z.of_nat (length stem))%Z = true) by (apply Z.ltb_lt; lia).
  rewrite Hlt. cbn [Z.add Z.to_nat Z.opp Z.pos_sub]. rewrite Nat2Z.id, Nat.sub_0_r.
  apply skip_leading_dots_all.
  - cbn [skipn]. rewrite firstn_exact. exact Hstem.
  - cbn [skipn]. rewrite length_app. lia.
Qed.

(** Command line, default output: with one path on the command line the
    output is named in the working directory, with no [/] in its name and
    [.geojson] at its end; for a file name [stem.ext] whose stem has a
    character other than the dot, whatever the directory, it is
    [stem.geojson]; a file name whose last dot follows dots only keeps
    its whole name before [.geojson]. *)
Theorem default_output_path :
  (forall (program input_path : pystr),
     exists base : pystr,
       json_to_geojson_main [program; input_path]
       = Ok (input_path, base ++ GEOJSON_EXT)
       /\ has_char SLASH (base ++ GEOJSON_EXT) = false)
  /\ (forall (program dir stem ext : pystr),
        dir = [] \/ (exists d, dir = d ++ [SLASH]) ->
        has_char SLASH stem = false -> has_char SLASH ext = false ->
        has_char DOT ext = false ->
        existsb (fun c : char => negb (c =? DOT)%N) stem = true ->
        json_to_geojson_main [program; dir ++ stem ++ DOT :: ext]
        = Ok (dir ++ stem ++ DOT :: ext, stem ++ GEOJSON_EXT))
  /\ (forall (program dir dots ext : pystr),
        dir = [] \/ (exists d, dir = d ++ [SLASH]) ->
        has_char SLASH ext = false -> has_char DOT ext = false ->
        forallb (fun c : char => (c =? DOT)%N) dots = true ->
        json_to_geojson_main [program; dir ++ dots ++ DOT :: ext]
        = Ok (dir ++ dots ++ DOT :: ext, (dots ++ DOT :: ext) ++ GEOJSON_EXT)).
Proof.
  split; [|split].
  - intros program input_path.
    exists (fst (splitext (basename input_path))).
    split; [reflexivity|].
    rewrite has_char_app, (splitext_no_slash _ (basename_no_slash input_path)).
    reflexivity.
  - intros program dir stem ext Hdir Hs He Hd Hstem.
    assert (Hname : has_char SLASH (stem ++ DOT :: ext) = false).
    { rewrite has_char_app, Hs, has_char_cons, He. reflexivity. }
    unfold json_to_geojson_main. cbn [length Nat.ltb Nat.leb nth].
    rewrite (basename_of dir (stem ++ DOT :: ext) Hdir Hname).
    rewrite (splitext_stem stem ext Hs He Hd Hstem). reflexivity.
  - intros program dir dots ext Hdir He Hd Hdots.
    assert (Hs : has_char SLASH dots = false).
    { clear - Hdots. induction dots as [|x dots IH]; [reflexivity|].
      cbn [forallb] in Hdots. apply andb_prop in Hdots.
      destruct Hdots as [Hx Hdots]. apply N.eqb_eq in Hx. subst x.
      rewrite has_char_cons, (IH Hdots). reflexivity. }
    assert (Hname : has_char SLASH (dots ++ DOT :: ext) = false).
    { rewrite has_char_app, Hs, has_char_cons, He. reflexivity. }
    unfold json_to_geojson_main. cbn [length Nat.ltb Nat.leb nth].
    rewrite (basename_of dir (dots ++ DOT :: ext) Hdir Hname).
    rewrite (splitext_dots dots ext Hs He Hd Hdots). reflexivity.
Qed.

Example default_output_path_samples :
  json_to_geojson_main [u "json_to_geojson.py"; u "~/Downloads/ru-borders.json"]
  = Ok (u "~/Downloads/ru-borders.json", u "ru-borders.geojson")
  /\ json_to_geojson_main [u "json_to_geojson.py"; u "data/.hidden"]
     = Ok (u "data/.hidden", u ".hidden.geojson")
  /\ json_to_geojson_main [u "json_to_geojson.py"; u "a.json"; u "out/b.geojson"]
     = Ok (u "a.json", u "out/b.geojson")
  /\ json_to_geojson_main [u "json_to_geojson.py"] = Raise SystemExit.
Proof. repeat split; vm_compute; reflexivity. Qed.
